(** * WeekCore: the weekly scheduling engine of Chrono (src/week-core.js)

    A shallow embedding of the engine's store, of its save path
    (normalise, clip, persist), of the effective-range resolver, of the
    slot grid builder, of the geometry calculator, of the editor and
    export interface and of the render pass with its cache, followed by
    the properties of the engine's specification and by further
    properties of the code.

    Modelling conventions.
    - JS numbers holding minutes, pixels, slots and stamps are integers
      ([Z]); [Math.round (m/15)] is [floor (m/15 + 1/2)], which is what
      binary64 arithmetic gives for [|m| ≤ 15 * 2^49] ([exactQuotient]);
      [x|0] is the signed 32-bit wrap-around.
    - JS objects used as dictionaries are [gmap]s.  Task keys are
      strings other than the property names that every JS object
      inherits ([ordinaryKey]).  A date key ['YYYY-MM-DD'] determines and is determined by
      its calendar day, so the date- and week-keyed maps are keyed by the
      day number (days since 1970-01-01, local calendar); a month key
      ['YYYY-MM'] is keyed by [year * 100 + month].
    - JS arrays are lists; a slot cell is [option string] ([None] is
      [null]).  Reading past the end of an array gives [undefined], which
      is neither [null] nor a task key.
    - The host clock is a parameter [today] (the day number of the
      current local day) of the operations that read [new Date()]; day
      numbers stand for dates that a JS [Date] can hold (at most 1e8
      days from 1970-01-01).
    - The paint hooks and the geometry probe are the caller's.  The
      record [WeekCore] is the store and the view state; the record
      [Engine] adds the color and label dictionaries and the render
      cache, and the operations on it take what [measureGrid()] returns
      as a parameter and give the hook calls they make as a list. *)

From Stdlib Require Import ssreflect ZArith Lia.
From stdpp Require Import base option numbers list list_numbers sorting gmap strings pretty.

Local Open Scope Z_scope.
#[local] Set Warnings "-rewrite-rw".

(** ** Ranges and slots *)

Record Range := mkRange { startMin : Z; endMin : Z }.

#[global] Instance Range_eq_dec : EqDecision Range.
Proof. solve_decision. Defined.

Abbreviation DayRanges := (list Range).
Abbreviation WeekRanges := (list (list Range)).
Abbreviation DaySlots := (list (option string)).
Abbreviation WeekSlots := (list (list (option string))).

Definition SLOTS_PER_DAY : Z := 96.

(** [Math.round(x)] is [floor (x + 1/2)]; at [x = m/15] that is
    [floor ((2m + 15) / 30)]. *)
Definition math_round_div15 (m : Z) : Z := (2 * m + 15) `div` 30.

(** The minute values for which the binary64 quotient [min/15] rounds as
    the exact one does: up to [2^49] a double lies within 1/32 of the
    quotient, and the quotient, a multiple of 1/15, is an integer or at
    least 1/30 away from every halfway point.  Beyond, [Math.round(min/15)]
    can be off by one (first at [min = 15 * 2^49 + 7]). *)
Definition exactQuotient (min : Z) : Prop := Z.abs min ≤ 15 * 2 ^ 49.

(** [_round15(min){ return Math.round(min/15)*15; }] *)
Definition _round15 (min : Z) : Z := math_round_div15 min * 15.

(** [_minsToSlot(min){ return Math.max(0, Math.min(this.SLOTS_PER_DAY, Math.round(min/15))); }] *)
Definition _minsToSlot (min : Z) : Z :=
  Z.max 0 (Z.min SLOTS_PER_DAY (math_round_div15 min)).

(** [_blankWeekRanges] and [_blankWeekSlots]. *)
Definition _blankWeekRanges : WeekRanges := replicate 7 [].
Definition _blankWeekSlots : WeekSlots :=
  replicate 7 (replicate (Z.to_nat SLOTS_PER_DAY) None).

(** [(w?.[i]||[])]: a missing week or a missing day reads as no ranges. *)
Definition dayOf (w : option WeekRanges) (i : nat) : DayRanges :=
  default [] (w ≫= (.!! i)).

(** [_deepCopyWeek(w)]: always seven days, each a copy of the ranges. *)
Definition _deepCopyWeek (w : option WeekRanges) : WeekRanges :=
  (λ i, (λ r, mkRange (startMin r) (endMin r)) <$> dayOf w i) <$> seq 0 7.

(** ** Geometry calculator *)

Record Geometry := mkGeometry {
  totalW : Z; totalH : Z;
  colW : list Z; colX : list Z;
  rowH : list Z; rowY : list Z;
  slotY : list Z
}.

(** One pass of
    [for(c=0;c<n;c++){ w=base+(c<extra?1:0); sizes.push(w); offs.push(offs[c]+w); }]
    on the pair of arrays (sizes, offsets). *)
Definition spreadStep (base extra : Z) (acc : list Z * list Z) (c : nat)
  : list Z * list Z :=
  let w := base + (if bool_decide (Z.of_nat c < extra) then 1 else 0) in
  (acc.1 ++ [w], acc.2 ++ [default 0 (acc.2 !! c) + w]).

Definition spreadLoop (base extra : Z) (n : nat) : list Z * list Z :=
  foldl (spreadStep base extra) ([], [0]) (seq 0 n).

(** The quarter heights of one hour:
    [parts=[base,base,base,base]; start=hr%4;
     for(k=0;k<extra;k++) parts[(start+k)%4]+=1;] *)
Definition quarterParts (h : Z) (hr : nat) : list Z :=
  let base := h `div` 4 in
  let extra := h - base * 4 in
  let start := Z.of_nat hr `mod` 4 in
  foldl (λ parts k, alter (λ x, x + 1) (Z.to_nat ((start + k) `mod` 4)) parts)
        [base; base; base; base] (seqZ 0 extra).

Definition slotHeightsPerHour (rowH : list Z) : list (list Z) :=
  (λ hr, quarterParts (default 0 (rowH !! hr)) hr) <$> seq 0 24.

(** [slotY.push(slotY[slotY.length-1]+x)] *)
Definition pushCumulative (ys : list Z) (x : Z) : list Z :=
  ys ++ [default 0 (last ys) + x].

(** [const slotY=[0]; for(let hr=0; hr<n; hr++){ for(let q=0; q<4; q++)
      slotY.push(slotY[slotY.length-1]+slotHeightsPerHour[hr][q]); }] *)
Definition slotYLoop (heights : list (list Z)) (n : nat) : list Z :=
  foldl (λ ys hr,
           foldl (λ ys q, pushCumulative ys
                            (default 0 (heights !! hr ≫= (.!! q))))
                 ys (seq 0 4))
        [0] (seq 0 n).

(** [_computeGeometry(totalW, totalH)] *)
Definition _computeGeometry (totalW totalH : Z) : Geometry :=
  let colWBase := totalW `div` 7 in
  let extraW := totalW - colWBase * 7 in
  let cols := spreadLoop colWBase extraW 7 in
  let rowHBase := totalH `div` 24 in
  let extraH := totalH - rowHBase * 24 in
  let rows := spreadLoop rowHBase extraH 24 in
  let heights := slotHeightsPerHour rows.1 in
  let slotY := slotYLoop heights 24 in
  mkGeometry totalW totalH cols.1 cols.2 rows.1 rows.2 slotY.

(** Closed forms of what [spreadLoop] pushes: the size of part [c] and
    the offset at which part [c] starts. *)
Definition spreadWidth (base extra : Z) (c : nat) : Z :=
  base + (if bool_decide (Z.of_nat c < extra) then 1 else 0).

Definition spreadOffset (base extra : Z) (c : nat) : Z :=
  Z.of_nat c * base + Z.max 0 (Z.min (Z.of_nat c) extra).

(** The quarter heights of the 24 hours when the row heights are those
    of [spreadLoop base extra 24]. *)
Definition hourHeights (base extra : Z) : list (list Z) :=
  slotHeightsPerHour (spreadLoop base extra 24).1.

(** The sum of a list of pixel sizes. *)
Definition sumZ (l : list Z) : Z := foldr Z.add 0 l.

(** ** The host calendar

    A [Date] at the start of a local day is its day number.  [getDay] is
    the weekday (0 is Sunday; 1970-01-01 was a Thursday); [_addDays] adds
    to the day number; year and month follow the proleptic Gregorian
    calendar. *)

Definition getDay (d : Z) : Z := (d + 4) `mod` 7.

Definition _addDays (d n : Z) : Z := d + n.

(** [getFullYear()] and [getMonth()+1] of a day. *)
Definition civilYearMonth (d : Z) : Z * Z :=
  let z := d + 719468 in
  let era := z `div` 146097 in
  let doe := z `mod` 146097 in
  let yoe := (doe - doe `div` 1460 + doe `div` 36524 - doe `div` 146096) `div` 365 in
  let doy := doe - (365 * yoe + yoe `div` 4 - yoe `div` 100) in
  let mp := (5 * doy + 2) `div` 153 in
  let m := if bool_decide (mp < 10) then mp + 3 else mp - 9 in
  let y := yoe + era * 400 + (if bool_decide (m ≤ 2) then 1 else 0) in
  (y, m).

(** [_fmtDate]: the key ['YYYY-MM-DD'] of a day, as its day number. *)
Definition _fmtDate (d : Z) : Z := d.
(** [_fmtWeekKey(first){ return this._fmtDate(first); }] *)
Definition _fmtWeekKey (first : Z) : Z := _fmtDate first.
(** [_fmtMonthKey]: the key ['YYYY-MM'] as [year * 100 + month]. *)
Definition _fmtMonthKey (d : Z) : Z :=
  let ym := civilYearMonth d in ym.1 * 100 + ym.2.

(** ** The engine state *)

Record Task := mkTask { key : string; label : string; color : string; hard : bool }.

Inductive Scope := ScRecurring | ScWeek | ScMonth | ScToday.

#[global] Instance Scope_eq_dec : EqDecision Scope.
Proof. solve_decision. Defined.

Record Exceptions := mkExceptions {
  byDate : gmap Z (gmap string (list Range));
  byWeek : gmap Z (gmap string (list (list Range)));
  byMonth : gmap Z (gmap string (list (list Range)))
}.

Record Order := mkOrder {
  ord_recurring : gmap string Z;
  ord_week : gmap Z (gmap string Z);
  ord_month : gmap Z (gmap string Z)
}.

Record WeekCore := mkWeekCore {
  TASKS : list Task;
  EXACT : gmap string (list (list Range));
  EXCEPTIONS : Exceptions;
  LAST_SCOPE : gmap string Scope;
  ORDER : Order;
  _saveSeq : Z;
  weekOffset : Z;
  visibleWeekFirst : Z
}.

(** [obj[k1]?.[k2]] on a dictionary of dictionaries. *)
Definition lookup2 {V} (m : gmap Z (gmap string V)) (k1 : Z) (k2 : string)
  : option V := m !! k1 ≫= (.!! k2).

(** [obj[k1] = obj[k1] || {}; obj[k1][k2] = v] *)
Definition insert2 {V} (k1 : Z) (k2 : string) (v : V)
    (m : gmap Z (gmap string V)) : gmap Z (gmap string V) :=
  <[k1 := <[k2 := v]> (default ∅ (m !! k1))]> m.

(** [if(obj[k1]?.[k2]){ delete obj[k1][k2];
      if(Object.keys(obj[k1]).length===0) delete obj[k1]; }] *)
Definition delete2 {V} (k1 : Z) (k2 : string)
    (m : gmap Z (gmap string V)) : gmap Z (gmap string V) :=
  match m !! k1 with
  | Some inner =>
      match inner !! k2 with
      | Some _ =>
          let inner' := delete k2 inner in
          if bool_decide (size inner' = 0%nat) then delete k1 m
          else <[k1 := inner']> m
      | None => m
      end
  | None => m
  end.

(** ** Effective-range resolver *)

(** [_effectiveExactForTask(taskKey)] *)
Definition _effectiveExactForTask (st : WeekCore) (taskKey : string) : WeekRanges :=
  let eff := _deepCopyWeek (EXACT st !! taskKey) in
  let wkKey := _fmtWeekKey (visibleWeekFirst st) in
  let moKey := _fmtMonthKey (visibleWeekFirst st) in
  let weekOverride := lookup2 (byWeek (EXCEPTIONS st)) wkKey taskKey in
  let monthOverride := lookup2 (byMonth (EXCEPTIONS st)) moKey taskKey in
  let eff := match monthOverride with
             | Some mo => _deepCopyWeek (Some mo) | None => eff end in
  let eff := match weekOverride with
             | Some wo => _deepCopyWeek (Some wo) | None => eff end in
  foldl (λ eff d,
           let dateKey := _fmtDate (_addDays (visibleWeekFirst st) (Z.of_nat d)) in
           match lookup2 (byDate (EXCEPTIONS st)) dateKey taskKey with
           | Some dayOverride =>
               <[d := (λ r, mkRange (startMin r) (endMin r)) <$> dayOverride]> eff
           | None => eff
           end)
        eff (seq 0 7).

(** The week that the resolver starts from, before date exceptions: the
    week exception if present, else the month exception if present, else
    the recurring template. *)
Definition scopedWeek (st : WeekCore) (taskKey : string) : option WeekRanges :=
  match lookup2 (byWeek (EXCEPTIONS st)) (_fmtWeekKey (visibleWeekFirst st)) taskKey with
  | Some wo => Some wo
  | None =>
      match lookup2 (byMonth (EXCEPTIONS st)) (_fmtMonthKey (visibleWeekFirst st)) taskKey with
      | Some mo => Some mo
      | None => EXACT st !! taskKey
      end
  end.

(** *** The resolver on a heap of week arrays

    [_effectiveExactForTask] assigns to [eff[d]].  To see that this never
    reaches an array of the store, week arrays are here objects on a
    heap and the dictionaries hold references to them.  Day arrays and
    range objects are only read or freshly made by this function, so they
    stay values. *)

Abbreviation loc := positive.
Abbreviation heap := (gmap positive (list (list Range))).

Record RefStore := mkRefStore {
  refEXACT : gmap string loc;
  refByWeek : gmap Z (gmap string loc);
  refByMonth : gmap Z (gmap string loc);
  refByDate : gmap Z (gmap string (list Range))
}.

(** A new array object. *)
Definition allocWeek (w : WeekRanges) (h : heap) : loc * heap :=
  let l := fresh (dom h) in (l, <[l := w]> h).

(** [_deepCopyWeek(w)] where [w] is a reference or [undefined]. *)
Definition _deepCopyWeek_ref (w : option loc) (h : heap) : loc * heap :=
  allocWeek (_deepCopyWeek (w ≫= (h !!.))) h.

(** [eff[d] = v] *)
Definition writeDay (eff : loc) (d : nat) (v : DayRanges) (h : heap) : heap :=
  alter (λ w, <[d := v]> w) eff h.

(** [_effectiveExactForTask(taskKey)] on the heap: the reference it
    returns and the heap it leaves. *)
Definition _effectiveExactForTask_ref (first : Z) (rs : RefStore)
    (taskKey : string) (h : heap) : loc * heap :=
  let r := _deepCopyWeek_ref (refEXACT rs !! taskKey) h in
  let wkKey := _fmtWeekKey first in
  let moKey := _fmtMonthKey first in
  let weekOverride := lookup2 (refByWeek rs) wkKey taskKey in
  let monthOverride := lookup2 (refByMonth rs) moKey taskKey in
  let r := match monthOverride with
           | Some mo => _deepCopyWeek_ref (Some mo) r.2 | None => r end in
  let r := match weekOverride with
           | Some wo => _deepCopyWeek_ref (Some wo) r.2 | None => r end in
  (r.1,
   foldl (λ h d,
            let dateKey := _fmtDate (_addDays first (Z.of_nat d)) in
            match lookup2 (refByDate rs) dateKey taskKey with
            | Some dayOverride =>
                writeDay r.1 d ((λ r, mkRange (startMin r) (endMin r)) <$> dayOverride) h
            | None => h
            end)
         r.2 (seq 0 7)).

(** The heap [h] and the references [rs] hold the store of [st]: every
    reference points to an array, and following the references gives the
    dictionaries of [st]. *)
Definition represents (h : heap) (rs : RefStore) (st : WeekCore) : Prop :=
  (∀ k l, refEXACT rs !! k = Some l → is_Some (h !! l)) ∧
  (∀ k1 k2 l, lookup2 (refByWeek rs) k1 k2 = Some l → is_Some (h !! l)) ∧
  (∀ k1 k2 l, lookup2 (refByMonth rs) k1 k2 = Some l → is_Some (h !! l)) ∧
  (∀ k, EXACT st !! k = refEXACT rs !! k ≫= (h !!.)) ∧
  (∀ k1 k2, lookup2 (byWeek (EXCEPTIONS st)) k1 k2
            = lookup2 (refByWeek rs) k1 k2 ≫= (h !!.)) ∧
  (∀ k1 k2, lookup2 (byMonth (EXCEPTIONS st)) k1 k2
            = lookup2 (refByMonth rs) k1 k2 ≫= (h !!.)) ∧
  byDate (EXCEPTIONS st) = refByDate rs.

(** ** Slot grid builder *)

(** The indices of [for(let s=sa; s<sb; s++)]. *)
Definition loopSlots (sa sb : Z) : list Z := seqZ sa (sb - sa).

(** [arr[i]] for an integer index. *)
Definition at_index {A} (l : list A) (i : Z) : option A :=
  if bool_decide (0 ≤ i) then l !! Z.to_nat i else None.

(** [if(targetSlots[d][s]===null) targetSlots[d][s]=cat;] -- the grids
    that the engine passes have all seven rows ([_blankWeekSlots]); a
    missing row is left alone here. *)
Definition claimSlot (cat : string) (targetSlots : WeekSlots) (ds : nat * Z)
  : WeekSlots :=
  match targetSlots !! ds.1 with
  | Some row =>
      match at_index row ds.2 with
      | Some None => <[ds.1 := <[Z.to_nat ds.2 := Some cat]> row]> targetSlots
      | _ => targetSlots
      end
  | None => targetSlots
  end.

(** The (day, slot) cells that the body of the [forEach] in
    [_applyRangesToSlots] visits for one range [R] of day [d], in order. *)
Definition rangeVisits (d : nat) (R : Range) : list (nat * Z) :=
  let a := _round15 (startMin R) in
  let b := _round15 (endMin R) in
  if bool_decide (b = a) then []
  else if bool_decide (b > a) then
    let sa := _minsToSlot a in
    let sb := _minsToSlot b in
    (λ s, (d, s)) <$> loopSlots sa sb
  else
    let sa := _minsToSlot a in
    let sb := _minsToSlot (24 * 60) in
    let dn := ((d + 1) `mod` 7)%nat in
    let sa2 := _minsToSlot 0 in
    let sb2 := _minsToSlot b in
    ((λ s, (d, s)) <$> loopSlots sa sb) ++ ((λ s, (dn, s)) <$> loopSlots sa2 sb2).

(** [_applyRangesToSlots(cat, exact, targetSlots)] *)
Definition _applyRangesToSlots (cat : string) (exact : WeekRanges)
    (targetSlots : WeekSlots) : WeekSlots :=
  foldl (λ slots d,
           foldl (λ slots R, foldl (claimSlot cat) slots (rangeVisits d R))
                 slots (dayOf (Some exact) d))
        targetSlots (seq 0 7).

(** [Array.prototype.sort] with a comparator [(a,b) => f(a)-f(b)]: the
    stable sort by the key [f]. *)
Fixpoint sortInsert {A} (f : A → Z) (x : A) (l : list A) : list A :=
  match l with
  | [] => [x]
  | y :: l' => if bool_decide (f x ≤ f y) then x :: y :: l'
               else y :: sortInsert f x l'
  end.

Definition sortByKey {A} (f : A → Z) (l : list A) : list A :=
  foldr (sortInsert f) [] l.

(** [seqs.filter(x=>typeof x==='number')]: the stamps that a task has for
    the visible week's week key and month key and at recurring scope. *)
Definition definedSeqs (st : WeekCore) (taskKey : string) : list Z :=
  let wkKey := _fmtWeekKey (visibleWeekFirst st) in
  let moKey := _fmtMonthKey (visibleWeekFirst st) in
  let seqs := [lookup2 (ord_week (ORDER st)) wkKey taskKey;
               lookup2 (ord_month (ORDER st)) moKey taskKey;
               ord_recurring (ORDER st) !! taskKey] in
  omap id seqs.

(** [seqForTask]: [seqs.filter(...).sort((a,b)=>a-b)[0] ?? 1e9]. *)
Definition seqForTask (st : WeekCore) (taskKey : string) : Z :=
  default 1000000000 (head (sortByKey id (definedSeqs st taskKey))).

(** In a processing order, [a] comes at an earlier position than [b]. *)
Definition processedBefore (order : list string) (a b : string) : Prop :=
  ∃ l1 l2 l3, order = l1 ++ a :: l2 ++ b :: l3.

(** [[...this.TASKS.map(t=>t.key)].sort((a,b)=>seqForTask(a)-seqForTask(b))] *)
Definition orderedTasks (st : WeekCore) : list string :=
  sortByKey (seqForTask st) (key <$> TASKS st).

(** [for(const key of ordered){ const eff = this._effectiveExactForTask(key);
      this._applyRangesToSlots(key, eff, slots); }] *)
Definition applyTasks (st : WeekCore) (ordered : list string) (slots : WeekSlots)
  : WeekSlots :=
  foldl (λ slots k, _applyRangesToSlots k (_effectiveExactForTask st k) slots)
        slots ordered.

(** [_rebuildSlotsForVisibleWeek]: the new value of [_allSlots]. *)
Definition _rebuildSlotsForVisibleWeek (st : WeekCore) : WeekSlots :=
  applyTasks st (orderedTasks st) _blankWeekSlots.

(** A grid of seven days of 96 slots. *)
Definition gridShape (slots : WeekSlots) : Prop :=
  length slots = 7%nat ∧ Forall (λ row, length row = Z.to_nat SLOTS_PER_DAY) slots.

(** The cell [slots[d][s]]. *)
Definition cell (slots : WeekSlots) (d s : nat) : option (option string) :=
  slots !! d ≫= (.!! s).

(** The (day, slot) cells visited when a whole week of ranges is applied. *)
Definition weekVisits (exact : WeekRanges) : list (nat * Z) :=
  d ← seq 0 7; R ← dayOf (Some exact) d; rangeVisits d R.

(** The first task of [ordered] whose effective ranges visit cell (d, s). *)
Definition firstClaimant (st : WeekCore) (ordered : list string) (d s : nat)
  : option string :=
  head (filter (λ k, (d, Z.of_nat s) ∈ weekVisits (_effectiveExactForTask st k))
               ordered).

(** [_buildOccupancyMap(excludeTaskKey)] *)
Definition _buildOccupancyMap (st : WeekCore) (excludeTaskKey : string) : WeekSlots :=
  foldl (λ occ k,
           if bool_decide (k = excludeTaskKey) then occ
           else _applyRangesToSlots k (_effectiveExactForTask st k) occ)
        _blankWeekSlots (orderedTasks st).


(** ** Range normaliser and clipper *)

(** [x|0] on an integer. *)
Definition toInt32 (x : Z) : Z := (x + 2147483648) `mod` 4294967296 - 2147483648.

(** [norm[d].push(r)] *)
Definition pushDay (d : nat) (r : Range) (w : WeekRanges) : WeekRanges :=
  alter (λ day, day ++ [r]) d w.

(** The body of [for(const r of (weekRanges[d]||[]))] in
    [_normalizeAndClip], on the pair [(norm, hadOvernight)]. *)
Definition normRange (d : nat) (acc : WeekRanges * bool) (r : Range)
  : WeekRanges * bool :=
  let s := toInt32 (startMin r) in
  let e := toInt32 (endMin r) in
  if bool_decide (e > s) then
    let s := _round15 s in
    let e := _round15 e in
    if bool_decide (e > s) then (pushDay d (mkRange s e) acc.1, acc.2) else acc
  else if bool_decide (e < s) then
    let s1 := _round15 s in
    let e1 := _round15 (24 * 60) in
    let norm := if bool_decide (e1 > s1) then pushDay d (mkRange s1 e1) acc.1
                else acc.1 in
    let s2 := _round15 0 in
    let e2 := _round15 e in
    let dn := ((d + 1) `mod` 7)%nat in
    let norm := if bool_decide (e2 > s2) then pushDay dn (mkRange s2 e2) norm
                else norm in
    (norm, true)
  else acc.

(** Step 1 of [_normalizeAndClip]: split overnight ranges, round to 15. *)
Definition splitQuantize (weekRanges : WeekRanges) : WeekRanges * bool :=
  foldl (λ acc d, foldl (normRange d) acc (dayOf (Some weekRanges) d))
        (_blankWeekRanges, false) (seq 0 7).

(** [const req = Array(96).fill(false);
     for(const r of norm[d]){ a=..., b=...; for(let s=a;s<b;s++) req[s]=true; }] *)
Definition requested (day : DayRanges) : list bool :=
  foldl (λ req r,
           foldl (λ req s, <[Z.to_nat s := true]> req) req
                 (loopSlots (_minsToSlot (startMin r)) (_minsToSlot (endMin r))))
        (replicate (Z.to_nat SLOTS_PER_DAY) false) day.

(** [(occ[d][s]===null || occ[d][s]===taskKey)] *)
Definition freeFor (taskKey : string) (occRow : DaySlots) (s : nat) : bool :=
  match occRow !! s with
  | Some None => true
  | Some (Some k) => bool_decide (k = taskKey)
  | None => false
  end.

(** [req[s] && (occ[d][s]===null || occ[d][s]===taskKey)] *)
Definition grantable (taskKey : string) (req : list bool) (occRow : DaySlots)
    (s : nat) : bool :=
  default false (req !! s) && freeFor taskKey occRow s.

(** [while(s<96 && p(s)) s++;] -- at most [fuel] iterations; [96 - s] of
    them are enough for the loop to have ended ([scanWhile_fuel]). *)
Fixpoint scanWhile (fuel : nat) (p : nat → bool) (s : nat) : nat :=
  match fuel with
  | O => s
  | S fuel' =>
      if bool_decide (Z.of_nat s < SLOTS_PER_DAY) && p s
      then scanWhile fuel' p (S s) else s
  end.

(** The sweep [let s=0; while(s<96){ ... s=e; }] of [_normalizeAndClip],
    from slot [s], appending to [out]; at most [fuel] runs, of which
    [96 - s] are enough for the loop to have ended ([sweepRuns_fuel]). *)
Fixpoint sweepRuns (fuel : nat) (ok : nat → bool) (s : nat) (out : DayRanges)
  : DayRanges :=
  match fuel with
  | O => out
  | S fuel' =>
      if bool_decide (Z.of_nat s < SLOTS_PER_DAY) then
        let s := scanWhile (Z.to_nat SLOTS_PER_DAY) (λ i, negb (ok i)) s in
        if bool_decide (SLOTS_PER_DAY ≤ Z.of_nat s) then out
        else
          let e := scanWhile (Z.to_nat SLOTS_PER_DAY) ok (S s) in
          let startMin := Z.of_nat s * 15 in
          let endMin := Z.of_nat e * 15 in
          let out := if bool_decide (endMin > startMin)
                     then out ++ [mkRange startMin endMin] else out in
          sweepRuns fuel' ok e out
      else out
  end.

#[global] Arguments scanWhile : simpl never.
#[global] Arguments sweepRuns : simpl never.

(** The merge loop: [if(!merged.length) merged.push(r); else{ last=...;
    if(r.startMin<=last.endMin) last.endMin=Math.max(last.endMin,r.endMin);
    else merged.push(r); }] *)
Definition mergeStep (merged : DayRanges) (r : Range) : DayRanges :=
  match last merged with
  | None => [r]
  | Some lst =>
      if bool_decide (startMin r ≤ endMin lst)
      then removelast merged ++ [mkRange (startMin lst) (Z.max (endMin lst) (endMin r))]
      else merged ++ [r]
  end.

(** One day of the clip loop: sweep, sort, merge, keep four. *)
Definition clipDay (taskKey : string) (normDay : DayRanges) (occRow : DaySlots)
  : DayRanges :=
  let req := requested normDay in
  let runs := sweepRuns (Z.to_nat SLOTS_PER_DAY) (grantable taskKey req occRow) 0 [] in
  let sorted := sortByKey startMin runs in
  let merged := foldl mergeStep [] sorted in
  if bool_decide (4 < length merged)%nat then take 4 merged else merged.

(** [_getTodayTargetInVisibleWeek()]: the date and the weekday index. *)
Definition _getTodayTargetInVisibleWeek (today : Z) (st : WeekCore) : Z * nat :=
  let visStart := visibleWeekFirst st in
  let isCurrentWeek :=
    bool_decide (visStart ≤ today) && bool_decide (today ≤ _addDays visStart 6) in
  if isCurrentWeek then (today, Z.to_nat (getDay today)) else (visStart, 0%nat).

Record Clipped := mkClipped { week : WeekRanges; spillNextDay : DayRanges }.

(** [_normalizeAndClip(scope, taskKey, weekRanges)] *)
Definition _normalizeAndClip (today : Z) (st : WeekCore) (scope : Scope)
    (taskKey : string) (weekRanges : WeekRanges) : Clipped :=
  let '(norm, hadOvernight) := splitQuantize weekRanges in
  let occ := _buildOccupancyMap st taskKey in
  let clipped :=
    (λ d, clipDay taskKey (dayOf (Some norm) d) (default [] (occ !! d)))
      <$> seq 0 7 in
  let spill :=
    if bool_decide (scope = ScToday) && hadOvernight then
      let index := (_getTodayTargetInVisibleWeek today st).2 in
      let dn := ((index + 1) `mod` 7)%nat in
      dayOf (Some clipped) dn
    else [] in
  mkClipped clipped spill.

(** Minute values that [x|0] leaves as they are. *)
Definition int32Range (r : Range) : Prop :=
  -2147483648 ≤ startMin r < 2147483648 ∧ -2147483648 ≤ endMin r < 2147483648.

(** A day's ranges are runs of slots that satisfy [ok], listed from slot
    [lo] on: each is [[15 s, 15 e)] with [lo ≤ s < e ≤ 96], and the next
    one starts beyond slot [e]. *)
Fixpoint okRuns (ok : nat → bool) (lo : nat) (l : DayRanges) : Prop :=
  match l with
  | [] => True
  | r :: l' =>
      ∃ s e : nat,
        (lo ≤ s < e)%nat ∧ (e ≤ 96)%nat ∧
        r = mkRange (Z.of_nat s * 15) (Z.of_nat e * 15) ∧
        (∀ i, (s ≤ i < e)%nat → ok i = true) ∧
        okRuns ok (S e) l'
  end.

(** Slot [i] lies in one of the ranges, by their slot bounds. *)
Definition covered (l : DayRanges) (i : nat) : bool :=
  existsb (λ r, bool_decide (_minsToSlot (startMin r) ≤ Z.of_nat i
                             < _minsToSlot (endMin r))) l.

(** ** Persisting a save *)

(** [if(!stamps[taskKey]) stamps[taskKey] = this._saveSeq++;] -- a stamp
    is unset when it is missing or falsy (zero). *)
Definition stampIfUnset (taskKey : string) (stamps : gmap string Z) (saveSeq : Z)
  : gmap string Z * Z :=
  match stamps !! taskKey with
  | Some v => if bool_decide (v = 0) then (<[taskKey := saveSeq]> stamps, saveSeq + 1)
              else (stamps, saveSeq)
  | None => (<[taskKey := saveSeq]> stamps, saveSeq + 1)
  end.

(** The two symmetric blocks of the today branch:
    [if(ranges.length){ byDate[k] = byDate[k] || {}; byDate[k][taskKey] = ranges; }
     else if(byDate[k]?.[taskKey]){ delete ...; }] *)
Definition writeOrDeleteDate (dateKey : Z) (taskKey : string) (ranges : DayRanges)
    (bd : gmap Z (gmap string (list Range))) : gmap Z (gmap string (list Range)) :=
  if bool_decide (ranges ≠ []) then insert2 dateKey taskKey ranges bd
  else delete2 dateKey taskKey bd.

(** [saveRanges(taskKey, scope, weekRanges)], up to the final [_render]. *)
Definition saveRanges (today : Z) (st : WeekCore) (taskKey : string)
    (scope : Scope) (weekRanges : WeekRanges) : WeekCore :=
  let lastScope := <[taskKey := scope]> (LAST_SCOPE st) in
  let res := _normalizeAndClip today st scope taskKey weekRanges in
  let ex := EXCEPTIONS st in
  let ord := ORDER st in
  match scope with
  | ScRecurring =>
      let stamped := stampIfUnset taskKey (ord_recurring ord) (_saveSeq st) in
      mkWeekCore (TASKS st) (<[taskKey := week res]> (EXACT st)) ex lastScope
        (mkOrder stamped.1 (ord_week ord) (ord_month ord))
        stamped.2 (weekOffset st) (visibleWeekFirst st)
  | ScWeek =>
      let wkKey := _fmtWeekKey (visibleWeekFirst st) in
      let stamped :=
        stampIfUnset taskKey (default ∅ (ord_week ord !! wkKey)) (_saveSeq st) in
      mkWeekCore (TASKS st) (EXACT st)
        (mkExceptions (byDate ex) (insert2 wkKey taskKey (week res) (byWeek ex))
                      (byMonth ex))
        lastScope
        (mkOrder (ord_recurring ord) (<[wkKey := stamped.1]> (ord_week ord))
                 (ord_month ord))
        stamped.2 (weekOffset st) (visibleWeekFirst st)
  | ScMonth =>
      let moKey := _fmtMonthKey (visibleWeekFirst st) in
      let stamped :=
        stampIfUnset taskKey (default ∅ (ord_month ord !! moKey)) (_saveSeq st) in
      mkWeekCore (TASKS st) (EXACT st)
        (mkExceptions (byDate ex) (byWeek ex)
                      (insert2 moKey taskKey (week res) (byMonth ex)))
        lastScope
        (mkOrder (ord_recurring ord) (ord_week ord)
                 (<[moKey := stamped.1]> (ord_month ord)))
        stamped.2 (weekOffset st) (visibleWeekFirst st)
  | ScToday =>
      let target := _getTodayTargetInVisibleWeek today st in
      let dateKey := _fmtDate target.1 in
      let nextKey := _fmtDate (_addDays target.1 1) in
      let todayRanges := dayOf (Some (week res)) target.2 in
      let bd := writeOrDeleteDate dateKey taskKey todayRanges (byDate ex) in
      let bd := writeOrDeleteDate nextKey taskKey (spillNextDay res) bd in
      mkWeekCore (TASKS st) (EXACT st)
        (mkExceptions bd (byWeek ex) (byMonth ex))
        lastScope ord (_saveSeq st) (weekOffset st) (visibleWeekFirst st)
  end.

(** ** Construction, navigation, catalog and import *)

(** [gotoWeek(delta)] *)
Definition gotoWeek (today : Z) (delta : Z) (st : WeekCore) : WeekCore :=
  let offset := weekOffset st + delta in
  let first := today - getDay today + offset * 7 in
  mkWeekCore (TASKS st) (EXACT st) (EXCEPTIONS st) (LAST_SCOPE st) (ORDER st)
    (_saveSeq st) offset first.

(** [new WeekCore({tasks, ...})]: the stores are empty, the recurring
    template is blank for every catalog task, the counter is 1, and
    [gotoWeek(0)] sets the visible week. *)
Definition construct (today : Z) (tasks : list Task) : WeekCore :=
  gotoWeek today 0
    (mkWeekCore tasks
       (list_to_map ((λ t, (key t, _blankWeekRanges)) <$> rev tasks))
       (mkExceptions ∅ ∅ ∅) ∅ (mkOrder ∅ ∅ ∅) 1 0 0).

(** [replaceCatalog(tasks)] *)
Definition replaceCatalog (tasks : list Task) (st : WeekCore) : WeekCore :=
  mkWeekCore tasks (EXACT st) (EXCEPTIONS st) (LAST_SCOPE st) (ORDER st)
    (_saveSeq st) (weekOffset st) (visibleWeekFirst st).

(** [setState({EXACT, EXCEPTIONS, ORDER, LAST_SCOPE})]: each present part
    replaces the engine's; the save counter is not part of the state. *)
Definition setState (exact : option (gmap string (list (list Range))))
    (exceptions : option Exceptions) (order : option Order)
    (lastScope : option (gmap string Scope)) (st : WeekCore) : WeekCore :=
  mkWeekCore (TASKS st)
    (from_option (fmap (λ w, _deepCopyWeek (Some w))) (EXACT st) exact)
    (default (EXCEPTIONS st) exceptions)
    (default (LAST_SCOPE st) lastScope)
    (default (ORDER st) order)
    (_saveSeq st) (weekOffset st) (visibleWeekFirst st).

(** The calls a caller can make on an engine. *)
Inductive Call :=
| CallSave (today : Z) (taskKey : string) (scope : Scope) (weekRanges : WeekRanges)
| CallGoto (today : Z) (delta : Z)
| CallReplaceCatalog (tasks : list Task).

Definition perform (st : WeekCore) (c : Call) : WeekCore :=
  match c with
  | CallSave today taskKey scope weekRanges => saveRanges today st taskKey scope weekRanges
  | CallGoto today delta => gotoWeek today delta st
  | CallReplaceCatalog tasks => replaceCatalog tasks st
  end.

Definition performAll (st : WeekCore) (cs : list Call) : WeekCore :=
  foldl perform st cs.





(** ** Order stamps

    Where a stamp lives: at recurring scope per task, at week and month
    scope per key and task. *)
Inductive StampAddr :=
| AtRecurring (taskKey : string)
| AtWeek (wkKey : Z) (taskKey : string)
| AtMonth (moKey : Z) (taskKey : string).

#[global] Instance StampAddr_eq_dec : EqDecision StampAddr.
Proof. solve_decision. Defined.

Definition stampAt (st : WeekCore) (a : StampAddr) : option Z :=
  match a with
  | AtRecurring taskKey => ord_recurring (ORDER st) !! taskKey
  | AtWeek wkKey taskKey => lookup2 (ord_week (ORDER st)) wkKey taskKey
  | AtMonth moKey taskKey => lookup2 (ord_month (ORDER st)) moKey taskKey
  end.

(** The stamp that a save of [taskKey] at [scope] looks at. *)
Definition saveAddr (st : WeekCore) (scope : Scope) (taskKey : string)
  : option StampAddr :=
  match scope with
  | ScRecurring => Some (AtRecurring taskKey)
  | ScWeek => Some (AtWeek (_fmtWeekKey (visibleWeekFirst st)) taskKey)
  | ScMonth => Some (AtMonth (_fmtMonthKey (visibleWeekFirst st)) taskKey)
  | ScToday => None
  end.

(** What [if(!stamp) stamp = this._saveSeq++] leaves as the stamp and as
    the counter, given the stamp [old] that is there. *)
Definition stampAfter (old : option Z) (saveSeq : Z) : option Z :=
  match old with
  | Some v => if bool_decide (v = 0) then Some saveSeq else Some v
  | None => Some saveSeq
  end.

Definition counterAfter (old : option Z) (saveSeq : Z) : Z :=
  match old with
  | Some v => if bool_decide (v = 0) then saveSeq + 1 else saveSeq
  | None => saveSeq + 1
  end.

(** Every stamp was handed out by the counter: it is at least 1 and
    below the counter's next value. *)
Definition stampsFromCounter (st : WeekCore) : Prop :=
  1 ≤ _saveSeq st ∧ ∀ a v, stampAt st a = Some v → 1 ≤ v < _saveSeq st.

(** ** Reading the store: active scope, editor ranges, export *)

(** [_startOfDay(d)]: a day number is the start of its day. *)
Definition _startOfDay (d : Z) : Z := d.

(** [activeScopeForTask(taskKey)] *)
Definition activeScopeForTask (today : Z) (st : WeekCore) (taskKey : string) : Scope :=
  let wkKey := _fmtWeekKey (visibleWeekFirst st) in
  let moKey := _fmtMonthKey (visibleWeekFirst st) in
  let todayKey := _fmtDate (_startOfDay today) in
  if bool_decide (is_Some (lookup2 (byDate (EXCEPTIONS st)) todayKey taskKey)) then ScToday
  else if bool_decide (is_Some (lookup2 (byWeek (EXCEPTIONS st)) wkKey taskKey)) then ScWeek
  else if bool_decide (is_Some (lookup2 (byMonth (EXCEPTIONS st)) moKey taskKey)) then ScMonth
  else ScRecurring.

(** [set.map(r=>({startMin:r.startMin,endMin:r.endMin}))] *)
Definition copyRanges (l : DayRanges) : DayRanges :=
  (λ r, mkRange (startMin r) (endMin r)) <$> l.

(** [getExactForScope(taskKey, scope)] *)
Definition getExactForScope (today : Z) (st : WeekCore) (taskKey : string)
    (scope : Scope) : WeekRanges :=
  match scope with
  | ScRecurring => _deepCopyWeek (EXACT st !! taskKey)
  | ScWeek =>
      let wkKey := _fmtWeekKey (visibleWeekFirst st) in
      match lookup2 (byWeek (EXCEPTIONS st)) wkKey taskKey with
      | Some set => _deepCopyWeek (Some set)
      | None => _deepCopyWeek (EXACT st !! taskKey)
      end
  | ScMonth =>
      let moKey := _fmtMonthKey (visibleWeekFirst st) in
      match lookup2 (byMonth (EXCEPTIONS st)) moKey taskKey with
      | Some set => _deepCopyWeek (Some set)
      | None => _deepCopyWeek (EXACT st !! taskKey)
      end
  | ScToday =>
      let out := _blankWeekRanges in
      let index := (_getTodayTargetInVisibleWeek today st).2 in
      let dateKey := _fmtDate (_addDays (visibleWeekFirst st) (Z.of_nat index)) in
      match lookup2 (byDate (EXCEPTIONS st)) dateKey taskKey with
      | Some set => <[index := copyRanges set]> out
      | None =>
          let eff := _effectiveExactForTask st taskKey in
          <[index := copyRanges (dayOf (Some eff) index)]> out
      end
  end.

(** [_deepCopyExactMap(m)] and [_ensureExactShape(m)]: every entry is
    replaced by its seven-day copy. *)
Definition _deepCopyExactMap (m : gmap string (list (list Range)))
  : gmap string (list (list Range)) := (λ v, _deepCopyWeek (Some v)) <$> m.

Definition _ensureExactShape (m : gmap string (list (list Range)))
  : gmap string (list (list Range)) := (λ v, _deepCopyWeek (Some v)) <$> m.

(** The object that [getState()] returns.  [JSON.parse(JSON.stringify(x))]
    gives back a copy of [x] for the dictionaries, arrays, integers and
    scope names of the store. *)
Record Exported := mkExported {
  exEXACT : gmap string (list (list Range));
  exEXCEPTIONS : Exceptions;
  exORDER : Order;
  exLAST_SCOPE : gmap string Scope
}.

(** [getState()] *)
Definition getState (st : WeekCore) : Exported :=
  mkExported (_deepCopyExactMap (EXACT st)) (EXCEPTIONS st) (ORDER st) (LAST_SCOPE st).

(** [setState(s)] for an object [s] that has all four parts. *)
Definition importState (s : Exported) (st : WeekCore) : WeekCore :=
  setState (Some (exEXACT s)) (Some (exEXCEPTIONS s)) (Some (exORDER s))
           (Some (exLAST_SCOPE s)) st.

(** ** What a submitted range asks for *)

(** The (day, slot) cells that step 1 of [_normalizeAndClip] marks as
    requested for one submitted range [r] of day [d]: the slots between
    the rounded endpoints, and for a range that ends before it starts the
    slots from its rounded start to midnight and, on day [(d+1) mod 7],
    from midnight to its rounded end. *)
Definition requestedBy (d : nat) (r : Range) : list (nat * Z) :=
  let s := toInt32 (startMin r) in
  let e := toInt32 (endMin r) in
  if bool_decide (e > s) then
    (λ j, (d, j)) <$> loopSlots (_minsToSlot (_round15 s)) (_minsToSlot (_round15 e))
  else if bool_decide (e < s) then
    ((λ j, (d, j)) <$> loopSlots (_minsToSlot (_round15 s)) (_minsToSlot (24 * 60)))
    ++ ((λ j, (((d + 1) `mod` 7)%nat, j))
          <$> loopSlots (_minsToSlot 0) (_minsToSlot (_round15 e)))
  else [].

(** ** The form of stored ranges *)

(** A day in the form that clipping gives: at most four ranges, each
    [[15 s, 15 e)] with [s < e ≤ 96], each starting beyond the slot where
    the one before ended. *)
Definition clippedDay (l : DayRanges) : Prop :=
  okRuns (λ _, true) 0 l ∧ (length l ≤ 4)%nat.

Definition clippedWeek (w : WeekRanges) : Prop :=
  length w = 7%nat ∧ Forall clippedDay w.

(** Every stored week is a clipped week; a week exception is filed under
    a Sunday and, like a month exception, has a stamp; a date exception is
    a clipped day that is not empty, and no date has an empty mapping. *)
Definition storeClipped (st : WeekCore) : Prop :=
  (∀ k w, EXACT st !! k = Some w → clippedWeek w) ∧
  (∀ wk k w, lookup2 (byWeek (EXCEPTIONS st)) wk k = Some w →
     clippedWeek w ∧ getDay wk = 0 ∧ is_Some (lookup2 (ord_week (ORDER st)) wk k)) ∧
  (∀ mo k w, lookup2 (byMonth (EXCEPTIONS st)) mo k = Some w →
     clippedWeek w ∧ is_Some (lookup2 (ord_month (ORDER st)) mo k)) ∧
  (∀ dk k l, lookup2 (byDate (EXCEPTIONS st)) dk k = Some l → clippedDay l ∧ l ≠ []) ∧
  (∀ dk inner, byDate (EXCEPTIONS st) !! dk = Some inner → inner ≠ ∅).

(** ** Segments and durations of a slot grid *)

(** One segment of [_mergeDay]: [{cat, startSlot, len}].  [cat] is what
    [day[i]] reads: [None] is [undefined] (past the end of the array). *)
Record Segment := mkSegment {
  cat : option (option string);
  startSlot : nat;
  len : nat
}.

(** The loop of [_mergeDay] from slot [i], appending to [segs]; at most
    [fuel] segments, of which [96 - i] are enough for the loop to have
    ended ([mergeLoop_fuel]):
    [while(i<96){ const c=day[i]; let j=i+1;
       while(j<96 && day[j]===c) j++;
       segs.push({cat:c,startSlot:i,len:j-i}); i=j; }] *)
Fixpoint mergeLoop (fuel : nat) (day : DaySlots) (i : nat) (segs : list Segment)
  : list Segment :=
  match fuel with
  | O => segs
  | S fuel' =>
      if bool_decide (Z.of_nat i < SLOTS_PER_DAY) then
        let c := day !! i in
        let j := scanWhile (Z.to_nat SLOTS_PER_DAY)
                           (λ j, bool_decide (day !! j = c)) (S i) in
        mergeLoop fuel' day j (segs ++ [mkSegment c i (j - i)])
      else segs
  end.

#[global] Arguments mergeLoop : simpl never.

(** [_mergeDay(day)] *)
Definition _mergeDay (day : DaySlots) : list Segment :=
  mergeLoop (Z.to_nat SLOTS_PER_DAY) day 0 [].

(** [segs] cuts the slots from [i] to 96 of [day] into maximal runs of
    equal cells: each segment starts where the one before ended, is not
    empty, holds its [cat] in all its cells, and the cell after it, if
    there is one, holds something else. *)
Fixpoint maximalRuns (day : DaySlots) (i : nat) (segs : list Segment) : Prop :=
  match segs with
  | [] => i = 96%nat
  | sg :: rest =>
      startSlot sg = i ∧ (0 < len sg)%nat ∧ (i + len sg ≤ 96)%nat ∧
      (∀ j, (i ≤ j < i + len sg)%nat → day !! j = cat sg) ∧
      ((i + len sg < 96)%nat → day !! (i + len sg)%nat ≠ cat sg) ∧
      maximalRuns day (i + len sg) rest
  end.

(** The cells that a list of segments paints, in order. *)
Definition expandSegments (segs : list Segment) : list (option (option string)) :=
  seg ← segs; replicate (len seg) (cat seg).

(** [_countMinutesForVisibleWeek(key)] on the cached grid [allSlots]. *)
Definition _countMinutesForVisibleWeek (allSlots : WeekSlots) (key : string) : Z :=
  let count :=
    foldl (λ count d,
             foldl (λ count s,
                      if bool_decide (cell allSlots d s = Some (Some key))
                      then count + 1 else count)
                   count (seq 0 (Z.to_nat SLOTS_PER_DAY)))
          0 (seq 0 7) in
  count * 15.

(** The number of cells of a grid that satisfy [P]. *)
Definition countCells (P : option (option string) → Prop)
    `{∀ c, Decision (P c)} (slots : WeekSlots) : Z :=
  Z.of_nat (length (filter (λ ds : nat * nat, P (cell slots ds.1 ds.2))
                           (d ← seq 0 7; (λ s, (d, s)) <$> seq 0 96))).

(** ** The engine object with its render cache and its paint hooks *)

(** What [measureGrid()] returns when it returns a size. *)
Record Size := mkSize { width : Z; height : Z }.

(** The host clock: the local day and the time of day. *)
Record Clock := mkClock {
  localDay : Z; getHours : Z; getMinutes : Z; getSeconds : Z
}.

(** The rectangle of the current-hour hint.  A field is [None] where the
    JS number is [undefined] or [NaN]. *)
Module Rect.
Record t := mk {
  left : option Z; top : option Z; width : option Z; height : option Z
}.
End Rect.

(** [_nowRectOrNull(geom)] *)
Definition _nowRectOrNull (now : Clock) (st : WeekCore) (geom : Geometry)
  : option Rect.t :=
  let today := _startOfDay (localDay now) in
  let visStart := _startOfDay (visibleWeekFirst st) in
  let visEnd := _startOfDay (_addDays (visibleWeekFirst st) 6) in
  if bool_decide (today < visStart) || bool_decide (today > visEnd) then None
  else
    let dow := getDay (localDay now) in
    (* minutes = h*60 + m + s/60; hour = floor(minutes/60) *)
    let hour := ((getHours now * 60 + getMinutes now) * 60 + getSeconds now)
                  `div` 3600 in
    let hourTop := at_index (rowY geom) hour in
    let hourH := y1 ← at_index (rowY geom) (hour + 1);
                 y0 ← at_index (rowY geom) hour; Some (y1 - y0) in
    let extra := (λ h, Z.min 10 (h `div` 4)) <$> hourH in
    let top := h ← hourH; x ← extra; t ← hourTop;
               Some (Z.max 0 (Z.min (totalH geom - (h + x)) (t - x `div` 2))) in
    let height := t ← top; h ← hourH; x ← extra;
                  Some (Z.min (totalH geom - t) (h + x)) in
    let left := at_index (colX geom) dow in
    let width := if bool_decide (dow = 6)
                 then (λ w, Z.max 0 (w - 1)) <$> at_index (colW geom) dow
                 else at_index (colW geom) dow in
    Some (Rect.mk left top width height).

(** The calls of the render hooks.  [onRenderTitle] gets the text of
    [getWeekTitle()], which the host's [Intl.DateTimeFormat] makes; it is
    recorded without its argument. *)
Inductive HookCall :=
| onRenderTitle
| onRenderLabels (names : list string)
| onRenderHours (stamps : list string)
| onRenderMask (geom : Geometry)
| onRenderBlocks (slots : WeekSlots) (geom : Geometry) (colors : gmap string string)
| onRenderNowHint (rect : option Rect.t).

Definition SHORT_DOW : list string :=
  ["Sun"; "Mon"; "Tue"; "Wed"; "Thu"; "Fri"; "Sat"].

(** [Array.from({length:24},(_,h)=>`${String(h).padStart(2,'0')}:00`)] *)
Definition hourStamps : list string :=
  (λ h : nat, (if bool_decide (h < 10)%nat then "0" +:+ pretty h else pretty h)
              +:+ ":00") <$> seq 0 24.

(** The engine object: the store and view state ([WeekCore]), the color
    and label dictionaries, and the render cache. *)
Record Engine := mkEngine {
  core : WeekCore;
  COLORS : gmap string string;
  LABELS : gmap string string;
  _geom : option Geometry;
  _allSlots : WeekSlots
}.

(** [_render(forceGeom)], given what [measureGrid()] returns in it
    ([None] is no size): the engine afterwards and the hooks called, in
    order.  The hooks do not call back into the engine. *)
Definition _render (now : Clock) (size : option Size) (forceGeom : bool)
    (e : Engine) : Engine * list HookCall :=
  let texts := [onRenderTitle; onRenderLabels SHORT_DOW; onRenderHours hourStamps] in
  match size with
  | None => (e, texts)
  | Some sz =>
      if bool_decide (width sz = 0) || bool_decide (height sz = 0) then (e, texts)
      else
        let computed := _computeGeometry (width sz) (height sz) in
        let '(geom, mask) :=
          match _geom e with
          | Some g =>
              if forceGeom || bool_decide (totalW g ≠ width sz)
                 || bool_decide (totalH g ≠ height sz)
              then (computed, [onRenderMask computed]) else (g, [])
          | None => (computed, [onRenderMask computed])
          end in
        let slots := _rebuildSlotsForVisibleWeek (core e) in
        (mkEngine (core e) (COLORS e) (LABELS e) (Some geom) slots,
         texts ++ mask ++
         [onRenderBlocks slots geom (COLORS e);
          onRenderNowHint (_nowRectOrNull now (core e) geom)])
  end.

(** [Object.fromEntries(this.TASKS.map(t=>[t.key, f(t)]))]: of two tasks
    with the same key the later one gives the entry. *)
Definition catalogMap (f : Task → string) (tasks : list Task) : gmap string string :=
  list_to_map ((λ t, (key t, f t)) <$> rev tasks).

(** The catalog of an engine made without [opts.tasks]. *)
Definition defaultTasks : list Task :=
  [mkTask "work" "Work" "#D33C36" true;
   mkTask "commute" "Commute" "#E86A13" true;
   mkTask "chores" "Chores" "#3B41C5" true;
   mkTask "errands" "Errands" "#1D8F2E" true;
   mkTask "meals" "Meal Time" "#E0B21B" false;
   mkTask "hygiene" "Hygiene" "#0EA5E9" false;
   mkTask "selfcare" "Self care" "#A3A3A3" false;
   mkTask "exercise" "Exercise" "#1DB954" false;
   mkTask "family" "Family Time" "#E3326B" false;
   mkTask "hobbies" "Hobbies" "#F39C12" false;
   mkTask "leisure" "Leisure" "#6B5B95" false;
   mkTask "school" "School" "#3269E6" true;
   mkTask "relax" "Relaxation" "#24C3D6" false;
   mkTask "free" "Free Time" "#77C043" false;
   mkTask "routines" "Routines" "#7A5C2E" false;
   mkTask "sleep" "Sleep" "#6AA6FF" false].

(** [setColor(taskKey, hex)] and [setLabel(taskKey, name)] *)
Definition setColor (taskKey hex : string) (e : Engine) : Engine :=
  mkEngine (core e) (<[taskKey := hex]> (COLORS e)) (LABELS e) (_geom e) (_allSlots e).

Definition setLabel (taskKey name : string) (e : Engine) : Engine :=
  mkEngine (core e) (COLORS e) (<[taskKey := name]> (LABELS e)) (_geom e) (_allSlots e).

(** [rebuild(){ this._render(true); }] *)
Definition rebuild (now : Clock) (size : option Size) (e : Engine)
  : Engine * list HookCall := _render now size true e.

(** [getDurations()] *)
Definition getDurations (e : Engine) : gmap string Z :=
  foldl (λ out t, <[key t := _countMinutesForVisibleWeek (_allSlots e) (key t)]> out)
        ∅ (TASKS (core e)).

(** The public methods that change the store or the view, on the engine
    object: the change of [WeekCore] followed by the [_render] that the
    method ends with. *)
Module Public.

(** [new WeekCore({measureGrid, tasks, ...})] with a [measureGrid]
    function; [tasks] is [None] when [opts.tasks] is missing. *)
Definition construct (now : Clock) (size : option Size) (tasks : option (list Task))
  : Engine * list HookCall :=
  let ts := default defaultTasks tasks in
  _render now size false
    (mkEngine (construct (localDay now) ts) (catalogMap color ts) (catalogMap label ts)
              None _blankWeekSlots).

Definition replaceCatalog (tasks : list Task) (e : Engine) : Engine :=
  mkEngine (replaceCatalog tasks (core e)) (catalogMap color tasks)
           (catalogMap label tasks) (_geom e) (_allSlots e).

Definition gotoWeek (now : Clock) (size : option Size) (delta : Z) (e : Engine)
  : Engine * list HookCall :=
  _render now size false
    (mkEngine (gotoWeek (localDay now) delta (core e)) (COLORS e) (LABELS e)
              (_geom e) (_allSlots e)).

Definition saveRanges (now : Clock) (size : option Size) (taskKey : string)
    (scope : Scope) (weekRanges : WeekRanges) (e : Engine) : Engine * list HookCall :=
  _render now size false
    (mkEngine (saveRanges (localDay now) (core e) taskKey scope weekRanges)
              (COLORS e) (LABELS e) (_geom e) (_allSlots e)).

Definition setState (now : Clock) (size : option Size)
    (exact : option (gmap string (list (list Range))))
    (exceptions : option Exceptions) (order : option Order)
    (lastScope : option (gmap string Scope)) (e : Engine) : Engine * list HookCall :=
  _render now size true
    (mkEngine (setState exact exceptions order lastScope (core e))
              (COLORS e) (LABELS e) (_geom e) (_allSlots e)).

End Public.

(** The calls a caller can make on the engine object, each with the clock
    at the call and with what [measureGrid()] returns during it. *)
Inductive Op :=
| OpGotoWeek (now : Clock) (size : option Size) (delta : Z)
| OpSaveRanges (now : Clock) (size : option Size) (taskKey : string)
    (scope : Scope) (weekRanges : WeekRanges)
| OpSetState (now : Clock) (size : option Size)
    (exact : option (gmap string (list (list Range))))
    (exceptions : option Exceptions) (order : option Order)
    (lastScope : option (gmap string Scope))
| OpRebuild (now : Clock) (size : option Size)
| OpReplaceCatalog (tasks : list Task)
| OpSetColor (taskKey hex : string)
| OpSetLabel (taskKey name : string).

Definition runOp (e : Engine) (op : Op) : Engine * list HookCall :=
  match op with
  | OpGotoWeek now size delta => Public.gotoWeek now size delta e
  | OpSaveRanges now size taskKey scope weekRanges =>
      Public.saveRanges now size taskKey scope weekRanges e
  | OpSetState now size exact exceptions order lastScope =>
      Public.setState now size exact exceptions order lastScope e
  | OpRebuild now size => rebuild now size e
  | OpReplaceCatalog tasks => (Public.replaceCatalog tasks e, [])
  | OpSetColor taskKey hex => (setColor taskKey hex e, [])
  | OpSetLabel taskKey name => (setLabel taskKey name e, [])
  end.

(** A sequence of calls: the engine afterwards and all hook calls made. *)
Definition runOps (e : Engine) (ops : list Op) : Engine * list HookCall :=
  foldl (λ acc op, let r := runOp acc.1 op in (r.1, acc.2 ++ r.2)) (e, []) ops.

(** The size that the grid has during a call that renders, when it has
    one with no zero side. *)
Definition readySize (size : option Size) : option Size :=
  match size with
  | Some sz => if bool_decide (width sz = 0) || bool_decide (height sz = 0)
               then None else Some sz
  | None => None
  end.

Definition paintedSize (op : Op) : option Size :=
  match op with
  | OpGotoWeek _ size _ | OpSaveRanges _ size _ _ _
  | OpSetState _ size _ _ _ _ | OpRebuild _ size => readySize size
  | _ => None
  end.

(** The cached geometry, if any, is the one computed for its own totals,
    which are not zero; without cached geometry the cached grid is still
    blank; and the cached grid has seven rows of 96 cells. *)
Definition cacheCoherent (e : Engine) : Prop :=
  gridShape (_allSlots e) ∧
  match _geom e with
  | Some g => g = _computeGeometry (totalW g) (totalH g) ∧ totalW g ≠ 0 ∧ totalH g ≠ 0
  | None => _allSlots e = _blankWeekSlots
  end.

(** ** Sample engines

    A three-task catalog, the clock at Saturday 2025-09-06 (day 20337, in
    the week that starts on day 20331), and the engine after [work] was
    saved at recurring scope for Saturday 09:00-10:00 and then at today
    scope for 10:00-11:00. *)
Definition sampleTasks : list Task :=
  [mkTask "work" "Work" "#D33C36" true;
   mkTask "commute" "Commute" "#E86A13" true;
   mkTask "chores" "Chores" "#3B41C5" true].

Definition sampleToday : Z := 20337.

Definition sampleEngine : WeekCore :=
  let st := construct sampleToday sampleTasks in
  let st := saveRanges sampleToday st "work" ScRecurring
              [[]; []; []; []; []; []; [mkRange 540 600]] in
  saveRanges sampleToday st "work" ScToday
    [[]; []; []; []; []; []; [mkRange 600 660]].


(** A two-task catalog, and an [ORDER] as [setState] can bring it in:
    task [a] carries the recurring stamp 2000000000. *)
Definition twoTasks : list Task :=
  [mkTask "a" "A" "#000000" false; mkTask "b" "B" "#ffffff" false].

Definition lateStampOrder : Order := mkOrder {[ "a" := 2000000000 ]} ∅ ∅.

(** ** Statements of the specification that the code does not satisfy

    Each is written as the specification words it; the properties below
    refute it on a concrete input and prove what the code does instead. *)

(** "A task with no stamp at any of those scopes sorts after every
    stamped task", in every engine that was constructed, given a state
    with [setState] and driven by calls. *)
Definition unstampedLastClaim : Prop :=
  ∀ (today0 : Z) (tasks : list Task)
    (exact : option (gmap string (list (list Range))))
    (exceptions : option Exceptions) (order : option Order)
    (lastScope : option (gmap string Scope)) (calls : list Call) (a b : string),
    let st := performAll (setState exact exceptions order lastScope
                            (construct today0 tasks)) calls in
    a ∈ key <$> TASKS st → b ∈ key <$> TASKS st →
    definedSeqs st a ≠ [] → definedSeqs st b = [] →
    processedBefore (orderedTasks st) a b.



(** "If the normalize-and-clip output of a save is persisted and then
    submitted again as input to a second save at the same scope, the
    second save's normalized-and-clipped result is identical to the
    first." *)
Definition clipFixedPointClaim : Prop :=
  ∀ (today : Z) (st : WeekCore) (taskKey : string) (scope : Scope)
    (weekRanges : WeekRanges),
    let res := _normalizeAndClip today st scope taskKey weekRanges in
    let st' := saveRanges today st taskKey scope weekRanges in
    _normalizeAndClip today st' scope taskKey (week res) = res.

(** "A range whose rounded endpoints coincide contributes nothing." *)
Definition coincidingRangeDroppedClaim : Prop :=
  ∀ (d : nat) (acc : WeekRanges * bool) (r : Range),
    _round15 (startMin r) = _round15 (endMin r) → normRange d acc r = acc.

(** * Properties *)

(** ** Rounding and slot conversion *)

Lemma math_round_div15_nearest (m : Z) : math_round_div15 m = (m + 7) `div` 15.
Proof.
  unfold math_round_div15.
  pose proof (Z.div_mod (2 * m + 15) 30 ltac:(lia)).
  pose proof (Z.mod_pos_bound (2 * m + 15) 30 ltac:(lia)).
  pose proof (Z.div_mod (m + 7) 15 ltac:(lia)).
  pose proof (Z.mod_pos_bound (m + 7) 15 ltac:(lia)).
  lia.
Qed.

Lemma math_round_div15_mono (a b : Z) :
  a ≤ b → math_round_div15 a ≤ math_round_div15 b.
Proof. intros. unfold math_round_div15. apply Z.div_le_mono; lia. Qed.

Lemma math_round_div15_mul (k : Z) : math_round_div15 (k * 15) = k.
Proof.
  rewrite math_round_div15_nearest.
  pose proof (Z.div_mod (k * 15 + 7) 15 ltac:(lia)).
  pose proof (Z.mod_pos_bound (k * 15 + 7) 15 ltac:(lia)).
  lia.
Qed.

Lemma round15_multiple (m : Z) : (15 | _round15 m).
Proof. exists (math_round_div15 m). reflexivity. Qed.

Lemma round15_fixed (k : Z) : _round15 (k * 15) = k * 15.
Proof. unfold _round15. by rewrite math_round_div15_mul. Qed.

Lemma round15_mono (a b : Z) : a ≤ b → _round15 a ≤ _round15 b.
Proof. intros H. unfold _round15. pose proof (math_round_div15_mono a b H). lia. Qed.

Lemma minsToSlot_bounds (m : Z) : 0 ≤ _minsToSlot m ≤ SLOTS_PER_DAY.
Proof. unfold _minsToSlot, SLOTS_PER_DAY. lia. Qed.

Lemma minsToSlot_mul (k : Z) :
  0 ≤ k ≤ SLOTS_PER_DAY → _minsToSlot (k * 15) = k.
Proof. unfold _minsToSlot, SLOTS_PER_DAY. rewrite math_round_div15_mul. lia. Qed.

Lemma elem_of_loopSlots (sa sb s : Z) : s ∈ loopSlots sa sb ↔ sa ≤ s < sb.
Proof. unfold loopSlots. rewrite elem_of_seqZ. lia. Qed.

(** ** The grid under [claimSlot] *)

Lemma blank_gridShape : gridShape _blankWeekSlots.
Proof.
  split; [done|]. unfold _blankWeekSlots.
  apply Forall_replicate. by rewrite length_replicate.
Qed.

Lemma cell_claimSlot (cat : string) (slots : WeekSlots) (ds : nat * Z) (d s : nat) :
  cell (claimSlot cat slots ds) d s =
    if bool_decide (d = ds.1 ∧ Z.of_nat s = ds.2 ∧ cell slots d s = Some None)
    then Some (Some cat) else cell slots d s.
Proof.
  destruct ds as [d' z]; simpl. unfold claimSlot, cell, at_index; simpl.
  destruct (slots !! d') as [row|] eqn:Hrow; simpl.
  - case_bool_decide as Hz.
    + destruct (row !! Z.to_nat z) as [[k|]|] eqn:Hc; simpl.
      * case_bool_decide as Hb; [|done].
        destruct Hb as (-> & <- & Hb). rewrite Nat2Z.id in Hc. rewrite Hrow /= Hc in Hb. done.
      * destruct (decide (d = d')) as [->|Hd].
        -- rewrite -> list_lookup_insert_eq by (by eapply lookup_lt_Some). simpl.
           destruct (decide (s = Z.to_nat z)) as [->|Hs].
           ++ rewrite -> list_lookup_insert_eq by (by eapply lookup_lt_Some).
              rewrite bool_decide_true; [|done].
              rewrite Hrow /= Hc. split_and!; [done|lia|done].
           ++ rewrite -> list_lookup_insert_ne by done.
              rewrite bool_decide_false; [|by rewrite Hrow].
              intros (_ & Hs' & _). lia.
        -- rewrite -> list_lookup_insert_ne by done.
           rewrite bool_decide_false; [|done]. intros (? & _); done.
      * case_bool_decide as Hb; [|done].
        destruct Hb as (-> & <- & Hb). rewrite Nat2Z.id in Hc. rewrite Hrow /= Hc in Hb. done.
    + case_bool_decide as Hb; [|done]. destruct Hb as (_ & <- & _). lia.
  - case_bool_decide as Hb; [|done].
    destruct Hb as (-> & _ & Hb). by rewrite Hrow in Hb.
Qed.

Lemma claimSlot_gridShape (cat : string) (slots : WeekSlots) (ds : nat * Z) :
  gridShape slots → gridShape (claimSlot cat slots ds).
Proof.
  intros [Hlen Hrows]. unfold claimSlot.
  destruct (slots !! ds.1) as [row|] eqn:Hrow; [|done].
  destruct (at_index row ds.2) as [[?|]|]; [done| |done].
  split; [by rewrite length_insert|].
  apply Forall_insert; [done|]. rewrite length_insert.
  by eapply (Forall_lookup_1 _ _ _ _ Hrows).
Qed.

(** A claimed cell is never rewritten. *)
Lemma claimSlot_keeps (cat : string) (slots : WeekSlots) (ds : nat * Z)
    (d s : nat) (k : string) :
  cell slots d s = Some (Some k) → cell (claimSlot cat slots ds) d s = Some (Some k).
Proof.
  intros H. rewrite cell_claimSlot. rewrite bool_decide_false; [|done].
  intros (_ & _ & H'). congruence.
Qed.

Lemma applyRanges_as_visits (cat : string) (exact : WeekRanges) (slots : WeekSlots) :
  _applyRangesToSlots cat exact slots = foldl (claimSlot cat) slots (weekVisits exact).
Proof.
  unfold _applyRangesToSlots, weekVisits.
  generalize (seq 0 7). intros ds. revert slots.
  induction ds as [|d ds IH]; intros slots; [done|].
  simpl. rewrite foldl_app. rewrite IH. f_equal.
  generalize (dayOf (Some exact) d). intros rs. clear IH. revert slots.
  induction rs as [|R rs IH]; intros slots; [done|].
  simpl. rewrite foldl_app. by rewrite IH.
Qed.

Lemma foldl_claimSlot_gridShape (cat : string) (vs : list (nat * Z)) (slots : WeekSlots) :
  gridShape slots → gridShape (foldl (claimSlot cat) slots vs).
Proof.
  revert slots. induction vs as [|v vs IH]; intros slots H; [done|].
  simpl. apply IH. by apply claimSlot_gridShape.
Qed.

Lemma foldl_claimSlot_keeps (cat : string) (vs : list (nat * Z)) (slots : WeekSlots)
    (d s : nat) (k : string) :
  cell slots d s = Some (Some k) →
  cell (foldl (claimSlot cat) slots vs) d s = Some (Some k).
Proof.
  revert slots. induction vs as [|v vs IH]; intros slots H; [done|].
  simpl. apply IH. by apply claimSlot_keeps.
Qed.

Lemma applyRanges_gridShape (cat : string) (exact : WeekRanges) (slots : WeekSlots) :
  gridShape slots → gridShape (_applyRangesToSlots cat exact slots).
Proof. rewrite applyRanges_as_visits. apply foldl_claimSlot_gridShape. Qed.

Lemma applyRanges_keeps (cat : string) (exact : WeekRanges) (slots : WeekSlots)
    (d s : nat) (k : string) :
  cell slots d s = Some (Some k) →
  cell (_applyRangesToSlots cat exact slots) d s = Some (Some k).
Proof. rewrite applyRanges_as_visits. apply foldl_claimSlot_keeps. Qed.

Lemma applyTasks_gridShape (st : WeekCore) (ks : list string) (slots : WeekSlots) :
  gridShape slots → gridShape (applyTasks st ks slots).
Proof.
  unfold applyTasks. revert slots.
  induction ks as [|k ks IH]; intros slots H; [done|].
  simpl. apply IH. by apply applyRanges_gridShape.
Qed.

Lemma applyTasks_keeps (st : WeekCore) (ks : list string) (slots : WeekSlots)
    (d s : nat) (k : string) :
  cell slots d s = Some (Some k) → cell (applyTasks st ks slots) d s = Some (Some k).
Proof.
  unfold applyTasks. revert slots.
  induction ks as [|k' ks IH]; intros slots H; [done|].
  simpl. apply IH. by apply applyRanges_keeps.
Qed.

Lemma applyTasks_app (st : WeekCore) (ks1 ks2 : list string) (slots : WeekSlots) :
  applyTasks st (ks1 ++ ks2) slots = applyTasks st ks2 (applyTasks st ks1 slots).
Proof. unfold applyTasks. by rewrite foldl_app. Qed.

Lemma blank_cell (d s : nat) :
  (d < 7)%nat → (s < 96)%nat → cell _blankWeekSlots d s = Some None.
Proof.
  intros Hd Hs. unfold cell, _blankWeekSlots.
  rewrite (lookup_replicate_2 7 _ d Hd). cbn [mbind option_bind].
  apply lookup_replicate_2. unfold SLOTS_PER_DAY. lia.
Qed.

Lemma foldl_claimSlot_cell (cat : string) (vs : list (nat * Z)) (slots : WeekSlots)
    (d s : nat) :
  cell (foldl (claimSlot cat) slots vs) d s =
    if bool_decide (cell slots d s = Some None ∧ (d, Z.of_nat s) ∈ vs)
    then Some (Some cat) else cell slots d s.
Proof.
  revert slots. induction vs as [|v vs IH]; intros slots; simpl.
  - rewrite bool_decide_false; [|done]. intros [_ H]. by apply elem_of_nil in H.
  - rewrite IH cell_claimSlot.
    destruct (decide (d = v.1 ∧ Z.of_nat s = v.2 ∧ cell slots d s = Some None))
      as [(Hd & Hs & Hc)|Hn].
    + rewrite -> (bool_decide_true (d = _ ∧ _)) by done.
      rewrite -> bool_decide_false by (intros [? _]; done).
      rewrite -> bool_decide_true; [done|].
      split; [done|]. destruct v; simpl in *; subst. apply elem_of_cons; by left.
    + rewrite -> (bool_decide_false (d = _ ∧ _)) by done.
      erewrite bool_decide_ext; [done|].
      split; intros [Hc Hin]; (split; [done|]).
      * apply elem_of_cons; by right.
      * apply elem_of_cons in Hin as [<-|Hin]; [|done]. simpl in Hn. naive_solver.
Qed.

Lemma applyTasks_cell (st : WeekCore) (ks : list string) (slots : WeekSlots)
    (d s : nat) :
  cell (applyTasks st ks slots) d s =
    match cell slots d s with
    | Some None => Some (firstClaimant st ks d s)
    | c => c
    end.
Proof.
  unfold applyTasks, firstClaimant. revert slots.
  induction ks as [|k ks IH]; intros slots; simpl.
  - by destruct (cell slots d s) as [[?|]|].
  - rewrite IH applyRanges_as_visits foldl_claimSlot_cell. rewrite filter_cons.
    destruct (cell slots d s) as [[k'|]|] eqn:Hc.
    + rewrite -> bool_decide_false by (by intros [? _]). done.
    + case_decide as Hin.
      * by rewrite -> bool_decide_true by done.
      * by rewrite -> bool_decide_false by (by intros [_ ?]).
    + by rewrite -> bool_decide_false by (by intros [? _]).
Qed.

Lemma elem_of_weekVisits (exact : WeekRanges) (d : nat) (s : Z) :
  (d, s) ∈ weekVisits exact → (d < 7)%nat ∧ 0 ≤ s < SLOTS_PER_DAY.
Proof.
  unfold weekVisits. intros H.
  apply list_elem_of_bind in H as (d0 & H & Hd0).
  apply elem_of_seq in Hd0.
  apply list_elem_of_bind in H as (R & H & _).
  unfold rangeVisits in H.
  pose proof (minsToSlot_bounds (_round15 (startMin R))).
  pose proof (minsToSlot_bounds (_round15 (endMin R))).
  pose proof (minsToSlot_bounds (24 * 60)).
  pose proof (minsToSlot_bounds 0).
  pose proof (Nat.mod_upper_bound (d0 + 1) 7 ltac:(lia)).
  repeat case_bool_decide; [by apply elem_of_nil in H| |].
  - apply list_elem_of_fmap in H as (s' & [= -> ->] & H).
    apply elem_of_loopSlots in H. lia.
  - apply elem_of_app in H as [H|H];
      apply list_elem_of_fmap in H as (s' & [= -> ->] & H);
      apply elem_of_loopSlots in H; lia.
Qed.

(** C10. Minute-to-slot conversion clamps every minute value (negative or
    beyond 1440 included) to [0, 96]; hence every cell that applying a
    week of ranges visits lies inside the 7 x 96 grid, the grid keeps its
    shape, and both grid builders are total functions that return a
    7 x 96 grid whatever the stored range data is. *)
Theorem minsToSlot_clamped_grid_in_bounds :
  (∀ min : Z, 0 ≤ _minsToSlot min ≤ 96) ∧
  (∀ (exact : WeekRanges) (d : nat) (s : Z),
     (d, s) ∈ weekVisits exact → (d < 7)%nat ∧ 0 ≤ s < 96) ∧
  (∀ (cat : string) (exact : WeekRanges) (slots : WeekSlots),
     gridShape slots → gridShape (_applyRangesToSlots cat exact slots)) ∧
  (∀ st : WeekCore, gridShape (_rebuildSlotsForVisibleWeek st)) ∧
  (∀ (st : WeekCore) (k : string), gridShape (_buildOccupancyMap st k)).
Proof.
  split_and!.
  - apply minsToSlot_bounds.
  - apply elem_of_weekVisits.
  - apply applyRanges_gridShape.
  - intros st. unfold _rebuildSlotsForVisibleWeek.
    apply applyTasks_gridShape, blank_gridShape.
  - intros st k. unfold _buildOccupancyMap.
    generalize (orderedTasks st). intros ks.
    generalize blank_gridShape. generalize _blankWeekSlots.
    induction ks as [|k' ks IH]; intros g Hg; [done|].
    simpl. apply IH. case_bool_decide; [done|]. by apply applyRanges_gridShape.
Qed.

Lemma minsToSlot_clamped_grid_in_bounds_witness :
  (0%nat, 95) ∈ weekVisits [[mkRange (-50) 5000]] ∧ ((0 < 7)%nat ∧ 0 ≤ 95 < 96).
Proof.
  assert (H : (0%nat, 95) ∈ weekVisits [[mkRange (-50) 5000]]).
  { apply (bool_decide_unpack _). by vm_compute. }
  split; [exact H|].
  exact (proj1 (proj2 minsToSlot_clamped_grid_in_bounds) _ _ _ H).
Defined.

(** ** The stable sort *)

Section sortByKey.
Context {A : Type} (f : A → Z).

Lemma sortInsert_perm (x : A) (l : list A) : sortInsert f x l ≡ₚ x :: l.
Proof.
  induction l as [|y l IH]; simpl; [done|].
  case_bool_decide; [done|]. rewrite IH. apply Permutation_swap.
Qed.

Lemma sortByKey_perm (l : list A) : sortByKey f l ≡ₚ l.
Proof.
  induction l as [|x l IH]; simpl; [done|].
  rewrite sortInsert_perm. by rewrite IH.
Qed.

Lemma sortInsert_sorted (x : A) (l : list A) :
  StronglySorted (λ a b, f a ≤ f b) l → StronglySorted (λ a b, f a ≤ f b) (sortInsert f x l).
Proof.
  induction 1 as [|y l Hl IH Hy]; simpl.
  - repeat constructor.
  - case_bool_decide as Hxy.
    + constructor; [by constructor|].
      constructor; [done|]. eapply Forall_impl; [exact Hy|].
      simpl. intros z Hz. lia.
    + constructor; [done|].
      rewrite sortInsert_perm. constructor; [|done]. lia.
Qed.

Lemma sortByKey_sorted (l : list A) : StronglySorted (λ a b, f a ≤ f b) (sortByKey f l).
Proof.
  induction l as [|x l IH]; simpl; [constructor|]. by apply sortInsert_sorted.
Qed.

Lemma sortInsert_least (x : A) (l : list A) :
  Forall (λ y, f x ≤ f y) l → sortInsert f x l = x :: l.
Proof.
  destruct 1 as [|y l Hy _]; simpl; [done|]. by rewrite bool_decide_true.
Qed.

(** Sorting a sorted list changes nothing. *)
Lemma sortByKey_id (l : list A) : StronglySorted (λ a b, f a ≤ f b) l → sortByKey f l = l.
Proof.
  induction 1 as [|x l Hl IH Hx]; simpl; [done|].
  rewrite IH. by apply sortInsert_least.
Qed.

Context (P : A → Prop) `{!∀ x, Decision (P x)}.

Lemma filter_sortInsert_out (x : A) (l : list A) :
  ¬ P x → filter P (sortInsert f x l) = filter P l.
Proof.
  intros Hx. induction l as [|y l IH]; simpl.
  - by rewrite filter_cons_False.
  - case_bool_decide.
    + by rewrite (filter_cons_False _ x).
    + rewrite !(filter_cons _ y). by rewrite IH.
Qed.

Lemma filter_sortInsert_in (x : A) (l : list A) :
  StronglySorted (λ a b, f a ≤ f b) l → P x →
  filter P (sortInsert f x l) = sortInsert f x (filter P l).
Proof.
  intros Hl Hx. induction Hl as [|y l Hl IH Hy]; simpl.
  - by rewrite filter_cons_True.
  - case_bool_decide as Hxy.
    + rewrite (filter_cons_True _ x); [done|].
      symmetry. apply sortInsert_least.
      apply Forall_forall. intros z Hz.
      apply list_elem_of_filter in Hz as [_ Hz].
      apply elem_of_cons in Hz as [->|Hz]; [done|].
      rewrite -> Forall_forall in Hy. specialize (Hy z Hz).
      simpl in Hy. lia.
    + rewrite !(filter_cons _ y). case_decide.
      * simpl. rewrite bool_decide_false; [done|]. by rewrite IH.
      * done.
Qed.

(** Filtering commutes with the stable sort. *)
Lemma filter_sortByKey (l : list A) :
  filter P (sortByKey f l) = sortByKey f (filter P l).
Proof.
  induction l as [|x l IH]; simpl; [done|].
  rewrite filter_cons. case_decide.
  - rewrite -> filter_sortInsert_in by (done || apply sortByKey_sorted).
    simpl. by rewrite IH.
  - by rewrite -> filter_sortInsert_out by done.
Qed.

End sortByKey.

Lemma sortByKey_ext {A} (f g : A → Z) (l : list A) :
  Forall (λ x, f x = g x) l → sortByKey f l = sortByKey g l.
Proof.
  induction 1 as [|x l Hx Hl IH]; simpl; [done|].
  rewrite IH.
  assert (Hg : Forall (λ y, f y = g y) (sortByKey g l)).
  { by rewrite sortByKey_perm. }
  clear IH Hl. induction Hg as [|y l' Hy Hl' IH]; simpl; [done|].
  rewrite Hx Hy. case_bool_decide; [done|]. by rewrite IH.
Qed.

Lemma same_key_sorted {A} (f : A → Z) (v : Z) (l : list A) :
  Forall (λ x, f x = v) l → StronglySorted (λ a b, f a ≤ f b) l.
Proof.
  induction 1 as [|x l Hx Hl IH]; constructor; [done|].
  eapply Forall_impl; [exact Hl|]. simpl. intros; lia.
Qed.

(** Stability: elements with the same key keep their original order. *)
Lemma sortByKey_stable {A} (f : A → Z) (v : Z) (l : list A) :
  filter (λ x, f x = v) (sortByKey f l) = filter (λ x, f x = v) l.
Proof.
  rewrite filter_sortByKey. apply sortByKey_id.
  apply (same_key_sorted f v). apply Forall_forall.
  intros x Hx. by apply list_elem_of_filter in Hx as [? _].
Qed.

Lemma head_sortByKey_min (l : list Z) :
  l ≠ [] →
  ∃ m, head (sortByKey id l) = Some m ∧ m ∈ l ∧ Forall (λ v, m ≤ v) l.
Proof.
  intros Hl.
  pose proof (sortByKey_perm id l) as Hp.
  pose proof (sortByKey_sorted id l) as Hs.
  destruct (sortByKey id l) as [|m l'] eqn:E.
  - apply Permutation_nil_l in Hp. done.
  - exists m. split; [done|]. split.
    + rewrite <- Hp. apply elem_of_cons; by left.
    + rewrite <- Hp. apply StronglySorted_inv in Hs as [_ Hs].
      constructor; [done|]. done.
Qed.

(** C1. The rendered grid has 7 x 96 cells, each holding [null] or one
    task key; tasks are applied in ascending effective sequence; a cell
    claimed after any prefix of the ordered task list keeps that key in
    the final grid (first claim wins), and the key in a cell is that of
    the first task, in processing order, whose effective ranges cover the
    slot. *)
Theorem rendered_grid_first_claim_wins (st : WeekCore) :
  gridShape (_rebuildSlotsForVisibleWeek st) ∧
  StronglySorted (λ a b, seqForTask st a ≤ seqForTask st b) (orderedTasks st) ∧
  (∀ d s : nat, (d < 7)%nat → (s < 96)%nat →
     cell (_rebuildSlotsForVisibleWeek st) d s
       = Some (firstClaimant st (orderedTasks st) d s)) ∧
  (∀ (earlier later : list string) (d s : nat) (k : string),
     orderedTasks st = earlier ++ later →
     cell (applyTasks st earlier _blankWeekSlots) d s = Some (Some k) →
     cell (_rebuildSlotsForVisibleWeek st) d s = Some (Some k)).
Proof.
  split_and!.
  - unfold _rebuildSlotsForVisibleWeek.
    apply applyTasks_gridShape, blank_gridShape.
  - apply sortByKey_sorted.
  - intros d s Hd Hs. unfold _rebuildSlotsForVisibleWeek.
    rewrite applyTasks_cell. by rewrite -> blank_cell by done.
  - intros earlier later d s k Heq H. unfold _rebuildSlotsForVisibleWeek.
    rewrite Heq applyTasks_app. by apply applyTasks_keeps.
Qed.

Lemma rendered_grid_first_claim_wins_witness :
  let st := saveRanges sampleToday sampleEngine "commute" ScRecurring
              [[]; []; []; []; []; []; [mkRange 570 690]] in
  orderedTasks st = ["work"] ++ ["commute"; "chores"] ∧
  cell (applyTasks st ["work"] _blankWeekSlots) 6 40 = Some (Some "work") ∧
  cell (_rebuildSlotsForVisibleWeek st) 6 40 = Some (Some "work").
Proof.
  intros st.
  assert (H1 : orderedTasks st = ["work"] ++ ["commute"; "chores"]) by (by vm_compute).
  assert (H2 : cell (applyTasks st ["work"] _blankWeekSlots) 6 40 = Some (Some "work"))
    by (by vm_compute).
  split; [exact H1|]. split; [exact H2|].
  exact (proj2 (proj2 (proj2 (rendered_grid_first_claim_wins st))) _ _ _ _ _ H1 H2).
Defined.

Lemma sorted_lt_processedBefore (f : string → Z) (l : list string) (a b : string) :
  StronglySorted (λ x y, f x ≤ f y) l → a ∈ l → b ∈ l → f a < f b →
  processedBefore l a b.
Proof.
  intros Hs Ha Hb Hlt.
  apply list_elem_of_split in Hb as (l1 & l3 & ->).
  apply elem_of_app in Ha as [Ha|Ha].
  - apply list_elem_of_split in Ha as (l1' & l2 & ->).
    exists l1', l2, l3. by rewrite <- app_assoc.
  - apply StronglySorted_app_1_r in Hs.
    apply StronglySorted_inv in Hs as [_ Hs].
    apply elem_of_cons in Ha as [->|Ha]; [lia|].
    rewrite -> Forall_forall in Hs. specialize (Hs a Ha). simpl in Hs. lia.
Qed.

Lemma elem_of_definedSeqs (st : WeekCore) (k : string) (v : Z) :
  v ∈ definedSeqs st k ↔
    lookup2 (ord_week (ORDER st)) (_fmtWeekKey (visibleWeekFirst st)) k = Some v ∨
    lookup2 (ord_month (ORDER st)) (_fmtMonthKey (visibleWeekFirst st)) k = Some v ∨
    ord_recurring (ORDER st) !! k = Some v.
Proof.
  unfold definedSeqs. rewrite list_elem_of_omap. split.
  - intros (o & Ho & Hv). simpl in Hv. subst o.
    rewrite !elem_of_cons in Ho. rewrite elem_of_nil in Ho.
    destruct Ho as [Ho|[Ho|[Ho|[]]]]; symmetry in Ho; tauto.
  - intros H. exists (Some v). split; [|done].
    rewrite !elem_of_cons. destruct H as [H|[H|H]]; rewrite H; tauto.
Qed.

(** C3 (amended). The effective sequence of a task is the minimum of its
    defined stamps among the visible week's week key, its month key and
    the recurring scope, and 1e9 when it has none; the processing order
    is the catalog's keys sorted ascending by effective sequence, tasks
    with equal effective sequence staying in catalog order; hence a task
    without stamp is processed after every task whose effective sequence
    is below 1e9. *)
Theorem task_order_by_min_stamp (st : WeekCore) :
  (∀ k v, v ∈ definedSeqs st k ↔
     lookup2 (ord_week (ORDER st)) (_fmtWeekKey (visibleWeekFirst st)) k = Some v ∨
     lookup2 (ord_month (ORDER st)) (_fmtMonthKey (visibleWeekFirst st)) k = Some v ∨
     ord_recurring (ORDER st) !! k = Some v) ∧
  (∀ k, definedSeqs st k ≠ [] →
     seqForTask st k ∈ definedSeqs st k ∧
     Forall (λ v, seqForTask st k ≤ v) (definedSeqs st k)) ∧
  (∀ k, definedSeqs st k = [] → seqForTask st k = 1000000000) ∧
  orderedTasks st ≡ₚ key <$> TASKS st ∧
  StronglySorted (λ a b, seqForTask st a ≤ seqForTask st b) (orderedTasks st) ∧
  (∀ v, filter (λ k, seqForTask st k = v) (orderedTasks st)
        = filter (λ k, seqForTask st k = v) (key <$> TASKS st)) ∧
  (∀ a b, a ∈ key <$> TASKS st → b ∈ key <$> TASKS st →
     seqForTask st a < 1000000000 → definedSeqs st b = [] →
     processedBefore (orderedTasks st) a b).
Proof.
  assert (Hnone : ∀ k, definedSeqs st k = [] → seqForTask st k = 1000000000).
  { intros k Hk. unfold seqForTask. by rewrite Hk. }
  split_and!.
  - apply elem_of_definedSeqs.
  - intros k Hk. unfold seqForTask.
    destruct (head_sortByKey_min _ Hk) as (m & -> & Hin & Hmin). done.
  - done.
  - apply sortByKey_perm.
  - apply sortByKey_sorted.
  - intros v. apply sortByKey_stable.
  - intros a b Ha Hb Hlt Hnb.
    apply (sorted_lt_processedBefore (seqForTask st)).
    + apply sortByKey_sorted.
    + unfold orderedTasks. by rewrite sortByKey_perm.
    + unfold orderedTasks. by rewrite sortByKey_perm.
    + rewrite (Hnone b Hnb). done.
Qed.

Lemma task_order_by_min_stamp_witness :
  let st := mkWeekCore [mkTask "b" "B" "#fff" false; mkTask "a" "A" "#000" false]
              ∅ (mkExceptions ∅ ∅ ∅) ∅ (mkOrder {[ "a" := 7 ]} ∅ ∅) 8 0 0 in
  processedBefore (orderedTasks st) "a" "b".
Proof.
  intros st.
  apply (proj2 (proj2 (proj2 (proj2 (proj2 (proj2 (task_order_by_min_stamp st))))))).
  - apply (bool_decide_unpack _). by vm_compute.
  - apply (bool_decide_unpack _). by vm_compute.
  - by vm_compute.
  - by vm_compute.
Defined.

(** ** Geometry *)

Lemma sumZ_app (l1 l2 : list Z) : sumZ (l1 ++ l2) = sumZ l1 + sumZ l2.
Proof. induction l1 as [|x l1 IH]; simpl; [done|]. rewrite IH. lia. Qed.

Lemma spreadLoop_S (base extra : Z) (n : nat) :
  spreadLoop base extra (S n) = spreadStep base extra (spreadLoop base extra n) n.
Proof. unfold spreadLoop. by rewrite seq_S foldl_app. Qed.

Lemma spreadOffset_S (base extra : Z) (c : nat) :
  spreadOffset base extra (S c) = spreadOffset base extra c + spreadWidth base extra c.
Proof. unfold spreadOffset, spreadWidth. case_bool_decide; lia. Qed.

Lemma spreadLoop_spec (base extra : Z) (n : nat) :
  (spreadLoop base extra n).1 = spreadWidth base extra <$> seq 0 n ∧
  length (spreadLoop base extra n).2 = S n ∧
  ∀ c, (c ≤ n)%nat →
    (spreadLoop base extra n).2 !! c = Some (spreadOffset base extra c).
Proof.
  induction n as [|n (IH1 & IH2 & IH3)].
  - split_and!; [done..|]. intros c Hc. assert (c = 0%nat) as -> by lia.
    unfold spreadOffset. simpl. f_equal. lia.
  - rewrite spreadLoop_S. unfold spreadStep. cbn [fst snd]. split_and!.
    + by rewrite IH1 seq_S fmap_app.
    + rewrite length_app IH2 /=. lia.
    + intros c Hc. destruct (decide (c ≤ n)%nat) as [Hle|Hgt].
      * rewrite -> lookup_app_l by lia. by apply IH3.
      * assert (c = S n) as -> by lia.
        rewrite -> lookup_app_r by lia. rewrite IH2 Nat.sub_diag /=.
        rewrite -> (IH3 n) by lia. simpl. f_equal.
        by rewrite spreadOffset_S.
Qed.

Lemma sumZ_spreadWidth (base extra : Z) (n : nat) :
  sumZ (spreadWidth base extra <$> seq 0 n) = spreadOffset base extra n.
Proof.
  induction n as [|n IH].
  - unfold spreadOffset. simpl. lia.
  - rewrite seq_S fmap_app sumZ_app IH spreadOffset_S. simpl. lia.
Qed.

Lemma spreadOffset_total (total : Z) (n : nat) :
  (0 < n)%nat →
  spreadOffset (total `div` Z.of_nat n)
               (total - total `div` Z.of_nat n * Z.of_nat n) n = total.
Proof.
  intros Hn. unfold spreadOffset.
  pose proof (Z.div_mod total (Z.of_nat n) ltac:(lia)).
  pose proof (Z.mod_pos_bound total (Z.of_nat n) ltac:(lia)). lia.
Qed.

(** The quarter heights of an hour of height [h]: quarter [q] is one pixel
    taller exactly when it is among the [h mod 4] quarters that follow,
    cyclically, quarter [hr mod 4]. *)
Lemma quarterParts_spec (h : Z) (hr : nat) :
  quarterParts h hr =
    (λ q, if bool_decide ((q - Z.of_nat hr `mod` 4) `mod` 4 < h `mod` 4)
          then h `div` 4 + 1 else h `div` 4) <$> [0; 1; 2; 3].
Proof.
  unfold quarterParts.
  assert (He : h - h `div` 4 * 4 = h `mod` 4).
  { pose proof (Z.div_mod h 4 ltac:(lia)). lia. }
  rewrite He.
  pose proof (Z.mod_pos_bound h 4 ltac:(lia)) as Hh.
  pose proof (Z.mod_pos_bound (Z.of_nat hr) 4 ltac:(lia)) as Hs.
  generalize dependent (h `mod` 4). intros extra _ Hextra.
  generalize dependent (Z.of_nat hr `mod` 4). intros start Hstart.
  generalize (h `div` 4). intros base.
  assert (extra = 0 ∨ extra = 1 ∨ extra = 2 ∨ extra = 3) as Hex by lia.
  assert (start = 0 ∨ start = 1 ∨ start = 2 ∨ start = 3) as Hst by lia.
  destruct Hex as [-> | [-> | [-> | -> ]]]; destruct Hst as [-> | [-> | [-> | -> ]]];
    reflexivity.
Qed.

Lemma quarterParts_sum (h : Z) (hr : nat) : sumZ (quarterParts h hr) = h.
Proof.
  rewrite quarterParts_spec.
  pose proof (Z.div_mod h 4 ltac:(lia)) as Hd.
  pose proof (Z.mod_pos_bound h 4 ltac:(lia)) as Hh.
  pose proof (Z.mod_pos_bound (Z.of_nat hr) 4 ltac:(lia)) as Hs.
  generalize dependent (h `mod` 4). intros extra Hd Hextra.
  generalize dependent (Z.of_nat hr `mod` 4). intros start Hstart.
  assert (extra = 0 ∨ extra = 1 ∨ extra = 2 ∨ extra = 3) as Hex by lia.
  assert (start = 0 ∨ start = 1 ∨ start = 2 ∨ start = 3) as Hst by lia.
  destruct Hex as [-> | [-> | [-> | -> ]]]; destruct Hst as [-> | [-> | [-> | -> ]]];
    simpl; repeat case_bool_decide; lia.
Qed.

Lemma quarterParts_length (h : Z) (hr : nat) : length (quarterParts h hr) = 4%nat.
Proof. by rewrite quarterParts_spec. Qed.

Lemma slotYLoop_S (heights : list (list Z)) (n : nat) :
  slotYLoop heights (S n) =
    foldl (λ ys q, pushCumulative ys (default 0 (heights !! n ≫= (.!! q))))
          (slotYLoop heights n) (seq 0 4).
Proof. unfold slotYLoop. rewrite (seq_S n 0) foldl_app. reflexivity. Qed.

Lemma pushCumulative_four (heights : list (list Z)) (hr : nat) (ys : list Z)
    (p0 p1 p2 p3 : Z) :
  heights !! hr = Some [p0; p1; p2; p3] →
  foldl (λ ys q, pushCumulative ys (default 0 (heights !! hr ≫= (.!! q))))
        ys (seq 0 4)
  = ys ++ [default 0 (last ys) + p0;
           default 0 (last ys) + p0 + p1;
           default 0 (last ys) + p0 + p1 + p2;
           default 0 (last ys) + p0 + p1 + p2 + p3].
Proof.
  intros ->. simpl. unfold pushCumulative.
  rewrite !last_snoc. simpl. rewrite <- !app_assoc. done.
Qed.

Lemma slotHeightsPerHour_lookup (rowH : list Z) (hr : nat) :
  (hr < 24)%nat →
  slotHeightsPerHour rowH !! hr = Some (quarterParts (default 0 (rowH !! hr)) hr).
Proof.
  intros Hhr. unfold slotHeightsPerHour.
  rewrite list_lookup_fmap. rewrite -> lookup_seq_lt by done. done.
Qed.

Section slotY.
Context (base extra : Z).

Lemma rowH_lookup (hr : nat) :
  (hr < 24)%nat → (spreadLoop base extra 24).1 !! hr = Some (spreadWidth base extra hr).
Proof.
  intros Hhr.
  destruct (spreadLoop_spec base extra 24) as (-> & _ & _).
  rewrite list_lookup_fmap. by rewrite -> lookup_seq_lt by done.
Qed.

Lemma slotYLoop_step (n : nat) :
  (n < 24)%nat →
  ∃ p0 p1 p2 p3,
    quarterParts (spreadWidth base extra n) n = [p0; p1; p2; p3] ∧
    p0 + p1 + p2 + p3 = spreadWidth base extra n ∧
    slotYLoop (hourHeights base extra) (S n) =
      slotYLoop (hourHeights base extra) n ++
        [default 0 (last (slotYLoop (hourHeights base extra) n)) + p0;
         default 0 (last (slotYLoop (hourHeights base extra) n)) + p0 + p1;
         default 0 (last (slotYLoop (hourHeights base extra) n)) + p0 + p1 + p2;
         default 0 (last (slotYLoop (hourHeights base extra) n)) + p0 + p1 + p2 + p3].
Proof.
  intros Hn.
  pose proof (quarterParts_length (spreadWidth base extra n) n) as Hlen.
  pose proof (quarterParts_sum (spreadWidth base extra n) n) as Hsum.
  destruct (quarterParts (spreadWidth base extra n) n)
    as [|p0 [|p1 [|p2 [|p3 [|? ?]]]]] eqn:E; simplify_eq/=.
  exists p0, p1, p2, p3. split; [done|]. split; [lia|].
  rewrite slotYLoop_S. apply pushCumulative_four.
  unfold hourHeights. rewrite -> slotHeightsPerHour_lookup by done.
  rewrite -> rowH_lookup by done. simpl. by rewrite E.
Qed.

Lemma slotYLoop_inv (n : nat) :
  (n ≤ 24)%nat →
  length (slotYLoop (hourHeights base extra) n) = S (4 * n) ∧
  slotYLoop (hourHeights base extra) n !! (4 * n)%nat = Some (spreadOffset base extra n) ∧
  slotYLoop (hourHeights base extra) n !! 0%nat = Some 0 ∧
  ∀ hr q y p, (hr < n)%nat →
    slotYLoop (hourHeights base extra) n !! (4 * hr + q)%nat = Some y →
    quarterParts (spreadWidth base extra hr) hr !! q = Some p →
    slotYLoop (hourHeights base extra) n !! S (4 * hr + q) = Some (y + p).
Proof.
  induction n as [|n IH]; intros Hn.
  - split_and!; [done| |done|intros; lia].
    simpl. unfold spreadOffset. f_equal. lia.
  - destruct IH as (IHlen & IHlast & IH0 & IHstep); [lia|].
    destruct (slotYLoop_step n) as (p0 & p1 & p2 & p3 & Eparts & Hsum & ->); [lia|].
    assert (Hl : default 0 (last (slotYLoop (hourHeights base extra) n)) = spreadOffset base extra n).
    { rewrite last_lookup IHlen /= IHlast. done. }
    rewrite Hl.
    set (L := slotYLoop (hourHeights base extra) n) in *.
    set (o := spreadOffset base extra n) in *.
    assert (Hnew : ∀ j x,
      [o + p0; o + p0 + p1; o + p0 + p1 + p2; o + p0 + p1 + p2 + p3] !! j = Some x →
      (L ++ [o + p0; o + p0 + p1; o + p0 + p1 + p2; o + p0 + p1 + p2 + p3])
        !! (S (4 * n) + j)%nat = Some x).
    { intros j x Hj. rewrite -> lookup_app_r by lia.
      replace (S (4 * n) + j - length L)%nat with j by lia. done. }
    split_and!.
    + rewrite length_app IHlen /=. lia.
    + replace (4 * S n)%nat with (S (4 * n) + 3)%nat by lia.
      apply Hnew. simpl. f_equal. rewrite spreadOffset_S. unfold o. lia.
    + rewrite -> lookup_app_l by lia. done.
    + intros hr q y p Hhr Hy Hp.
      assert (q < 4)%nat as Hq.
      { apply lookup_lt_Some in Hp. by rewrite quarterParts_length in Hp. }
      destruct (decide (hr < n)%nat) as [Hlt|Hge].
      * rewrite -> lookup_app_l in Hy by lia.
        rewrite -> lookup_app_l by lia. by eapply IHstep.
      * assert (hr = n) as -> by lia. rewrite Eparts in Hp.
        destruct q as [|[|[|[|q]]]]; [| | | |lia];
          simpl in Hp; injection Hp as <-.
        -- rewrite -> lookup_app_l in Hy by lia.
           rewrite Nat.add_0_r IHlast in Hy. injection Hy as <-.
           replace (S (4 * n + 0)) with (S (4 * n) + 0)%nat by lia.
           by apply Hnew.
        -- replace (4 * n + 1)%nat with (S (4 * n) + 0)%nat in Hy by lia.
           rewrite -> (Hnew 0%nat (o + p0)) in Hy by done. injection Hy as <-.
           replace (S (4 * n + 1)) with (S (4 * n) + 1)%nat by lia.
           by apply Hnew.
        -- replace (4 * n + 2)%nat with (S (4 * n) + 1)%nat in Hy by lia.
           rewrite -> (Hnew 1%nat (o + p0 + p1)) in Hy by done. injection Hy as <-.
           replace (S (4 * n + 2)) with (S (4 * n) + 2)%nat by lia.
           by apply Hnew.
        -- replace (4 * n + 3)%nat with (S (4 * n) + 2)%nat in Hy by lia.
           rewrite -> (Hnew 2%nat (o + p0 + p1 + p2)) in Hy by done.
           injection Hy as <-.
           replace (S (4 * n + 3)) with (S (4 * n) + 3)%nat by lia.
           by apply Hnew.
Qed.

(** An offset reached after [m] hours stays where it is. *)
Lemma slotYLoop_prefix (m n : nat) :
  (m ≤ n)%nat → (n ≤ 24)%nat → slotYLoop (hourHeights base extra) m `prefix_of` slotYLoop (hourHeights base extra) n.
Proof.
  induction n as [|n IH]; intros Hm Hn.
  - by assert (m = 0%nat) as -> by lia.
  - destruct (decide (m = S n)) as [->|Hne]; [done|].
    etrans; [apply IH; lia|].
    destruct (slotYLoop_step n) as (? & ? & ? & ? & _ & _ & ->); [lia|].
    by apply prefix_app_r.
Qed.

End slotY.

Lemma spreadLoop_facts (total : Z) (n : nat) :
  (0 < n)%nat →
  let sl := spreadLoop (total `div` Z.of_nat n)
                       (total - total `div` Z.of_nat n * Z.of_nat n) n in
  (length sl.1 = n ∧ sumZ sl.1 = total ∧
   ∀ c, (c < n)%nat →
     sl.1 !! c = Some (total `div` Z.of_nat n +
                       (if bool_decide (Z.of_nat c < total `mod` Z.of_nat n)
                        then 1 else 0))) ∧
  (length sl.2 = S n ∧ sl.2 !! 0%nat = Some 0 ∧ sl.2 !! n = Some total ∧
   ∀ c x w, sl.2 !! c = Some x → sl.1 !! c = Some w → sl.2 !! S c = Some (x + w)).
Proof.
  intros Hn sl. subst sl.
  assert (He : total - total `div` Z.of_nat n * Z.of_nat n = total `mod` Z.of_nat n).
  { pose proof (Z.div_mod total (Z.of_nat n) ltac:(lia)). lia. }
  destruct (spreadLoop_spec (total `div` Z.of_nat n)
              (total - total `div` Z.of_nat n * Z.of_nat n) n) as (H1 & H2 & H3).
  rewrite H1. split; split_and!.
  - by rewrite length_fmap length_seq.
  - rewrite sumZ_spreadWidth. by apply spreadOffset_total.
  - intros c Hc. rewrite list_lookup_fmap. rewrite -> lookup_seq_lt by done.
    simpl. unfold spreadWidth. by rewrite He.
  - done.
  - rewrite -> H3 by lia. unfold spreadOffset. f_equal. lia.
  - rewrite -> H3 by lia. f_equal. by apply spreadOffset_total.
  - intros c x w Hx Hw.
    rewrite list_lookup_fmap in Hw.
    destruct (seq 0 n !! c) as [c'|] eqn:Hc; [|done].
    apply lookup_seq in Hc as [-> Hc]. simpl in Hw. injection Hw as <-.
    rewrite -> H3 in Hx by lia. injection Hx as <-.
    rewrite -> H3 by lia. by rewrite spreadOffset_S.
Qed.

(** C9. For positive [W] and [H], [_computeGeometry] gives 7 column widths
    that sum to [W], the first [W mod 7] of them one pixel wider than
    [floor (W/7)]; 24 row heights that sum to [H], the first [H mod 24]
    one pixel taller; for every hour four quarter heights that sum to the
    hour's height, the extra pixels going to the quarters that follow
    quarter [hour mod 4] cyclically; and offset arrays [colX], [rowY],
    [slotY] that start at 0 and advance by exactly these sizes, [slotY]
    meeting [rowY] at every hour boundary. *)
Theorem geometry_remainder_distribution (W H : Z) :
  0 < W → 0 < H →
  let g := _computeGeometry W H in
  (length (colW g) = 7%nat ∧ sumZ (colW g) = W ∧
   ∀ c, (c < 7)%nat →
     colW g !! c = Some (W `div` 7 +
                         (if bool_decide (Z.of_nat c < W `mod` 7) then 1 else 0))) ∧
  (length (rowH g) = 24%nat ∧ sumZ (rowH g) = H ∧
   ∀ r, (r < 24)%nat →
     rowH g !! r = Some (H `div` 24 +
                         (if bool_decide (Z.of_nat r < H `mod` 24) then 1 else 0))) ∧
  (∀ hr h, rowH g !! hr = Some h →
     length (quarterParts h hr) = 4%nat ∧ sumZ (quarterParts h hr) = h ∧
     ∀ q, (q < 4)%nat →
       quarterParts h hr !! q =
         Some (if bool_decide ((Z.of_nat q - Z.of_nat hr `mod` 4) `mod` 4 < h `mod` 4)
               then h `div` 4 + 1 else h `div` 4)) ∧
  (length (colX g) = 8%nat ∧ colX g !! 0%nat = Some 0 ∧ colX g !! 7%nat = Some W ∧
   ∀ c x w, colX g !! c = Some x → colW g !! c = Some w →
            colX g !! S c = Some (x + w)) ∧
  (length (rowY g) = 25%nat ∧ rowY g !! 0%nat = Some 0 ∧ rowY g !! 24%nat = Some H ∧
   ∀ r y h, rowY g !! r = Some y → rowH g !! r = Some h →
            rowY g !! S r = Some (y + h)) ∧
  (length (slotY g) = 97%nat ∧ slotY g !! 0%nat = Some 0 ∧
   (∀ hr, (hr ≤ 24)%nat → slotY g !! (4 * hr)%nat = rowY g !! hr) ∧
   ∀ hr q h y p, rowH g !! hr = Some h → quarterParts h hr !! q = Some p →
     slotY g !! (4 * hr + q)%nat = Some y →
     slotY g !! S (4 * hr + q) = Some (y + p)).
Proof.
  intros _ _ g.
  destruct (spreadLoop_facts W 7 ltac:(lia)) as [HcW HcX].
  destruct (spreadLoop_facts H 24 ltac:(lia)) as [HrH HrY].
  change (Z.of_nat 7) with 7 in *. change (Z.of_nat 24) with 24 in *.
  cbv zeta in HcW, HcX, HrH, HrY.
  split; [exact HcW|]. split; [exact HrH|]. split.
  { intros hr h _. split; [apply quarterParts_length|].
    split; [apply quarterParts_sum|].
    intros q Hq. rewrite quarterParts_spec.
    destruct q as [|[|[|[|q]]]]; [done..|lia]. }
  split; [exact HcX|]. split; [exact HrY|].
  set (base := H `div` 24) in *. set (extra := H - base * 24) in *.
  assert (HrowH : ∀ hr h, rowH g !! hr = Some h → (hr < 24)%nat ∧ h = spreadWidth base extra hr).
  { intros hr h Hh. assert (hr < 24)%nat as Hhr.
    { apply lookup_lt_Some in Hh. destruct HrH as [Hl _].
      change (rowH g) with (spreadLoop base extra 24).1 in Hh. lia. }
    split; [done|].
    change (rowH g) with (spreadLoop base extra 24).1 in Hh.
    rewrite -> rowH_lookup in Hh by done. by injection Hh. }
  change (slotY g) with (slotYLoop (hourHeights base extra) 24).
  destruct (slotYLoop_inv base extra 24 ltac:(lia)) as (Hlen & _ & H0 & Hstep).
  split_and!; [done|done| |].
  - intros hr Hhr.
    destruct (slotYLoop_inv base extra hr Hhr) as (Hlen' & Hlast & _ & _).
    destruct (slotYLoop_prefix base extra hr 24 Hhr ltac:(lia)) as [tl ->].
    rewrite -> lookup_app_l by lia. rewrite Hlast.
    change (rowY g) with (spreadLoop base extra 24).2.
    destruct (spreadLoop_spec base extra 24) as (_ & _ & H3).
    by rewrite -> H3 by done.
  - intros hr q h y p Hh Hp Hy.
    apply HrowH in Hh as [Hhr ->]. by eapply Hstep.
Qed.

Lemma geometry_remainder_distribution_witness :
  sumZ (colW (_computeGeometry 100 48)) = 100 ∧
  sumZ (rowH (_computeGeometry 100 48)) = 48.
Proof.
  pose proof (geometry_remainder_distribution 100 48 ltac:(lia) ltac:(lia)) as H.
  cbv zeta in H.
  exact (conj (proj1 (proj2 (proj1 H))) (proj1 (proj2 (proj1 (proj2 H))))).
Defined.

(** ** Effective ranges *)

Lemma copyRanges_id (l : list Range) :
  (λ r, mkRange (startMin r) (endMin r)) <$> l = l.
Proof. induction l as [|[s e] l IH]; [done|]. by rewrite fmap_cons IH. Qed.

Lemma deepCopyWeek_length (w : option WeekRanges) : length (_deepCopyWeek w) = 7%nat.
Proof. done. Qed.

Lemma deepCopyWeek_lookup (w : option WeekRanges) (d : nat) :
  (d < 7)%nat → _deepCopyWeek w !! d = Some (dayOf w d).
Proof.
  intros Hd. unfold _deepCopyWeek. rewrite list_lookup_fmap.
  rewrite -> lookup_seq_lt by done. simpl. by rewrite copyRanges_id.
Qed.

Lemma dayOf_deepCopyWeek (w : option WeekRanges) (d : nat) :
  (d < 7)%nat → dayOf (Some (_deepCopyWeek w)) d = dayOf w d.
Proof. intros Hd. unfold dayOf at 1. simpl. by rewrite deepCopyWeek_lookup. Qed.

(** A loop that overwrites entry [d] for the days [d] that have an
    override. *)
Lemma foldl_override_lookup {A B} (g : nat → option B) (h : B → A)
    (ds : list nat) (eff : list A) (d : nat) :
  NoDup ds →
  foldl (λ eff d, match g d with Some v => <[d := h v]> eff | None => eff end) eff ds
    !! d
  = match g d with
    | Some v => if bool_decide (d ∈ ds ∧ (d < length eff)%nat) then Some (h v)
                else eff !! d
    | None => eff !! d
    end.
Proof.
  intros Hnd. revert eff. induction Hnd as [|d' ds Hd' Hnd IH]; intros eff; simpl.
  - destruct (g d); [|done].
    first [done | case_bool_decide as Hb; [|done]; destruct Hb as [Hb _];
                  by apply elem_of_nil in Hb].
  - rewrite IH. destruct (g d) as [v|] eqn:Hg.
    + destruct (decide (d = d')) as [->|Hne].
      * rewrite Hg. rewrite length_insert.
        rewrite -> (bool_decide_false (d' ∈ ds ∧ _)) by (by intros [? _]).
        case_bool_decide as Hb.
        -- by rewrite -> list_lookup_insert_eq by (by destruct Hb).
        -- rewrite -> list_insert_ge; [done|].
           destruct (decide (d' < length eff)%nat); [|lia].
           exfalso. apply Hb. split; [|done]. apply elem_of_cons; by left.
      * assert (Hiff : ∀ n : nat, d ∈ ds ∧ (d < n)%nat ↔ d ∈ d' :: ds ∧ (d < n)%nat).
        { intros n. rewrite elem_of_cons. tauto. }
        destruct (g d') as [v'|].
        -- rewrite length_insert. rewrite -> list_lookup_insert_ne by done.
           by erewrite bool_decide_ext.
        -- by erewrite bool_decide_ext.
    + destruct (g d') as [v'|] eqn:Hg'; [|done].
      rewrite -> list_lookup_insert_ne; [done|]. intros ->. congruence.
Qed.

Lemma effective_length (st : WeekCore) (taskKey : string) :
  length (_effectiveExactForTask st taskKey) = 7%nat.
Proof.
  unfold _effectiveExactForTask.
  set (eff0 := match lookup2 (byWeek _) _ _ with Some _ => _ | None => _ end).
  assert (H0 : length eff0 = 7%nat).
  { subst eff0. repeat case_match; apply deepCopyWeek_length. }
  revert H0. generalize eff0. generalize (seq 0 7).
  intros ds. induction ds as [|d ds IH]; intros eff Heff; simpl; [done|].
  apply IH. case_match; [|done]. by rewrite length_insert.
Qed.

Lemma effective_lookup (st : WeekCore) (taskKey : string) (d : nat) :
  (d < 7)%nat →
  _effectiveExactForTask st taskKey !! d =
    Some (match lookup2 (byDate (EXCEPTIONS st))
                  (_fmtDate (_addDays (visibleWeekFirst st) (Z.of_nat d))) taskKey with
          | Some dayOverride => dayOverride
          | None => dayOf (scopedWeek st taskKey) d
          end).
Proof.
  intros Hd. unfold _effectiveExactForTask.
  set (eff0 := match lookup2 (byWeek _) _ _ with Some _ => _ | None => _ end).
  assert (H0 : eff0 = _deepCopyWeek (scopedWeek st taskKey)).
  { subst eff0. unfold scopedWeek. by repeat case_match. }
  rewrite -> (foldl_override_lookup
             (λ d, lookup2 (byDate (EXCEPTIONS st))
                     (_fmtDate (_addDays (visibleWeekFirst st) (Z.of_nat d))) taskKey)
             (λ dayOverride, (λ r, mkRange (startMin r) (endMin r)) <$> dayOverride))
    by apply NoDup_seq.
  rewrite H0 deepCopyWeek_length. case_match.
  - rewrite -> bool_decide_true; [by rewrite copyRanges_id|].
    split; [|done]. apply elem_of_seq. lia.
  - by apply deepCopyWeek_lookup.
Qed.

(** *** The resolver on the heap *)

Lemma allocWeek_fresh (w : WeekRanges) (h : heap) : h !! (allocWeek w h).1 = None.
Proof. simpl. apply not_elem_of_dom. apply is_fresh. Qed.

Lemma allocWeek_lookup (w : WeekRanges) (h : heap) :
  (allocWeek w h).2 !! (allocWeek w h).1 = Some w.
Proof. simpl. apply lookup_insert_eq. Qed.

Lemma allocWeek_frame (w : WeekRanges) (h : heap) (l : loc) :
  is_Some (h !! l) → (allocWeek w h).2 !! l = h !! l.
Proof.
  intros Hl. simpl. apply lookup_insert_ne. intros <-.
  pose proof (allocWeek_fresh w h) as Hf. simpl in Hf. rewrite Hf in Hl.
  by destruct Hl.
Qed.

Lemma fold_writeDay {B} (g : nat → option B) (c : B → DayRanges) (eff : loc)
    (ds : list nat) (h : heap) (w : WeekRanges) :
  h !! eff = Some w →
  let h' := foldl (λ h d, match g d with
                          | Some v => writeDay eff d (c v) h | None => h end) h ds in
  h' !! eff = Some (foldl (λ eff d, match g d with
                                    | Some v => <[d := c v]> eff | None => eff end)
                          w ds) ∧
  ∀ l, l ≠ eff → h' !! l = h !! l.
Proof.
  revert h w. induction ds as [|d ds IH]; intros h w Hw; simpl; [done|].
  destruct (g d) as [v|]; [|by apply IH].
  destruct (IH (writeDay eff d (c v) h) (<[d := c v]> w)) as [IH1 IH2].
  { unfold writeDay. by rewrite lookup_alter_eq Hw. }
  split; [done|]. intros l Hl. rewrite -> IH2 by done.
  unfold writeDay. by rewrite -> lookup_alter_ne by done.
Qed.

Lemma deepCopy_ref_inv (h h1 : heap) (src : loc) (wsrc : WeekRanges) :
  (∀ l, is_Some (h !! l) → h1 !! l = h !! l) →
  h !! src = Some wsrc →
  let r := _deepCopyWeek_ref (Some src) h1 in
  h !! r.1 = None ∧ r.2 !! r.1 = Some (_deepCopyWeek (Some wsrc)) ∧
  ∀ l, is_Some (h !! l) → r.2 !! l = h !! l.
Proof.
  intros Hfr Hsrc r. subst r. unfold _deepCopyWeek_ref.
  assert (Hsrc1 : Some src ≫= (h1 !!.) = Some wsrc).
  { simpl. rewrite -> Hfr by done. done. }
  rewrite Hsrc1. split_and!.
  - pose proof (allocWeek_fresh (_deepCopyWeek (Some wsrc)) h1) as Hf.
    destruct (h !! (allocWeek (_deepCopyWeek (Some wsrc)) h1).1) eqn:Hh; [|done].
    rewrite -> Hfr in Hf by done. congruence.
  - apply allocWeek_lookup.
  - intros l Hl. rewrite -> allocWeek_frame; [by apply Hfr|].
    by rewrite -> Hfr by done.
Qed.

(** The array that the resolver returns is new, holds the effective
    ranges, and no array that existed before has changed. *)
Lemma effective_ref_frame (h : heap) (rs : RefStore) (st : WeekCore)
    (taskKey : string) :
  represents h rs st →
  let r := _effectiveExactForTask_ref (visibleWeekFirst st) rs taskKey h in
  h !! r.1 = None ∧
  r.2 !! r.1 = Some (_effectiveExactForTask st taskKey) ∧
  ∀ l, is_Some (h !! l) → r.2 !! l = h !! l.
Proof.
  intros (HcE & HcW & HcM & HE & HW & HM & HD).
  unfold _effectiveExactForTask_ref, _effectiveExactForTask.
  set (wkKey := _fmtWeekKey (visibleWeekFirst st)).
  set (moKey := _fmtMonthKey (visibleWeekFirst st)).
  rewrite HD (HW wkKey taskKey) (HM moKey taskKey) (HE taskKey).
  (* the reference and heap after the three possible copies *)
  set (r0 := _deepCopyWeek_ref (refEXACT rs !! taskKey) h).
  set (w0 := _deepCopyWeek (refEXACT rs !! taskKey ≫= (h !!.))).
  assert (I0 : h !! r0.1 = None ∧ r0.2 !! r0.1 = Some w0 ∧
               ∀ l, is_Some (h !! l) → r0.2 !! l = h !! l).
  { split_and!; [apply allocWeek_fresh|apply allocWeek_lookup|apply allocWeek_frame]. }
  clearbody r0 w0.
  set (r1 := match lookup2 (refByMonth rs) moKey taskKey with
             | Some mo => _deepCopyWeek_ref (Some mo) r0.2 | None => r0 end).
  set (w1 := match lookup2 (refByMonth rs) moKey taskKey ≫= (h !!.) with
             | Some mo => _deepCopyWeek (Some mo) | None => w0 end).
  assert (I1 : h !! r1.1 = None ∧ r1.2 !! r1.1 = Some w1 ∧
               ∀ l, is_Some (h !! l) → r1.2 !! l = h !! l).
  { subst r1 w1. destruct I0 as (I01 & I02 & I03).
    destruct (lookup2 (refByMonth rs) moKey taskKey) as [mo|] eqn:Hmo; [|done].
    destruct (HcM _ _ _ Hmo) as [wmo Hwmo].
    cbn [mbind option_bind]. rewrite Hwmo. by apply deepCopy_ref_inv. }
  clearbody r1 w1. clear I0 r0 w0.
  set (r2 := match lookup2 (refByWeek rs) wkKey taskKey with
             | Some wo => _deepCopyWeek_ref (Some wo) r1.2 | None => r1 end).
  set (w2 := match lookup2 (refByWeek rs) wkKey taskKey ≫= (h !!.) with
             | Some wo => _deepCopyWeek (Some wo) | None => w1 end).
  assert (I2 : h !! r2.1 = None ∧ r2.2 !! r2.1 = Some w2 ∧
               ∀ l, is_Some (h !! l) → r2.2 !! l = h !! l).
  { subst r2 w2. destruct I1 as (I11 & I12 & I13).
    destruct (lookup2 (refByWeek rs) wkKey taskKey) as [wo|] eqn:Hwo; [|done].
    destruct (HcW _ _ _ Hwo) as [wwo Hwwo].
    cbn [mbind option_bind]. rewrite Hwwo. by apply deepCopy_ref_inv. }
  clearbody r2 w2. clear I1 r1 w1.
  destruct I2 as (I21 & I22 & I23). simpl.
  destruct (fold_writeDay
              (λ d, lookup2 (refByDate rs)
                      (_fmtDate (_addDays (visibleWeekFirst st) (Z.of_nat d))) taskKey)
              (λ dayOverride, (λ r, mkRange (startMin r) (endMin r)) <$> dayOverride)
              r2.1 (seq 0 7) r2.2 w2 I22) as [F1 F2].
  split_and!; [done|exact F1|].
  intros l Hl. rewrite -> F2; [by apply I23|].
  intros ->. rewrite I21 in Hl. by destruct Hl.
Qed.

Lemma represents_frame (h h' : heap) (rs : RefStore) (st : WeekCore) :
  represents h rs st →
  (∀ l, is_Some (h !! l) → h' !! l = h !! l) →
  represents h' rs st.
Proof.
  intros (HcE & HcW & HcM & HE & HW & HM & HD) Hfr.
  assert (Hbind : ∀ o : option loc,
            (∀ l, o = Some l → is_Some (h !! l)) → o ≫= (h' !!.) = o ≫= (h !!.)).
  { intros [l|] Ho; [|done]. simpl. apply Hfr. by apply Ho. }
  split_and!.
  - intros k l Hl. rewrite -> Hfr by eauto. eauto.
  - intros k1 k2 l Hl. rewrite -> Hfr by eauto. eauto.
  - intros k1 k2 l Hl. rewrite -> Hfr by eauto. eauto.
  - intros k. rewrite HE. symmetry. apply Hbind. eauto.
  - intros k1 k2. rewrite HW. symmetry. apply Hbind. eauto.
  - intros k1 k2. rewrite HM. symmetry. apply Hbind. eauto.
  - done.
Qed.

(** C4. The effective week of a task has seven days; day [d] is the date
    exception of that day's date when the task has one, and otherwise day
    [d] of the week exception for the week key if present, else of the
    month exception for the month key if present, else of the recurring
    template.  Computing it on the heap returns a new array holding that
    week and changes no array that existed, so the same store is
    represented afterwards. *)
Theorem effective_ranges_resolution (st : WeekCore) (taskKey : string) :
  (length (_effectiveExactForTask st taskKey) = 7%nat ∧
   ∀ d, (d < 7)%nat →
     _effectiveExactForTask st taskKey !! d =
       Some (match lookup2 (byDate (EXCEPTIONS st))
                     (_fmtDate (_addDays (visibleWeekFirst st) (Z.of_nat d))) taskKey with
             | Some dayOverride => dayOverride
             | None =>
                 dayOf (match lookup2 (byWeek (EXCEPTIONS st))
                                (_fmtWeekKey (visibleWeekFirst st)) taskKey with
                        | Some wo => Some wo
                        | None =>
                            match lookup2 (byMonth (EXCEPTIONS st))
                                    (_fmtMonthKey (visibleWeekFirst st)) taskKey with
                            | Some mo => Some mo
                            | None => EXACT st !! taskKey
                            end
                        end) d
             end)) ∧
  ∀ (h : heap) (rs : RefStore),
    represents h rs st →
    let r := _effectiveExactForTask_ref (visibleWeekFirst st) rs taskKey h in
    h !! r.1 = None ∧
    r.2 !! r.1 = Some (_effectiveExactForTask st taskKey) ∧
    (∀ l, is_Some (h !! l) → r.2 !! l = h !! l) ∧
    represents r.2 rs st.
Proof.
  split.
  - split; [apply effective_length|]. intros d Hd. by apply effective_lookup.
  - intros h rs Hrep r.
    destruct (effective_ref_frame h rs st taskKey Hrep) as (H1 & H2 & H3).
    split_and!; [done..|]. by eapply represents_frame.
Qed.

Lemma effective_ranges_resolution_witness :
  let wk := [[mkRange 540 600]; []; []; []; []; []; []] in
  let h : heap := {[ 1%positive := wk ]} in
  let rs := mkRefStore {[ "work" := 1%positive ]} ∅ ∅ ∅ in
  let st := mkWeekCore [mkTask "work" "Work" "#D33C36" true] {[ "work" := wk ]}
              (mkExceptions ∅ ∅ ∅) ∅ (mkOrder ∅ ∅ ∅) 1 0 20331 in
  represents h rs st ∧
  (_effectiveExactForTask_ref 20331 rs "work" h).2 !! 1%positive = h !! 1%positive.
Proof.
  intros wk h rs st.
  assert (Hrep : represents h rs st).
  { split_and!; try done.
    - intros k l Hl. simpl in Hl. apply lookup_singleton_Some in Hl as [_ <-].
      subst h. rewrite lookup_singleton_eq. eauto.
    - intros k. simpl. destruct (decide (k = "work")) as [->|Hne].
      + by rewrite !lookup_singleton_eq.
      + by rewrite -> !lookup_singleton_ne by done. }
  split; [exact Hrep|].
  apply (proj1 (proj2 (proj2 (proj2 (effective_ranges_resolution st "work") h rs Hrep)))).
  subst h. rewrite lookup_singleton_eq. eauto.
Defined.

(** ** Dictionaries of dictionaries *)

Section lookup2.
Context {V : Type}.
Implicit Types m : gmap Z (gmap string V).

Lemma lookup2_insert2 (k1 k1' : Z) (k2 k2' : string) (v : V) m :
  lookup2 (insert2 k1 k2 v m) k1' k2' =
    if bool_decide (k1 = k1' ∧ k2 = k2') then Some v else lookup2 m k1' k2'.
Proof.
  unfold lookup2, insert2. destruct (decide (k1 = k1')) as [->|Hk1].
  - rewrite lookup_insert_eq. simpl. destruct (decide (k2 = k2')) as [->|Hk2].
    + rewrite lookup_insert_eq. by rewrite -> bool_decide_true by done.
    + rewrite -> lookup_insert_ne by done.
      rewrite -> bool_decide_false by (by intros [_ ?]).
      by destruct (m !! k1').
  - rewrite -> lookup_insert_ne by done.
    by rewrite -> bool_decide_false by (by intros [? _]).
Qed.

Lemma lookup2_delete2 (k1 k1' : Z) (k2 k2' : string) m :
  lookup2 (delete2 k1 k2 m) k1' k2' =
    if bool_decide (k1 = k1' ∧ k2 = k2') then None else lookup2 m k1' k2'.
Proof.
  unfold lookup2, delete2.
  destruct (m !! k1) as [inner|] eqn:Hm.
  - destruct (inner !! k2) as [v|] eqn:Hin.
    + case_bool_decide as Hsz.
      * apply map_size_empty_iff in Hsz.
        destruct (decide (k1 = k1')) as [->|Hk1].
        -- rewrite lookup_delete_eq Hm. simpl.
           case_bool_decide as Hd; [done|].
           destruct (decide (k2 = k2')) as [->|Hk2]; [by destruct Hd|].
           rewrite <- (lookup_delete_ne inner k2 k2') by done.
           by rewrite Hsz.
        -- rewrite -> lookup_delete_ne by done.
           by rewrite -> bool_decide_false by (by intros [? _]).
      * destruct (decide (k1 = k1')) as [->|Hk1].
        -- rewrite lookup_insert_eq Hm. simpl.
           destruct (decide (k2 = k2')) as [->|Hk2].
           ++ rewrite lookup_delete_eq. by rewrite -> bool_decide_true by done.
           ++ rewrite -> lookup_delete_ne by done.
              by rewrite -> bool_decide_false by (by intros [_ ?]).
        -- rewrite -> lookup_insert_ne by done.
           by rewrite -> bool_decide_false by (by intros [? _]).
    + case_bool_decide as Hd; [|done]. destruct Hd as [<- <-]. by rewrite Hm.
  - case_bool_decide as Hd; [|done]. destruct Hd as [<- <-]. by rewrite Hm.
Qed.

Lemma insert2_other (k1 k1' : Z) (k2 : string) (v : V) m :
  k1 ≠ k1' → insert2 k1 k2 v m !! k1' = m !! k1'.
Proof. intros. unfold insert2. by rewrite -> lookup_insert_ne by done. Qed.

Lemma delete2_other (k1 k1' : Z) (k2 : string) m :
  k1 ≠ k1' → delete2 k1 k2 m !! k1' = m !! k1'.
Proof.
  intros. unfold delete2. repeat case_match; try done.
  - by rewrite -> lookup_delete_ne by done.
  - by rewrite -> lookup_insert_ne by done.
Qed.

End lookup2.

Lemma lookup2_writeOrDeleteDate (k k' : Z) (t t' : string) (r : DayRanges)
    (bd : gmap Z (gmap string (list Range))) :
  lookup2 (writeOrDeleteDate k t r bd) k' t' =
    if bool_decide (k = k' ∧ t = t')
    then (if bool_decide (r = []) then None else Some r)
    else lookup2 bd k' t'.
Proof.
  unfold writeOrDeleteDate. case_bool_decide as Hr.
  - rewrite lookup2_insert2. by rewrite -> (bool_decide_false (r = [])) by done.
  - rewrite lookup2_delete2.
    by rewrite -> (bool_decide_true (r = [])) by done.
Qed.

Lemma writeOrDeleteDate_nil (k : Z) (t : string)
    (bd : gmap Z (gmap string (list Range))) :
  writeOrDeleteDate k t [] bd = delete2 k t bd.
Proof. unfold writeOrDeleteDate. by rewrite -> bool_decide_false by (by intros ?). Qed.

Lemma writeOrDeleteDate_other (k k' : Z) (t : string) (r : DayRanges)
    (bd : gmap Z (gmap string (list Range))) :
  k ≠ k' → writeOrDeleteDate k t r bd !! k' = bd !! k'.
Proof.
  intros. unfold writeOrDeleteDate.
  case_bool_decide; [by apply insert2_other|by apply delete2_other].
Qed.

(** ** Saving at today scope *)

Lemma getDay_bounds (d : Z) : 0 ≤ getDay d < 7.
Proof. unfold getDay. apply Z.mod_pos_bound. lia. Qed.

Lemma todayTarget_index (today : Z) (st : WeekCore) :
  ((_getTodayTargetInVisibleWeek today st).2 < 7)%nat.
Proof.
  unfold _getTodayTargetInVisibleWeek. pose proof (getDay_bounds today).
  case_match; simpl; lia.
Qed.

(** The visible week starts on a Sunday, so the target's weekday index
    addresses the target date inside the visible week. *)
Lemma todayTarget_date (today : Z) (st : WeekCore) :
  getDay (visibleWeekFirst st) = 0 →
  _addDays (visibleWeekFirst st)
           (Z.of_nat (_getTodayTargetInVisibleWeek today st).2)
  = (_getTodayTargetInVisibleWeek today st).1.
Proof.
  unfold _getTodayTargetInVisibleWeek, _addDays, getDay. intros Hsun.
  destruct (bool_decide (visibleWeekFirst st ≤ today)
            && bool_decide (today ≤ visibleWeekFirst st + 6)) eqn:Hcur; simpl; [|lia].
  apply andb_true_iff in Hcur as [H1%bool_decide_eq_true H2%bool_decide_eq_true].
  pose proof (Z.mod_pos_bound (today + 4) 7 ltac:(lia)).
  rewrite -> Z2Nat.id by lia.
  pose proof (Z.div_mod (visibleWeekFirst st + 4) 7 ltac:(lia)) as E1.
  pose proof (Z.div_mod (today + 4) 7 ltac:(lia)) as E2.
  rewrite Hsun in E1. lia.
Qed.

Lemma gotoWeek_sunday (today delta : Z) (st : WeekCore) :
  getDay (visibleWeekFirst (gotoWeek today delta st)) = 0.
Proof.
  unfold gotoWeek, getDay. simpl.
  pose proof (Z.div_mod (today + 4) 7 ltac:(lia)) as E.
  pose proof (Z.mod_pos_bound (today + 4) 7 ltac:(lia)).
  replace (today - (today + 4) `mod` 7 + (weekOffset st + delta) * 7 + 4)
    with (((today + 4) `div` 7 + weekOffset st + delta) * 7) by lia.
  apply Z.mod_mul. lia.
Qed.

Lemma saveRanges_today_byDate (today : Z) (st : WeekCore) (taskKey : string)
    (weekRanges : WeekRanges) :
  byDate (EXCEPTIONS (saveRanges today st taskKey ScToday weekRanges)) =
    let res := _normalizeAndClip today st ScToday taskKey weekRanges in
    let target := _getTodayTargetInVisibleWeek today st in
    writeOrDeleteDate (_fmtDate (_addDays target.1 1)) taskKey (spillNextDay res)
      (writeOrDeleteDate (_fmtDate target.1) taskKey
         (dayOf (Some (week res)) target.2) (byDate (EXCEPTIONS st))).
Proof. done. Qed.

Lemma scopedWeek_save_today (today : Z) (st : WeekCore) (taskKey k : string)
    (weekRanges : WeekRanges) :
  scopedWeek (saveRanges today st taskKey ScToday weekRanges) k = scopedWeek st k.
Proof. done. Qed.

(** C5. A today-scope save writes a non-empty clipped result of the
    target day into [byDate] for the target date; an empty one deletes
    the task's entry for that date, removes the date's mapping when that
    leaves it empty, and the effective ranges of the day are then those
    of the week, month or recurring level. *)
Theorem today_save_writes_or_falls_back (today : Z) (st : WeekCore)
    (taskKey : string) (weekRanges : WeekRanges) :
  let target := _getTodayTargetInVisibleWeek today st in
  let dateKey := _fmtDate target.1 in
  let clippedDay :=
    dayOf (Some (week (_normalizeAndClip today st ScToday taskKey weekRanges)))
          target.2 in
  let st' := saveRanges today st taskKey ScToday weekRanges in
  (clippedDay ≠ [] →
     lookup2 (byDate (EXCEPTIONS st')) dateKey taskKey = Some clippedDay) ∧
  (clippedDay = [] →
     lookup2 (byDate (EXCEPTIONS st')) dateKey taskKey = None ∧
     (∀ inner, byDate (EXCEPTIONS st) !! dateKey = Some inner →
        is_Some (inner !! taskKey) →
        byDate (EXCEPTIONS st') !! dateKey =
          if bool_decide (delete taskKey inner = ∅) then None
          else Some (delete taskKey inner)) ∧
     (getDay (visibleWeekFirst st) = 0 →
        _effectiveExactForTask st' taskKey !! target.2 =
          Some (dayOf (scopedWeek st taskKey) target.2))) ∧
  (∀ other, other ≠ taskKey →
     lookup2 (byDate (EXCEPTIONS st')) dateKey other
     = lookup2 (byDate (EXCEPTIONS st)) dateKey other).
Proof.
  intros target dateKey clippedDay st'.
  assert (Hnext : _fmtDate (_addDays target.1 1) ≠ dateKey).
  { unfold dateKey, _fmtDate, _addDays. lia. }
  assert (Hlk : ∀ k, lookup2 (byDate (EXCEPTIONS st')) dateKey k =
                     if bool_decide (k = taskKey)
                     then (if bool_decide (clippedDay = []) then None else Some clippedDay)
                     else lookup2 (byDate (EXCEPTIONS st)) dateKey k).
  { intros k. unfold st'. rewrite saveRanges_today_byDate. cbv zeta.
    rewrite lookup2_writeOrDeleteDate.
    rewrite -> bool_decide_false by (by intros [? _]).
    rewrite lookup2_writeOrDeleteDate. fold target dateKey clippedDay.
    erewrite (bool_decide_ext (dateKey = dateKey ∧ taskKey = k)); [done|].
    split; [by intros [_ ?]|by intros ->]. }
  split_and!.
  - intros Hne. rewrite Hlk. rewrite -> bool_decide_true by done.
    by rewrite -> bool_decide_false by done.
  - intros Hemp. split_and!.
    + rewrite Hlk. rewrite -> bool_decide_true by done.
      by rewrite -> bool_decide_true by done.
    + intros inner Hinner [v Hv]. unfold st'. rewrite saveRanges_today_byDate.
      cbv zeta. rewrite -> writeOrDeleteDate_other by done.
      fold target dateKey clippedDay. rewrite Hemp.
      rewrite writeOrDeleteDate_nil.
      unfold delete2. rewrite Hinner Hv. cbv zeta. clear Hlk.
      case_bool_decide as Hsz.
      * apply map_size_empty_iff in Hsz. rewrite -> bool_decide_true by done.
        apply lookup_delete_eq.
      * rewrite -> bool_decide_false.
        -- apply lookup_insert_eq.
        -- intros He. apply Hsz. by rewrite He.
    + intros Hsun.
      rewrite -> effective_lookup by apply todayTarget_index.
      change (visibleWeekFirst st') with (visibleWeekFirst st).
      unfold target. rewrite -> todayTarget_date by done.
      fold target dateKey. rewrite Hlk.
      rewrite -> bool_decide_true by done.
      rewrite -> bool_decide_true by done.
      by rewrite scopedWeek_save_today.
  - intros other Hother. rewrite Hlk. by rewrite -> bool_decide_false by done.
Qed.

Lemma today_save_writes_or_falls_back_witness :
  let st' := saveRanges sampleToday sampleEngine "work" ScToday [] in
  lookup2 (byDate (EXCEPTIONS sampleEngine)) 20337 "work" = Some [mkRange 600 660] ∧
  getDay (visibleWeekFirst sampleEngine) = 0 ∧
  lookup2 (byDate (EXCEPTIONS st')) 20337 "work" = None ∧
  _effectiveExactForTask st' "work" !! 6%nat = Some [mkRange 540 600].
Proof.
  intros st'.
  assert (Hsun : getDay (visibleWeekFirst sampleEngine) = 0) by (by vm_compute).
  assert (Hemp : dayOf (Some (week (_normalizeAndClip sampleToday sampleEngine ScToday
                                      "work" [])))
                   (_getTodayTargetInVisibleWeek sampleToday sampleEngine).2 = [])
    by (by vm_compute).
  pose proof (today_save_writes_or_falls_back sampleToday sampleEngine "work" []) as H.
  cbv zeta in H. destruct H as (_ & H & _).
  destruct (H Hemp) as (H1 & _ & H3). specialize (H3 Hsun).
  split; [by vm_compute|]. split; [exact Hsun|]. split.
  - exact H1.
  - etrans; [exact H3|]. by vm_compute.
Defined.

(** ** The next date after a today-scope save *)

Lemma splitQuantize_no_overnight_spill (today : Z) (st : WeekCore) (scope : Scope)
    (taskKey : string) (weekRanges : WeekRanges) :
  (splitQuantize weekRanges).2 = false →
  spillNextDay (_normalizeAndClip today st scope taskKey weekRanges) = [].
Proof.
  unfold _normalizeAndClip. destruct (splitQuantize weekRanges) as [norm had].
  simpl. intros ->. by rewrite andb_false_r.
Qed.

Lemma spill_needs_overnight (today : Z) (st : WeekCore) (scope : Scope)
    (taskKey : string) (weekRanges : WeekRanges) :
  spillNextDay (_normalizeAndClip today st scope taskKey weekRanges) ≠ [] →
  scope = ScToday ∧ (splitQuantize weekRanges).2 = true.
Proof.
  unfold _normalizeAndClip. destruct (splitQuantize weekRanges) as [norm had].
  simpl. case_bool_decide as Hs; simpl; [|done]. destruct had; done.
Qed.





(** ** Order stamps under the engine's calls *)

Lemma stampIfUnset_spec (taskKey k : string) (stamps : gmap string Z) (saveSeq : Z) :
  (stampIfUnset taskKey stamps saveSeq).1 !! k =
    (if bool_decide (k = taskKey)
     then match stamps !! taskKey with
          | Some v => if bool_decide (v = 0) then Some saveSeq else Some v
          | None => Some saveSeq
          end
     else stamps !! k) ∧
  (stampIfUnset taskKey stamps saveSeq).2 =
    match stamps !! taskKey with
    | Some v => if bool_decide (v = 0) then saveSeq + 1 else saveSeq
    | None => saveSeq + 1
    end.
Proof.
  unfold stampIfUnset.
  destruct (stamps !! taskKey) as [v|] eqn:Hv; [destruct (bool_decide (v = 0))|];
    simpl; (split; [|done]); case_bool_decide as Hk; subst;
    rewrite ?lookup_insert_eq; rewrite -> ?lookup_insert_ne by done; done.
Qed.

Lemma lookup2_insert_outer {V} (m : gmap Z (gmap string V)) (k1 k1' : Z)
    (inner : gmap string V) (k2 : string) :
  lookup2 (<[k1 := inner]> m) k1' k2 =
    if bool_decide (k1' = k1) then inner !! k2 else lookup2 m k1' k2.
Proof.
  unfold lookup2. case_bool_decide as Hk.
  - subst. by rewrite lookup_insert_eq.
  - by rewrite -> lookup_insert_ne by done.
Qed.

Lemma lookup_default_empty {V} (m : gmap Z (gmap string V)) (k1 : Z) (k2 : string) :
  default ∅ (m !! k1) !! k2 = lookup2 m k1 k2.
Proof. unfold lookup2. by destruct (m !! k1). Qed.

Lemma saveRanges_stamps (today : Z) (st : WeekCore) (taskKey : string)
    (scope : Scope) (weekRanges : WeekRanges) :
  let st' := saveRanges today st taskKey scope weekRanges in
  match saveAddr st scope taskKey with
  | Some a =>
      (∀ b, stampAt st' b = if bool_decide (b = a)
                            then stampAfter (stampAt st a) (_saveSeq st)
                            else stampAt st b) ∧
      _saveSeq st' = counterAfter (stampAt st a) (_saveSeq st)
  | None => (∀ b, stampAt st' b = stampAt st b) ∧ _saveSeq st' = _saveSeq st
  end.
Proof.
  destruct scope; simpl.
  - destruct (stampIfUnset_spec taskKey taskKey (ord_recurring (ORDER st))
                (_saveSeq st)) as [_ H2].
    split; [|exact H2]. intros [k|wk k|mo k]; simpl; [|done..].
    destruct (stampIfUnset_spec taskKey k (ord_recurring (ORDER st))
                (_saveSeq st)) as [H1 _].
    rewrite H1. unfold stampAfter.
    case_bool_decide as Hk; [subst; by rewrite bool_decide_true|].
    rewrite -> bool_decide_false; [done|]. by intros [= ->].
  - set (wkKey := _fmtWeekKey (visibleWeekFirst st)).
    remember (default ∅ (ord_week (ORDER st) !! wkKey)) as inner eqn:Hinner.
    assert (Hin : inner !! taskKey = lookup2 (ord_week (ORDER st)) wkKey taskKey)
      by (subst inner; apply lookup_default_empty).
    clearbody wkKey.
    destruct (stampIfUnset_spec taskKey taskKey inner (_saveSeq st)) as [_ H2].
    split; [|by rewrite H2 Hin]. intros [k|wk k|mo k]; simpl; [done| |done].
    rewrite lookup2_insert_outer. clear H2.
    destruct (decide (wk = wkKey)) as [->|Hwk].
    + rewrite -> (bool_decide_true (wkKey = wkKey)) by done.
      rewrite (proj1 (stampIfUnset_spec taskKey k inner (_saveSeq st))).
      rewrite Hin. unfold stampAfter.
      destruct (decide (k = taskKey)) as [->|Hk].
      * by rewrite !bool_decide_true.
      * rewrite -> (bool_decide_false (k = taskKey)) by done.
        rewrite -> bool_decide_false by (by intros [= ->]).
        rewrite Hinner. apply lookup_default_empty.
    + rewrite -> (bool_decide_false (wk = wkKey)) by done.
      rewrite -> bool_decide_false; [done|]. by intros [= -> ->].
  - set (moKey := _fmtMonthKey (visibleWeekFirst st)).
    remember (default ∅ (ord_month (ORDER st) !! moKey)) as inner eqn:Hinner.
    assert (Hin : inner !! taskKey = lookup2 (ord_month (ORDER st)) moKey taskKey)
      by (subst inner; apply lookup_default_empty).
    clearbody moKey.
    destruct (stampIfUnset_spec taskKey taskKey inner (_saveSeq st)) as [_ H2].
    split; [|by rewrite H2 Hin]. intros [k|wk k|mo k]; simpl; [done..|].
    rewrite lookup2_insert_outer. clear H2.
    destruct (decide (mo = moKey)) as [->|Hmo].
    + rewrite -> (bool_decide_true (moKey = moKey)) by done.
      rewrite (proj1 (stampIfUnset_spec taskKey k inner (_saveSeq st))).
      rewrite Hin. unfold stampAfter.
      destruct (decide (k = taskKey)) as [->|Hk].
      * by rewrite !bool_decide_true.
      * rewrite -> (bool_decide_false (k = taskKey)) by done.
        rewrite -> bool_decide_false by (by intros [= ->]).
        rewrite Hinner. apply lookup_default_empty.
    + rewrite -> (bool_decide_false (mo = moKey)) by done.
      rewrite -> bool_decide_false; [done|]. by intros [= -> ->].
  - split; [|done]. by intros [k|wk k|mo k].
Qed.

Lemma construct_stamps (today : Z) (tasks : list Task) :
  stampsFromCounter (construct today tasks).
Proof.
  split; [done|].
  intros [k|wk k|mo k] v; simpl; unfold lookup2; by rewrite lookup_empty.
Qed.

(** What one call does to the stamps and to the counter. *)
Lemma perform_stamps (st : WeekCore) (c : Call) :
  stampsFromCounter st →
  stampsFromCounter (perform st c) ∧
  _saveSeq st ≤ _saveSeq (perform st c) ∧
  (∀ a v, stampAt st a = Some v → stampAt (perform st c) a = Some v) ∧
  (∀ b v, stampAt st b = None → stampAt (perform st c) b = Some v →
          v = _saveSeq st ∧ _saveSeq (perform st c) = _saveSeq st + 1).
Proof.
  intros [Hpos Hinv].
  destruct c as [today taskKey scope weekRanges|today delta|tasks];
    simpl;
    [|split_and!;
       [by split|lia|done|intros [?|? ?|? ?] v Hb Hv; simpl in *; congruence]..].
  pose proof (saveRanges_stamps today st taskKey scope weekRanges) as H.
  cbv zeta in H. destruct (saveAddr st scope taskKey) as [a|].
  - destruct H as [Hst Hseq].
    assert (Hkeep : ∀ v, stampAt st a = Some v →
              stampAfter (stampAt st a) (_saveSeq st) = Some v ∧
              counterAfter (stampAt st a) (_saveSeq st) = _saveSeq st).
    { intros v Hv. rewrite Hv. simpl. apply Hinv in Hv.
      by rewrite -> !bool_decide_false by lia. }
    assert (Hmono : _saveSeq st ≤ counterAfter (stampAt st a) (_saveSeq st)).
    { destruct (stampAt st a) as [v'|]; simpl; [case_bool_decide|]; lia. }
    split_and!.
    + split; [rewrite Hseq; lia|].
      intros b v. rewrite Hst Hseq. case_bool_decide as Hb.
      * subst b. destruct (stampAt st a) as [v'|] eqn:Ha.
        -- destruct (Hkeep v' eq_refl) as [-> ->]. intros [= <-]. by eapply Hinv.
        -- simpl. intros [= <-]. lia.
      * intros Hv. apply Hinv in Hv. lia.
    + rewrite Hseq. destruct (stampAt st a) as [v'|]; simpl; [case_bool_decide|]; lia.
    + intros b v Hv. rewrite Hst. case_bool_decide as Hb; [|done].
      subst b. by apply Hkeep.
    + intros b v Hb. rewrite Hst Hseq. case_bool_decide as Hba; [|congruence].
      subst b. rewrite Hb. simpl. by intros [= <-].
  - destruct H as [Hst Hseq]. split_and!.
    + split; [rewrite Hseq; lia|]. intros b v. rewrite Hst Hseq. apply Hinv.
    + lia.
    + intros b v. by rewrite Hst.
    + intros b v Hb. rewrite Hst. congruence.
Qed.

Lemma performAll_stamps (st : WeekCore) (cs : list Call) :
  stampsFromCounter st →
  stampsFromCounter (performAll st cs) ∧
  _saveSeq st ≤ _saveSeq (performAll st cs) ∧
  (∀ a v, stampAt st a = Some v → stampAt (performAll st cs) a = Some v) ∧
  (∀ b v, stampAt st b = None → stampAt (performAll st cs) b = Some v →
          _saveSeq st ≤ v).
Proof.
  unfold performAll. revert st. induction cs as [|c cs IH]; intros st Hinv; simpl.
  - split_and!; [done|lia|done|congruence].
  - destruct (perform_stamps st c Hinv) as (Hinv' & Hle & Hkeep & Hnew).
    destruct (IH _ Hinv') as (IH1 & IH2 & IH3 & IH4).
    split_and!; [done|lia|by eauto|].
    intros b v Hb Hv.
    destruct (stampAt (perform st c) b) as [v'|] eqn:Hb'.
    + destruct (Hnew b v' Hb Hb') as [-> _].
      apply IH3 in Hb'. rewrite Hb' in Hv. injection Hv as <-. lia.
    + specialize (IH4 b v Hb' Hv). lia.
Qed.



(** ** The sweep of the clipper *)

Lemma scanWhile_S (fuel : nat) (p : nat → bool) (s : nat) :
  scanWhile (S fuel) p s =
    if bool_decide (Z.of_nat s < SLOTS_PER_DAY) && p s
    then scanWhile fuel p (S s) else s.
Proof. reflexivity. Qed.

Lemma sweepRuns_S (fuel : nat) (ok : nat → bool) (s : nat) (out : DayRanges) :
  sweepRuns (S fuel) ok s out =
    if bool_decide (Z.of_nat s < SLOTS_PER_DAY) then
      let s1 := scanWhile (Z.to_nat SLOTS_PER_DAY) (λ i, negb (ok i)) s in
      if bool_decide (SLOTS_PER_DAY ≤ Z.of_nat s1) then out
      else
        let e := scanWhile (Z.to_nat SLOTS_PER_DAY) ok (S s1) in
        sweepRuns fuel ok e
          (if bool_decide (Z.of_nat e * 15 > Z.of_nat s1 * 15)
           then out ++ [mkRange (Z.of_nat s1 * 15) (Z.of_nat e * 15)] else out)
    else out.
Proof. reflexivity. Qed.

Lemma scanWhile_spec (fuel : nat) (p : nat → bool) (s : nat) :
  (96 - s ≤ fuel)%nat →
  let s' := scanWhile fuel p s in
  (s ≤ s')%nat ∧ ((s ≤ 96)%nat → (s' ≤ 96)%nat) ∧
  (∀ i, (s ≤ i < s')%nat → p i = true) ∧
  ((s' < 96)%nat → p s' = false).
Proof.
  revert s. induction fuel as [|fuel IH]; intros s Hfuel.
  - cbv zeta. change (scanWhile 0 p s) with s.
    split_and!; [done|done|intros; lia|intros; lia].
  - cbv zeta. rewrite scanWhile_S.
    unfold SLOTS_PER_DAY. case_bool_decide as Hs; simpl.
    + destruct (p s) eqn:Hp.
      * destruct (IH (S s)) as (H1 & H2 & H3 & H4); [lia|].
        split_and!; [lia|intros; apply H2; lia| |done].
        intros i Hi. destruct (decide (i = s)) as [->|]; [done|]. apply H3. lia.
      * split_and!; [done|done|intros; lia|done].
    + split_and!; [done|done|intros; lia|intros; lia].
Qed.

(** The scan stops at the first slot that fails [p]. *)
Lemma scanWhile_stop (p : nat → bool) (s a : nat) :
  (s ≤ a)%nat → (a ≤ 96)%nat →
  (∀ i, (s ≤ i < a)%nat → p i = true) →
  ((a < 96)%nat → p a = false) →
  scanWhile (Z.to_nat SLOTS_PER_DAY) p s = a.
Proof.
  intros Hsa Ha Htrue Hfalse.
  destruct (scanWhile_spec (Z.to_nat SLOTS_PER_DAY) p s) as (H1 & H2 & H3 & H4).
  { unfold SLOTS_PER_DAY. lia. }
  set (s' := scanWhile (Z.to_nat SLOTS_PER_DAY) p s) in *.
  destruct (Nat.lt_trichotomy s' a) as [Hlt|[Heq|Hgt]]; [|done|].
  - rewrite -> Htrue in H4 by lia. specialize (H4 ltac:(lia)). done.
  - rewrite -> H3 in Hfalse by lia. specialize (Hfalse ltac:(lia)). done.
Qed.

Lemma sweepRuns_app (fuel : nat) (ok : nat → bool) (s : nat) (out : DayRanges) :
  sweepRuns fuel ok s out = out ++ sweepRuns fuel ok s [].
Proof.
  revert s out. induction fuel as [|fuel IH]; intros s out.
  - change (sweepRuns 0 ok s out) with out. change (sweepRuns 0 ok s []) with (@nil Range).
    by rewrite app_nil_r.
  - rewrite !sweepRuns_S. cbv zeta.
    repeat case_bool_decide; rewrite ?app_nil_r; try done; try apply IH.
    rewrite (IH _ (out ++ _)) (IH _ ([] ++ _)). by rewrite app_assoc.
Qed.

Lemma sweepRuns_step (fuel : nat) (ok : nat → bool) (s : nat) :
  (s < 96)%nat →
  let s1 := scanWhile (Z.to_nat SLOTS_PER_DAY) (λ i, negb (ok i)) s in
  let e := scanWhile (Z.to_nat SLOTS_PER_DAY) ok (S s1) in
  sweepRuns (S fuel) ok s [] =
    if bool_decide (96 ≤ s1)%nat then []
    else mkRange (Z.of_nat s1 * 15) (Z.of_nat e * 15) :: sweepRuns fuel ok e [].
Proof.
  intros Hs s1 e. rewrite sweepRuns_S. cbv zeta. fold s1. fold e.
  unfold SLOTS_PER_DAY.
  rewrite -> bool_decide_true by lia.
  destruct (decide (96 ≤ s1)%nat) as [Hge|Hlt].
  - rewrite -> bool_decide_true by lia. by rewrite -> bool_decide_true by lia.
  - rewrite -> bool_decide_false by lia.
    rewrite -> (bool_decide_false (96 ≤ s1)%nat) by lia.
    destruct (scanWhile_spec (Z.to_nat SLOTS_PER_DAY) ok (S s1)) as (He & _).
    { unfold SLOTS_PER_DAY. lia. }
    fold e in He.
    rewrite -> bool_decide_true by lia. by rewrite sweepRuns_app.
Qed.

(** More fuel than [96 - s] changes nothing: the loops have ended. *)
Lemma scanWhile_fuel (fuel fuel' : nat) (p : nat → bool) (s : nat) :
  (96 - s ≤ fuel)%nat → (96 - s ≤ fuel')%nat →
  scanWhile fuel p s = scanWhile fuel' p s.
Proof.
  revert fuel' s. induction fuel as [|fuel IH]; intros [|fuel'] s H H'; try done.
  - rewrite scanWhile_S. unfold SLOTS_PER_DAY.
    by rewrite -> bool_decide_false by lia.
  - rewrite scanWhile_S. unfold SLOTS_PER_DAY.
    by rewrite -> bool_decide_false by lia.
  - rewrite !scanWhile_S. destruct (_ && _); [|done]. apply IH; lia.
Qed.

Lemma sweepRuns_fuel (fuel fuel' : nat) (ok : nat → bool) (s : nat)
    (out : DayRanges) :
  (96 - s ≤ fuel)%nat → (96 - s ≤ fuel')%nat →
  sweepRuns fuel ok s out = sweepRuns fuel' ok s out.
Proof.
  revert fuel' s out.
  induction fuel as [|fuel IH]; intros [|fuel'] s out H H'; try done.
  - rewrite sweepRuns_S. unfold SLOTS_PER_DAY.
    by rewrite -> bool_decide_false by lia.
  - rewrite sweepRuns_S. unfold SLOTS_PER_DAY.
    by rewrite -> bool_decide_false by lia.
  - rewrite !sweepRuns_S. cbv zeta. case_bool_decide as Hs; [|done].
    case_bool_decide; [done|].
    destruct (scanWhile_spec (Z.to_nat SLOTS_PER_DAY) (λ i, negb (ok i)) s)
      as (A1 & _); [unfold SLOTS_PER_DAY; lia|].
    destruct (scanWhile_spec (Z.to_nat SLOTS_PER_DAY) ok
                (S (scanWhile (Z.to_nat SLOTS_PER_DAY) (λ i, negb (ok i)) s)))
      as (B1 & _); [unfold SLOTS_PER_DAY; lia|].
    apply IH; lia.
Qed.

Lemma okRuns_weaken (ok ok' : nat → bool) (lo lo' : nat) (l : DayRanges) :
  (∀ i, ok i = true → ok' i = true) → (lo' ≤ lo)%nat →
  okRuns ok lo l → okRuns ok' lo' l.
Proof.
  intros Hok. revert lo lo'. induction l as [|r l IH]; intros lo lo' Hlo; [done|].
  simpl. intros (s & e & Hs & He & Hr & Hall & Hl).
  exists s, e. split_and!; [lia|lia|lia|done|by eauto|by eapply IH].
Qed.

(** What the sweep returns is a list of separated runs of [ok] slots. *)
Lemma sweepRuns_okRuns (fuel : nat) (ok : nat → bool) (s lo : nat) :
  ((s < 96)%nat →
   (lo ≤ scanWhile (Z.to_nat SLOTS_PER_DAY) (λ i, negb (ok i)) s)%nat) →
  okRuns ok lo (sweepRuns fuel ok s []).
Proof.
  revert s lo. induction fuel as [|fuel IH]; intros s lo Hlo; [done|].
  destruct (decide (s < 96)%nat) as [Hs|Hs].
  - rewrite -> sweepRuns_step by done. cbv zeta.
    specialize (Hlo Hs).
    destruct (scanWhile_spec (Z.to_nat SLOTS_PER_DAY) (λ i, negb (ok i)) s)
      as (A1 & A2 & A3 & A4); [unfold SLOTS_PER_DAY; lia|].
    set (s1 := scanWhile (Z.to_nat SLOTS_PER_DAY) (λ i, negb (ok i)) s) in *.
    case_bool_decide as Hs1; [done|].
    destruct (scanWhile_spec (Z.to_nat SLOTS_PER_DAY) ok (S s1))
      as (B1 & B2 & B3 & B4); [unfold SLOTS_PER_DAY; lia|].
    set (e := scanWhile (Z.to_nat SLOTS_PER_DAY) ok (S s1)) in *.
    cbn [okRuns]. exists s1, e. split_and!; [lia|lia|lia|done| |].
    + intros i Hi. destruct (decide (i = s1)) as [->|Hne].
      * specialize (A4 ltac:(lia)). by apply negb_false_iff in A4.
      * apply B3. lia.
    + apply IH. intros He.
      destruct (scanWhile_spec (Z.to_nat SLOTS_PER_DAY) (λ i, negb (ok i)) e)
        as (C1 & _ & C3 & C4); [unfold SLOTS_PER_DAY; lia|].
      set (s2 := scanWhile (Z.to_nat SLOTS_PER_DAY) (λ i, negb (ok i)) e) in *.
      destruct (decide (s2 = e)) as [Heq|Hne]; [|lia].
      rewrite Heq in C4. specialize (C4 He). specialize (B4 He).
      rewrite B4 in C4. done.
  - rewrite sweepRuns_S. unfold SLOTS_PER_DAY.
    by rewrite -> bool_decide_false by lia.
Qed.

Lemma okRuns_Forall (ok : nat → bool) (lo : nat) (l : DayRanges) :
  okRuns ok lo l →
  Forall (λ r, Z.of_nat lo * 15 ≤ startMin r ∧ startMin r < endMin r ∧
               endMin r ≤ 1440 ∧ (15 | startMin r) ∧ (15 | endMin r)) l.
Proof.
  revert lo. induction l as [|r l IH]; intros lo; [constructor|].
  simpl. intros (s & e & Hs & He & -> & _ & Hl). constructor.
  - simpl. split_and!; [lia|lia|lia|by eexists|by eexists].
  - eapply Forall_impl; [by apply (IH (S e))|]. simpl. intros r Hr.
    split_and!; [lia|apply Hr..].
Qed.

Lemma okRuns_take (ok : nat → bool) (lo n : nat) (l : DayRanges) :
  okRuns ok lo l → okRuns ok lo (take n l).
Proof.
  revert lo n. induction l as [|r l IH]; intros lo [|n]; try done.
  simpl. intros (s & e & Hs & He & Hr & Hall & Hl).
  exists s, e. split_and!; [lia|lia|done..|by apply IH].
Qed.

Lemma okRuns_sorted (ok : nat → bool) (lo : nat) (l : DayRanges) :
  okRuns ok lo l → StronglySorted (λ a b, startMin a ≤ startMin b) l.
Proof.
  revert lo. induction l as [|r l IH]; intros lo; [constructor|].
  intros Hl. pose proof Hl as (s & e & Hs & He & -> & _ & Hl').
  constructor; [by eapply IH|].
  eapply Forall_impl; [by apply (okRuns_Forall _ _ _ Hl')|].
  simpl. intros r Hr. lia.
Qed.

(** Later runs start beyond the end of earlier ones. *)
Lemma okRuns_gap (ok : nat → bool) (lo : nat) (l : DayRanges) (i j : nat)
    (ri rj : Range) :
  okRuns ok lo l → (i < j)%nat → l !! i = Some ri → l !! j = Some rj →
  endMin ri < startMin rj.
Proof.
  revert lo i j. induction l as [|r l IH]; intros lo i j Hl Hij Hi Hj; [done|].
  destruct Hl as (s & e & Hs & He & -> & _ & Hl').
  destruct j as [|j]; [lia|]. simpl in Hj.
  destruct i as [|i].
  - simpl in Hi. injection Hi as <-. simpl.
    pose proof (okRuns_Forall _ _ _ Hl') as HF.
    rewrite -> Forall_lookup in HF. specialize (HF j rj Hj). simpl in HF. lia.
  - simpl in Hi. eapply IH; [done| |done..]. lia.
Qed.

Lemma mergeStep_separate (merged : DayRanges) (r : Range) :
  (∀ lst, last merged = Some lst → endMin lst < startMin r) →
  mergeStep merged r = merged ++ [r].
Proof.
  intros H. unfold mergeStep. destruct (last merged) as [lst|] eqn:Hl.
  - rewrite -> bool_decide_false; [done|]. specialize (H lst eq_refl). lia.
  - by apply last_None in Hl as ->.
Qed.

(** The merge loop changes nothing on separated runs. *)
Lemma merge_okRuns (ok : nat → bool) (lo : nat) (l acc : DayRanges) :
  okRuns ok lo l →
  (∀ lst, last acc = Some lst → endMin lst < Z.of_nat lo * 15) →
  foldl mergeStep acc l = acc ++ l.
Proof.
  revert lo acc. induction l as [|r l IH]; intros lo acc Hl Hacc; simpl.
  - by rewrite app_nil_r.
  - pose proof Hl as (s & e & Hs & He & -> & _ & Hl').
    rewrite -> mergeStep_separate.
    + rewrite -> (IH (S e)); [by rewrite <- app_assoc|done|].
      intros lst. rewrite last_snoc. intros [= <-]. simpl. lia.
    + intros lst Hlst. specialize (Hacc lst Hlst). simpl. lia.
Qed.

(** One day of the clip loop returns the first four runs of the sweep. *)
Lemma clipDay_take (taskKey : string) (normDay : DayRanges) (occRow : DaySlots) :
  clipDay taskKey normDay occRow =
    take 4 (sweepRuns (Z.to_nat SLOTS_PER_DAY)
              (grantable taskKey (requested normDay) occRow) 0 []).
Proof.
  unfold clipDay.
  set (ok := grantable taskKey (requested normDay) occRow).
  pose proof (sweepRuns_okRuns (Z.to_nat SLOTS_PER_DAY) ok 0 0 ltac:(lia)) as Hruns.
  set (runs := sweepRuns (Z.to_nat SLOTS_PER_DAY) ok 0 []) in *.
  rewrite -> (sortByKey_id startMin runs) by (by eapply okRuns_sorted).
  rewrite -> (merge_okRuns ok 0 runs []) by done. simpl.
  case_bool_decide; [done|]. by rewrite -> take_ge by lia.
Qed.

Lemma clipDay_okRuns (taskKey : string) (normDay : DayRanges) (occRow : DaySlots) :
  okRuns (grantable taskKey (requested normDay) occRow) 0
         (clipDay taskKey normDay occRow) ∧
  (length (clipDay taskKey normDay occRow) ≤ 4)%nat.
Proof.
  rewrite clipDay_take. split.
  - apply okRuns_take. apply sweepRuns_okRuns. lia.
  - rewrite length_take. lia.
Qed.

(** ** The normalise-and-clip output *)

Lemma toInt32_id (x : Z) : -2147483648 ≤ x < 2147483648 → toInt32 x = x.
Proof. intros H. unfold toInt32. rewrite -> Z.mod_small by lia. lia. Qed.

Lemma normalizeAndClip_week (today : Z) (st : WeekCore) (scope : Scope)
    (taskKey : string) (weekRanges : WeekRanges) :
  week (_normalizeAndClip today st scope taskKey weekRanges) =
    (λ d, clipDay taskKey (dayOf (Some (splitQuantize weekRanges).1) d)
                  (default [] (_buildOccupancyMap st taskKey !! d))) <$> seq 0 7.
Proof. unfold _normalizeAndClip. by destruct (splitQuantize weekRanges). Qed.

Lemma normalizeAndClip_week_lookup (today : Z) (st : WeekCore) (scope : Scope)
    (taskKey : string) (weekRanges : WeekRanges) (d : nat) (day : DayRanges) :
  week (_normalizeAndClip today st scope taskKey weekRanges) !! d = Some day →
  (d < 7)%nat ∧
  day = clipDay taskKey (dayOf (Some (splitQuantize weekRanges).1) d)
                (default [] (_buildOccupancyMap st taskKey !! d)).
Proof.
  rewrite normalizeAndClip_week. intros H.
  assert (Hd : (d < 7)%nat).
  { apply lookup_lt_Some in H. by rewrite length_fmap length_seq in H. }
  split; [exact Hd|].
  rewrite list_lookup_fmap in H. rewrite -> lookup_seq_lt in H by exact Hd.
  rewrite Nat.add_0_l in H. cbn [fmap option_fmap option_map] in H.
  apply (inj Some) in H. symmetry. exact H.
Qed.

Lemma normRange_cases (d : nat) (acc : WeekRanges * bool) (r : Range) :
  int32Range r →
  (endMin r < startMin r →
     normRange d acc r =
       ((if bool_decide (_round15 (endMin r) > 0)
         then pushDay ((d + 1) `mod` 7) (mkRange 0 (_round15 (endMin r)))
         else id)
          ((if bool_decide (1440 > _round15 (startMin r))
            then pushDay d (mkRange (_round15 (startMin r)) 1440)
            else id) acc.1),
        true)) ∧
  (startMin r < endMin r → _round15 (startMin r) = _round15 (endMin r) →
     normRange d acc r = acc) ∧
  (startMin r = endMin r → normRange d acc r = acc) ∧
  (startMin r < endMin r → _round15 (startMin r) ≠ _round15 (endMin r) →
     normRange d acc r =
       (pushDay d (mkRange (_round15 (startMin r)) (_round15 (endMin r))) acc.1,
        acc.2)).
Proof.
  intros [Hs He]. unfold normRange.
  rewrite -> !toInt32_id by done.
  change (_round15 (24 * 60)) with 1440. change (_round15 0) with 0.
  split_and!.
  - intros Hlt. rewrite -> bool_decide_false by lia.
    rewrite -> bool_decide_true by lia. by repeat case_bool_decide.
  - intros Hlt Heq. rewrite -> bool_decide_true by lia.
    by rewrite -> bool_decide_false by lia.
  - intros Heq. rewrite -> bool_decide_false by lia.
    by rewrite -> bool_decide_false by lia.
  - intros Hlt Hne. rewrite -> bool_decide_true by lia.
    pose proof (round15_mono (startMin r) (endMin r) ltac:(lia)).
    by rewrite -> bool_decide_true by lia.
Qed.

(** C8, as stated, fails: the submitted range 10:07 -> 10:00 has rounded
    endpoints that coincide (both 600), yet it is split as an overnight
    range and contributes [600, 1440) to its day and [0, 600) to the next. *)
Lemma coinciding_range_dropped_counterexample : ¬ coincidingRangeDroppedClaim.
Proof.
  intros H.
  specialize (H 0%nat (_blankWeekRanges, false) (mkRange 607 600) eq_refl).
  vm_compute in H. discriminate H.
Qed.

(** C8 (amended). Whatever is submitted, every day of the normalise-and-
    clip output holds ranges whose endpoints are multiples of 15 with
    [0 ≤ startMin < endMin ≤ 1440], sorted by start, every later range
    starting beyond the end of every earlier one (no overlap, no
    touching), at most four of them: the first four runs of the sweep.
    In step 1, for minute values that fit a 32-bit integer, a range with
    [endMin < startMin] gives [round start, 1440) to its day and
    [0, round end) to day [(d+1) mod 7] (each when not empty) and records
    the overnight split; a range with [endMin > startMin] whose rounded
    endpoints coincide, or with [endMin = startMin], gives nothing; any
    other range gives its rounded endpoints to its day. *)
Theorem normalize_clip_output_invariants (today : Z) (st : WeekCore)
    (scope : Scope) (taskKey : string) (weekRanges : WeekRanges) :
  let out := week (_normalizeAndClip today st scope taskKey weekRanges) in
  length out = 7%nat ∧
  (∀ d day, out !! d = Some day →
     Forall (λ r, (15 | startMin r) ∧ (15 | endMin r) ∧
                  0 ≤ startMin r ∧ startMin r < endMin r ∧ endMin r ≤ 1440) day ∧
     (∀ i j ri rj, (i < j)%nat → day !! i = Some ri → day !! j = Some rj →
        startMin ri < startMin rj ∧ endMin ri < startMin rj) ∧
     (length day ≤ 4)%nat ∧
     day = take 4 (sweepRuns (Z.to_nat SLOTS_PER_DAY)
                     (grantable taskKey
                        (requested (dayOf (Some (splitQuantize weekRanges).1) d))
                        (default [] (_buildOccupancyMap st taskKey !! d)))
                     0 [])) ∧
  (∀ d acc r, int32Range r →
     (endMin r < startMin r →
        normRange d acc r =
          ((if bool_decide (_round15 (endMin r) > 0)
            then pushDay ((d + 1) `mod` 7) (mkRange 0 (_round15 (endMin r)))
            else id)
             ((if bool_decide (1440 > _round15 (startMin r))
               then pushDay d (mkRange (_round15 (startMin r)) 1440)
               else id) acc.1),
           true)) ∧
     (startMin r < endMin r → _round15 (startMin r) = _round15 (endMin r) →
        normRange d acc r = acc) ∧
     (startMin r = endMin r → normRange d acc r = acc) ∧
     (startMin r < endMin r → _round15 (startMin r) ≠ _round15 (endMin r) →
        normRange d acc r =
          (pushDay d (mkRange (_round15 (startMin r)) (_round15 (endMin r))) acc.1,
           acc.2))).
Proof.
  intros out. split_and!.
  - unfold out. rewrite normalizeAndClip_week. by rewrite length_fmap.
  - intros d day Hday.
    apply normalizeAndClip_week_lookup in Hday as [Hd ->].
    destruct (clipDay_okRuns taskKey (dayOf (Some (splitQuantize weekRanges).1) d)
                (default [] (_buildOccupancyMap st taskKey !! d))) as [Hruns Hlen].
    split_and!.
    + eapply Forall_impl; [by apply (okRuns_Forall _ _ _ Hruns)|].
      simpl. intros r Hr. split_and!; [apply Hr|apply Hr|lia|apply Hr|apply Hr].
    + intros i j ri rj Hij Hi Hj.
      pose proof (okRuns_gap _ _ _ _ _ _ _ Hruns Hij Hi Hj) as Hgap.
      split; [|done].
      pose proof (okRuns_Forall _ _ _ Hruns) as HF.
      rewrite -> Forall_lookup in HF. specialize (HF i ri Hi). simpl in HF. lia.
    + done.
    + apply clipDay_take.
  - apply normRange_cases.
Qed.

Lemma normalize_clip_output_invariants_witness :
  let r := mkRange 1380 60 in
  int32Range r ∧ endMin r < startMin r ∧
  normRange 6 (_blankWeekRanges, false) r =
    ([[mkRange 0 60]; []; []; []; []; []; [mkRange 1380 1440]], true).
Proof.
  intros r.
  assert (Hr : int32Range r) by (unfold int32Range, r; simpl; lia).
  assert (Hlt : endMin r < startMin r) by (unfold r; simpl; lia).
  split; [exact Hr|]. split; [exact Hlt|].
  pose proof (normalize_clip_output_invariants sampleToday
                (construct sampleToday sampleTasks) ScToday "work" []) as H.
  cbv zeta in H. destruct H as (_ & _ & H).
  destruct (H 6%nat (_blankWeekRanges, false) r Hr) as (H1 & _).
  etrans; [exact (H1 Hlt)|]. by vm_compute.
Defined.

(** ** The occupancy map seen by the task that is saved *)

Lemma foldl_ext_in {A B} (f g : A → B → A) (l : list B) (a : A) :
  (∀ acc x, x ∈ l → f acc x = g acc x) → foldl f a l = foldl g a l.
Proof.
  revert a. induction l as [|x l IH]; intros a H; simpl; [done|].
  rewrite -> H by (apply elem_of_cons; by left).
  apply IH. intros acc y Hy. apply H. apply elem_of_cons; by right.
Qed.

Lemma buildOccupancyMap_filter (st : WeekCore) (excludeTaskKey : string) :
  _buildOccupancyMap st excludeTaskKey =
    applyTasks st (filter (λ k, k ≠ excludeTaskKey) (orderedTasks st)) _blankWeekSlots.
Proof.
  unfold _buildOccupancyMap, applyTasks.
  generalize _blankWeekSlots. generalize (orderedTasks st).
  intros ks. induction ks as [|k ks IH]; intros occ; simpl; [done|].
  rewrite filter_cons. case_bool_decide as Hk.
  - rewrite -> decide_False by (intros ?; done). apply IH.
  - rewrite -> decide_True by done. simpl. apply IH.
Qed.

(** The resolver reads the store only at the task's own entries. *)
Lemma effective_ext (st st' : WeekCore) (k : string) :
  visibleWeekFirst st' = visibleWeekFirst st →
  EXACT st' !! k = EXACT st !! k →
  (∀ k1, lookup2 (byWeek (EXCEPTIONS st')) k1 k = lookup2 (byWeek (EXCEPTIONS st)) k1 k) →
  (∀ k1, lookup2 (byMonth (EXCEPTIONS st')) k1 k = lookup2 (byMonth (EXCEPTIONS st)) k1 k) →
  (∀ k1, lookup2 (byDate (EXCEPTIONS st')) k1 k = lookup2 (byDate (EXCEPTIONS st)) k1 k) →
  _effectiveExactForTask st' k = _effectiveExactForTask st k.
Proof.
  intros Hv HE HW HM HD. apply list_eq. intros d.
  destruct (decide (d < 7)%nat) as [Hd|Hd].
  - rewrite -> !effective_lookup by done. unfold scopedWeek.
    by rewrite Hv HE HW HM HD.
  - rewrite -> !lookup_ge_None_2; [done|rewrite effective_length; lia..].
Qed.

Lemma saveRanges_view (today : Z) (st : WeekCore) (taskKey : string)
    (scope : Scope) (weekRanges : WeekRanges) :
  TASKS (saveRanges today st taskKey scope weekRanges) = TASKS st ∧
  visibleWeekFirst (saveRanges today st taskKey scope weekRanges) = visibleWeekFirst st.
Proof. by destruct scope. Qed.

(** Saving one task leaves the effective ranges of every other task. *)
Lemma saveRanges_effective_other (today : Z) (st : WeekCore) (taskKey k : string)
    (scope : Scope) (weekRanges : WeekRanges) :
  k ≠ taskKey →
  _effectiveExactForTask (saveRanges today st taskKey scope weekRanges) k
  = _effectiveExactForTask st k.
Proof.
  intros Hk. apply effective_ext.
  - apply saveRanges_view.
  - destruct scope; simpl; [|done..]. by rewrite -> lookup_insert_ne by done.
  - intros k1. destruct scope; simpl; [done| |done..].
    rewrite lookup2_insert2. by rewrite -> bool_decide_false by (by intros [_ ?]).
  - intros k1. destruct scope; simpl; [done|done| |done].
    rewrite lookup2_insert2. by rewrite -> bool_decide_false by (by intros [_ ?]).
  - intros k1. destruct scope; [done..|].
    rewrite saveRanges_today_byDate. cbv zeta.
    rewrite !lookup2_writeOrDeleteDate.
    by rewrite -> !bool_decide_false by (by intros [_ ?]).
Qed.

(** ... and their effective sequence. *)
Lemma saveRanges_seq_other (today : Z) (st : WeekCore) (taskKey k : string)
    (scope : Scope) (weekRanges : WeekRanges) :
  k ≠ taskKey →
  seqForTask (saveRanges today st taskKey scope weekRanges) k = seqForTask st k.
Proof.
  intros Hk. unfold seqForTask, definedSeqs.
  destruct (saveRanges_view today st taskKey scope weekRanges) as [_ ->].
  pose proof (saveRanges_stamps today st taskKey scope weekRanges) as H.
  cbv zeta in H.
  set (st' := saveRanges today st taskKey scope weekRanges) in *.
  assert (Hst : ∀ b, (∀ a, saveAddr st scope taskKey = Some a → b ≠ a) →
                     stampAt st' b = stampAt st b).
  { intros b Hb. destruct (saveAddr st scope taskKey) as [a|].
    - destruct H as [H _]. rewrite H. by rewrite -> bool_decide_false by eauto.
    - by destruct H as [H _]. }
  assert (Hne : ∀ b, (b = AtWeek (_fmtWeekKey (visibleWeekFirst st)) k ∨
                      b = AtMonth (_fmtMonthKey (visibleWeekFirst st)) k ∨
                      b = AtRecurring k) →
                     ∀ a, saveAddr st scope taskKey = Some a → b ≠ a).
  { intros b Hb a Ha Heq. subst a.
    destruct scope; simpl in Ha; destruct Hb as [-> | [-> | -> ]]; congruence. }
  pose proof (Hst _ (Hne _ (or_introl eq_refl))) as E1.
  pose proof (Hst _ (Hne _ (or_intror (or_introl eq_refl)))) as E2.
  pose proof (Hst _ (Hne _ (or_intror (or_intror eq_refl)))) as E3.
  simpl in E1, E2, E3. by rewrite E1 E2 E3.
Qed.

(** The occupancy map that excludes the saved task is the same before
    and after the save. *)
Lemma saveRanges_occupancy (today : Z) (st : WeekCore) (taskKey : string)
    (scope : Scope) (weekRanges : WeekRanges) :
  _buildOccupancyMap (saveRanges today st taskKey scope weekRanges) taskKey
  = _buildOccupancyMap st taskKey.
Proof.
  rewrite !buildOccupancyMap_filter. unfold orderedTasks.
  destruct (saveRanges_view today st taskKey scope weekRanges) as [-> _].
  rewrite !filter_sortByKey.
  set (st' := saveRanges today st taskKey scope weekRanges).
  set (others := filter (λ k, k ≠ taskKey) (key <$> TASKS st)).
  assert (Hothers : Forall (λ k, k ≠ taskKey) others).
  { apply Forall_forall. intros k Hk. by apply list_elem_of_filter in Hk as [? _]. }
  rewrite (sortByKey_ext (seqForTask st') (seqForTask st) others).
  { eapply Forall_impl; [exact Hothers|]. intros k Hk.
    by apply saveRanges_seq_other. }
  unfold applyTasks. apply foldl_ext_in. intros occ k Hk. unfold st'.
  rewrite -> saveRanges_effective_other; [done|].
  rewrite -> sortByKey_perm in Hk.
  rewrite -> Forall_forall in Hothers. by apply Hothers.
Qed.

(** ** Requested slots *)

Lemma mark_lookup (l : list Z) (req : list bool) (i : nat) :
  Forall (λ s, 0 ≤ s) l →
  foldl (λ req s, <[Z.to_nat s := true]> req) req l !! i
  = (λ x, x || bool_decide (Z.of_nat i ∈ l)) <$> req !! i.
Proof.
  intros Hl. revert req. induction Hl as [|s l Hs Hl IH]; intros req; simpl.
  - destruct (req !! i) as [x|]; [|done]. simpl. by rewrite orb_false_r.
  - rewrite IH. destruct (decide (i = Z.to_nat s)) as [->|Hne].
    + destruct (decide (Z.to_nat s < length req)%nat) as [Hlt|Hge].
      * rewrite -> list_lookup_insert_eq by done.
        destruct (lookup_lt_is_Some_2 req _ Hlt) as [x ->]. simpl.
        rewrite -> (bool_decide_true (_ ∈ s :: l)); [by rewrite orb_true_r|].
        apply elem_of_cons. left. lia.
      * rewrite -> list_insert_ge by lia.
        by rewrite -> lookup_ge_None_2 by lia.
    + rewrite -> list_lookup_insert_ne by done.
      destruct (req !! i) as [x|]; [|done]. simpl. f_equal. f_equal.
      apply bool_decide_ext. rewrite elem_of_cons. split; [tauto|].
      intros [Heq|?]; [|done]. lia.
Qed.

Lemma requested_fold (day : DayRanges) (req : list bool) (i : nat) :
  foldl (λ req r,
           foldl (λ req s, <[Z.to_nat s := true]> req) req
                 (loopSlots (_minsToSlot (startMin r)) (_minsToSlot (endMin r))))
        req day !! i
  = (λ x, x || covered day i) <$> req !! i.
Proof.
  revert req. induction day as [|r day IH]; intros req; simpl.
  - destruct (req !! i); [|done]. simpl. by rewrite orb_false_r.
  - rewrite IH. rewrite mark_lookup.
    { apply Forall_forall. intros s Hs%elem_of_loopSlots.
      pose proof (minsToSlot_bounds (startMin r)). lia. }
    destruct (req !! i) as [x|]; [|done]. simpl. f_equal.
    rewrite <- orb_assoc. f_equal. f_equal.
    apply bool_decide_ext. apply elem_of_loopSlots.
Qed.

Lemma requested_lookup (day : DayRanges) (i : nat) :
  (i < 96)%nat → requested day !! i = Some (covered day i).
Proof.
  intros Hi. unfold requested. rewrite requested_fold.
  by rewrite -> lookup_replicate_2 by (unfold SLOTS_PER_DAY; lia).
Qed.

Lemma covered_cons_run (s e : nat) (l : DayRanges) (i : nat) :
  (e ≤ 96)%nat → (s ≤ e)%nat →
  covered (mkRange (Z.of_nat s * 15) (Z.of_nat e * 15) :: l) i
  = bool_decide (s ≤ i < e)%nat || covered l i.
Proof.
  intros He Hs. unfold covered. simpl.
  rewrite -> !minsToSlot_mul by (unfold SLOTS_PER_DAY; lia).
  f_equal. apply bool_decide_ext. lia.
Qed.

Lemma covered_below (ok : nat → bool) (lo : nat) (l : DayRanges) (i : nat) :
  okRuns ok lo l → (i < lo)%nat → covered l i = false.
Proof.
  revert lo. induction l as [|r l IH]; intros lo Hl Hi; [done|].
  destruct Hl as (s & e & Hs & He & -> & _ & Hl).
  rewrite -> covered_cons_run by lia.
  rewrite -> bool_decide_false by lia. simpl. eapply IH; [done|lia].
Qed.

Lemma covered_ok (ok : nat → bool) (lo : nat) (l : DayRanges) (i : nat) :
  okRuns ok lo l → covered l i = true → ok i = true.
Proof.
  revert lo. induction l as [|r l IH]; intros lo Hl Hi; [done|].
  destruct Hl as (s & e & Hs & He & -> & Hall & Hl).
  rewrite -> covered_cons_run in Hi by lia.
  apply orb_true_iff in Hi as [Hi%bool_decide_eq_true|Hi]; [by apply Hall|].
  by eapply IH.
Qed.

(** Sweeping exactly the slots of a list of separated runs gives the
    list back. *)
Lemma sweepRuns_of_runs (ok p : nat → bool) (l : DayRanges) (lo s fuel : nat) :
  okRuns ok lo l → (s ≤ lo)%nat →
  (∀ i, (s ≤ i < 96)%nat → p i = covered l i) →
  (96 - s ≤ fuel)%nat →
  sweepRuns fuel p s [] = l.
Proof.
  revert lo s fuel. induction l as [|r l IH]; intros lo s fuel Hl Hs Hp Hfuel.
  - destruct fuel as [|fuel]; [done|].
    destruct (decide (s < 96)%nat) as [Hlt|Hge].
    + rewrite -> sweepRuns_step by done. cbv zeta.
      rewrite -> (scanWhile_stop _ s 96); [done|lia|lia| |lia].
      intros i Hi. by rewrite -> Hp by lia.
    + rewrite sweepRuns_S. unfold SLOTS_PER_DAY.
      by rewrite -> bool_decide_false by lia.
  - pose proof Hl as (a & b & Ha & Hb & -> & _ & Hl').
    assert (Hcov : ∀ i, (s ≤ i < 96)%nat →
              p i = bool_decide (a ≤ i < b)%nat || covered l i).
    { intros i Hi. rewrite -> Hp by done. apply covered_cons_run; lia. }
    destruct fuel as [|fuel]; [lia|].
    rewrite -> sweepRuns_step by lia. cbv zeta.
    rewrite -> (scanWhile_stop _ s a); [|lia|lia| |].
    + rewrite -> bool_decide_false by lia.
      rewrite -> (scanWhile_stop _ (S a) b); [|lia|lia| |].
      * f_equal. apply (IH (S b)); [done|lia| |lia].
        intros i Hi. rewrite -> Hcov by lia.
        by rewrite -> bool_decide_false by lia.
      * intros i Hi. rewrite -> Hcov by lia.
        by rewrite -> bool_decide_true by lia.
      * intros Hb96. rewrite -> Hcov by lia.
        rewrite -> bool_decide_false by lia. simpl.
        eapply covered_below; [exact Hl'|lia].
    + intros i Hi. rewrite -> Hcov by lia.
      rewrite -> bool_decide_false by lia. simpl.
      erewrite covered_below; [done|exact Hl'|lia].
    + intros Ha96. rewrite -> Hcov by lia.
      by rewrite -> bool_decide_true by lia.
Qed.

(** Clipping a day's own clipped ranges against the same occupancy row
    returns them. *)
Lemma clipDay_fixed (taskKey : string) (normDay : DayRanges) (occRow : DaySlots) :
  let day := clipDay taskKey normDay occRow in
  clipDay taskKey day occRow = day.
Proof.
  intros day.
  destruct (clipDay_okRuns taskKey normDay occRow) as [Hruns Hlen].
  fold day in Hruns, Hlen.
  rewrite clipDay_take.
  rewrite -> (sweepRuns_of_runs (grantable taskKey (requested normDay) occRow)
                _ day 0 0); [by rewrite -> take_ge by lia|done|done| |].
  - intros i Hi. unfold grantable at 1.
    rewrite -> requested_lookup by lia. simpl.
    destruct (covered day i) eqn:Hc; [|done]. simpl.
    pose proof (covered_ok _ _ _ _ Hruns Hc) as Hok.
    unfold grantable in Hok. by apply andb_true_iff in Hok as [_ ?].
  - unfold SLOTS_PER_DAY. lia.
Qed.

(** ** Re-submitting clipped ranges *)

Lemma normRange_run (d : nat) (acc : WeekRanges * bool) (s e : nat) :
  (s < e)%nat → (e ≤ 96)%nat →
  normRange d acc (mkRange (Z.of_nat s * 15) (Z.of_nat e * 15))
  = (pushDay d (mkRange (Z.of_nat s * 15) (Z.of_nat e * 15)) acc.1, acc.2).
Proof.
  intros Hs He.
  destruct (normRange_cases d acc (mkRange (Z.of_nat s * 15) (Z.of_nat e * 15)))
    as (_ & _ & _ & H).
  { unfold int32Range. simpl. lia. }
  simpl in H. rewrite !round15_fixed in H. apply H; lia.
Qed.

Lemma foldl_normRange_runs (ok : nat → bool) (lo d : nat) (day : DayRanges)
    (acc : WeekRanges * bool) :
  okRuns ok lo day →
  foldl (normRange d) acc day = (alter (λ x, x ++ day) d acc.1, acc.2).
Proof.
  revert lo acc. induction day as [|r day IH]; intros lo acc Hday; simpl.
  - destruct acc as [norm had]. simpl. f_equal. symmetry.
    apply list_alter_id. intros x. apply app_nil_r.
  - destruct Hday as (s & e & Hs & He & -> & _ & Hday).
    rewrite -> normRange_run by lia. rewrite (IH (S e)); [done|]. simpl.
    unfold pushDay. rewrite list_alter_alter_eq. f_equal.
    apply list_alter_ext; [|done]. intros x _. simpl. by rewrite <- app_assoc.
Qed.

(** Step 1 returns a week of clipped days as it is, with no overnight
    split. *)
Lemma splitQuantize_runs (w : WeekRanges) :
  length w = 7%nat →
  (∀ d day, w !! d = Some day → ∃ ok lo, okRuns ok lo day) →
  splitQuantize w = (w, false).
Proof.
  intros Hlen Hdays. unfold splitQuantize.
  rewrite (foldl_ext_in _
             (λ acc d, (alter (λ x, x ++ dayOf (Some w) d) d acc.1, acc.2))).
  { intros acc d _. unfold dayOf. simpl.
    destruct (w !! d) as [day|] eqn:Hd; simpl.
    - destruct (Hdays d day Hd) as (ok & lo & Hok). by eapply foldl_normRange_runs.
    - exact (foldl_normRange_runs (λ _, true) 0%nat d [] acc I). }
  destruct w as [|d0 [|d1 [|d2 [|d3 [|d4 [|d5 [|d6 [|? ?]]]]]]]]; try done.
Qed.

Lemma week_clipped_runs (today : Z) (st : WeekCore) (scope : Scope)
    (taskKey : string) (weekRanges : WeekRanges) :
  let w := week (_normalizeAndClip today st scope taskKey weekRanges) in
  length w = 7%nat ∧ ∀ d day, w !! d = Some day → ∃ ok lo, okRuns ok lo day.
Proof.
  intros w. split.
  - unfold w. rewrite normalizeAndClip_week. by rewrite length_fmap.
  - intros d day Hday. apply normalizeAndClip_week_lookup in Hday as [_ ->].
    eexists _, 0%nat. apply clipDay_okRuns.
Qed.

Lemma week_fixed_point (today today' : Z) (st : WeekCore) (scope scope' : Scope)
    (taskKey : string) (weekRanges : WeekRanges) :
  let res := _normalizeAndClip today st scope taskKey weekRanges in
  let st' := saveRanges today st taskKey scope weekRanges in
  week (_normalizeAndClip today' st' scope' taskKey (week res)) = week res.
Proof.
  intros res st'.
  destruct (week_clipped_runs today st scope taskKey weekRanges) as [Hlen Hruns].
  fold res in Hlen, Hruns.
  assert (Hweek : week res =
            (λ d, clipDay taskKey (dayOf (Some (splitQuantize weekRanges).1) d)
                    (default [] (_buildOccupancyMap st taskKey !! d))) <$> seq 0 7)
    by apply normalizeAndClip_week.
  rewrite (normalizeAndClip_week today' st'). unfold st'.
  rewrite saveRanges_occupancy.
  rewrite -> (splitQuantize_runs (week res)) by done. cbn [fst].
  etrans; [|symmetry; exact Hweek].
  apply list_fmap_ext. intros i d Hd.
  apply lookup_seq in Hd as [-> Hi]. rewrite Nat.add_0_l.
  assert (Hday : dayOf (Some (week res)) i =
                 clipDay taskKey (dayOf (Some (splitQuantize weekRanges).1) i)
                   (default [] (_buildOccupancyMap st taskKey !! i))).
  { unfold dayOf at 1. cbn [mbind option_bind].
    rewrite Hweek list_lookup_fmap.
    rewrite -> lookup_seq_lt by done. by rewrite Nat.add_0_l. }
  rewrite Hday. apply clipDay_fixed.
Qed.

(** C2, as stated, fails: on Thursday 2025-09-04 a today-scope save of
    23:00 -> 01:00 returns the spill-over [0, 60) for the next date; the
    returned week, submitted again, has no wrapping range, so the second
    result has an empty spill-over (and the second save deletes the next
    date's entry). *)
Lemma clip_fixed_point_counterexample : ¬ clipFixedPointClaim.
Proof.
  intros H.
  specialize (H 20335 (construct 20335 sampleTasks) "work" ScToday
                [[]; []; []; []; [mkRange 1380 60]]).
  vm_compute in H. discriminate H.
Qed.

(** C2 (amended). When the week returned by the normalise-and-clip step
    of a save is submitted again for the same task after that save, the
    week of the second result is identical to the first, at every scope.
    The second spill-over list is always empty, so the two results are
    identical as a whole exactly when the first spill-over was empty,
    which is the case at recurring, week and month scope and whenever the
    submitted ranges had no overnight split. *)
Theorem clip_week_fixed_point (today today' : Z) (st : WeekCore)
    (taskKey : string) (scope : Scope) (weekRanges : WeekRanges) :
  let res := _normalizeAndClip today st scope taskKey weekRanges in
  let st' := saveRanges today st taskKey scope weekRanges in
  let res' := _normalizeAndClip today' st' scope taskKey (week res) in
  week res' = week res ∧
  spillNextDay res' = [] ∧
  (spillNextDay res = [] → res' = res) ∧
  (scope ≠ ScToday → res' = res) ∧
  ((splitQuantize weekRanges).2 = false → res' = res).
Proof.
  intros res st' res'.
  assert (Hweek : week res' = week res) by apply week_fixed_point.
  assert (Hspill : spillNextDay res' = []).
  { apply splitQuantize_no_overnight_spill.
    destruct (week_clipped_runs today st scope taskKey weekRanges) as [Hlen Hruns].
    by rewrite -> splitQuantize_runs by done. }
  assert (Hsame : spillNextDay res = [] → res' = res).
  { intros Hres. destruct res' as [w' s'], res as [w s]. simpl in *. congruence. }
  split_and!; [done|done|done| |].
  - intros Hscope. apply Hsame.
    destruct (decide (spillNextDay res = [])) as [|Hne]; [done|].
    by apply spill_needs_overnight in Hne as [? _].
  - intros Hno. apply Hsame. by apply splitQuantize_no_overnight_spill.
Qed.

Lemma clip_week_fixed_point_witness :
  let st := construct sampleToday sampleTasks in
  let weekRanges := [[mkRange 607 600; mkRange 30 50]; [mkRange 1380 60]] in
  let res := _normalizeAndClip sampleToday st ScWeek "work" weekRanges in
  ScWeek ≠ ScToday ∧
  _normalizeAndClip sampleToday (saveRanges sampleToday st "work" ScWeek weekRanges)
    ScWeek "work" (week res) = res.
Proof.
  intros st weekRanges res.
  assert (Hscope : ScWeek ≠ ScToday) by done.
  split; [exact Hscope|].
  pose proof (clip_week_fixed_point sampleToday sampleToday st "work" ScWeek
                weekRanges) as H.
  cbv zeta in H. destruct H as (_ & _ & _ & H & _). exact (H Hscope).
Defined.

(** ** Stamps beyond the stand-in for "no stamp" *)

(** C3, as stated, fails: after [setState] gave a new engine an [ORDER]
    in which [a] carries the recurring stamp 2000000000, above the 1e9
    that stands for "no stamp", the unstamped [b] is processed first. *)
Lemma unstamped_sorts_last_counterexample : ¬ unstampedLastClaim.
Proof.
  intros H.
  specialize (H sampleToday twoTasks None None (Some lateStampOrder) None [] "a" "b").
  cbv zeta in H.
  set (st := performAll _ _) in H.
  assert (Ho : orderedTasks st = ["b"; "a"]) by (by vm_compute).
  assert (HT : key <$> TASKS st = ["a"; "b"]) by (by vm_compute).
  assert (Hda : definedSeqs st "a" = [2000000000]) by (by vm_compute).
  assert (Hdb : definedSeqs st "b" = []) by (by vm_compute).
  rewrite Ho HT Hda in H. clearbody st.
  destruct H as (l1 & l2 & l3 & Heq).
  - apply list_elem_of_here.
  - apply list_elem_of_further, list_elem_of_here.
  - done.
  - exact Hdb.
  - destruct l1 as [|x [|y [|z l1]]]; simplify_list_eq.
    destruct l2 as [|y l2]; simplify_list_eq.
Qed.

(** ** Import

    [setState] replaces the stores and leaves the save counter where it
    is; the counter is not part of what [getState] exports.  The stamps
    of an imported [ORDER] are therefore unrelated to the counter: in a
    new engine that imports the stamps of [sampleEngine] ([work] is
    stamped 1 at recurring scope), the first save of [commute] at
    recurring scope is stamped 1 as well. *)

Lemma setState_keeps_counter (exact : option (gmap string (list (list Range))))
    (exceptions : option Exceptions) (order : option Order)
    (lastScope : option (gmap string Scope)) (st : WeekCore) :
  _saveSeq (setState exact exceptions order lastScope st) = _saveSeq st.
Proof. reflexivity. Qed.

Lemma import_then_save_reuses_stamp :
  let imported := setState (Some (EXACT sampleEngine)) (Some (EXCEPTIONS sampleEngine))
                    (Some (ORDER sampleEngine)) (Some (LAST_SCOPE sampleEngine))
                    (construct sampleToday sampleTasks) in
  let st := saveRanges sampleToday imported "commute" ScRecurring [] in
  stampAt imported (AtRecurring "work") = Some 1 ∧
  stampAt st (AtRecurring "commute") = Some 1.
Proof. by vm_compute. Qed.


(** * Further properties of the engine *)

(** ** Quantisation helpers *)

(** X1. [_round15] gives the multiple of 15 nearest to an integer minute
    value of at most [15 * 2^49] in absolute value: it is a multiple of
    15 at distance at most 7, the only such multiple, it lies within the
    same bound, and rounding a rounded value changes nothing. *)
Theorem round15_nearest_multiple (m : Z) :
  exactQuotient m →
  (15 | _round15 m) ∧
  -7 ≤ _round15 m - m ≤ 7 ∧
  (∀ k, -7 ≤ 15 * k - m ≤ 7 → _round15 m = 15 * k) ∧
  exactQuotient (_round15 m) ∧
  _round15 (_round15 m) = _round15 m.
Proof.
  intros Hm.
  assert (Hr : _round15 m = (m + 7) `div` 15 * 15).
  { unfold _round15. by rewrite math_round_div15_nearest. }
  pose proof (Z.div_mod (m + 7) 15 ltac:(lia)) as Hdm.
  pose proof (Z.mod_pos_bound (m + 7) 15 ltac:(lia)) as Hmb.
  split_and!.
  - apply round15_multiple.
  - lia.
  - lia.
  - intros k Hk. rewrite Hr. nia.
  - unfold exactQuotient in *. rewrite Hr.
    change (2 ^ 49) with 562949953421312 in *. lia.
  - rewrite Hr. apply round15_fixed.
Qed.

Lemma round15_nearest_multiple_witness : exactQuotient 608 ∧ _round15 608 = 15 * 41.
Proof.
  assert (Hm : exactQuotient 608) by (by vm_compute).
  split; [exact Hm|].
  destruct (round15_nearest_multiple 608 Hm) as (_ & _ & H & _).
  apply H. lia.
Defined.


(** X2. Minutes and slots: a slot number survives the way to minutes and
    back; rounding to 15 before converting changes no slot; inside a day
    the slot is the rounded minute value over 15; and the conversion is
    monotone. *)
Theorem minsToSlot_round_trip :
  (∀ s, 0 ≤ s ≤ 96 → _minsToSlot (s * 15) = s) ∧
  (∀ m, _minsToSlot (_round15 m) = _minsToSlot m) ∧
  (∀ m, 0 ≤ m ≤ 1440 → _minsToSlot m * 15 = _round15 m) ∧
  (∀ a b, a ≤ b → _minsToSlot a ≤ _minsToSlot b).
Proof.
  split_and!.
  - intros s Hs. by apply minsToSlot_mul.
  - intros m. unfold _minsToSlot, _round15. by rewrite math_round_div15_mul.
  - intros m Hm. unfold _minsToSlot, _round15, SLOTS_PER_DAY.
    pose proof (math_round_div15_mono 0 m ltac:(lia)) as H0.
    pose proof (math_round_div15_mono m 1440 ltac:(lia)) as H1.
    change (math_round_div15 0) with 0 in H0.
    change (math_round_div15 1440) with 96 in H1. lia.
  - intros a b Hab. unfold _minsToSlot.
    pose proof (math_round_div15_mono a b Hab). lia.
Qed.

Lemma minsToSlot_round_trip_witness :
  _minsToSlot (37 * 15) = 37 ∧ _minsToSlot 608 * 15 = _round15 608.
Proof.
  destruct minsToSlot_round_trip as (H1 & _ & H3 & _).
  split; [apply H1; lia | apply H3; lia].
Defined.

(** ** Seven-day copies *)

Lemma deepCopyWeek_id (w : WeekRanges) :
  length w = 7%nat → _deepCopyWeek (Some w) = w.
Proof.
  intros Hw. apply list_eq. intros d.
  destruct (decide (d < 7)%nat) as [Hd|Hd].
  - rewrite -> deepCopyWeek_lookup by done. unfold dayOf. simpl.
    destruct (w !! d) eqn:E; [done|].
    apply lookup_ge_None in E. lia.
  - rewrite -> lookup_ge_None_2 by (rewrite deepCopyWeek_length; lia).
    by rewrite -> lookup_ge_None_2 by lia.
Qed.

(** X3. [_deepCopyWeek] always gives seven days: day [d] holds the ranges
    of day [d] of its argument, and no ranges when the argument or that
    day is missing; days beyond the seventh are dropped; a week of seven
    days is copied as it is, so copying twice is copying once. *)
Theorem deepCopyWeek_seven_days (w : option WeekRanges) :
  length (_deepCopyWeek w) = 7%nat ∧
  (∀ d, (d < 7)%nat → _deepCopyWeek w !! d = Some (dayOf w d)) ∧
  _deepCopyWeek None = _blankWeekRanges ∧
  (∀ w', _deepCopyWeek (Some w') = _deepCopyWeek (Some (take 7 w'))) ∧
  (∀ w', length w' = 7%nat → _deepCopyWeek (Some w') = w') ∧
  _deepCopyWeek (Some (_deepCopyWeek w)) = _deepCopyWeek w.
Proof.
  split_and!.
  - apply deepCopyWeek_length.
  - intros d Hd. by apply deepCopyWeek_lookup.
  - done.
  - intros w'. apply list_eq. intros d.
    destruct (decide (d < 7)%nat) as [Hd|Hd].
    + rewrite -> !deepCopyWeek_lookup by done. unfold dayOf. simpl.
      by rewrite -> lookup_take_lt by done.
    + by rewrite -> !lookup_ge_None_2 by (rewrite deepCopyWeek_length; lia).
  - apply deepCopyWeek_id.
  - apply deepCopyWeek_id, deepCopyWeek_length.
Qed.

Lemma deepCopyWeek_seven_days_witness :
  _deepCopyWeek (Some [[mkRange 0 60]; []; []; []; []; []; [mkRange 0 15]])
  = [[mkRange 0 60]; []; []; []; []; []; [mkRange 0 15]].
Proof.
  destruct (deepCopyWeek_seven_days None) as (_ & _ & _ & _ & H & _).
  apply H. reflexivity.
Defined.

(** ** Segments of a day *)

Lemma mergeLoop_S (fuel : nat) (day : DaySlots) (i : nat) (segs : list Segment) :
  mergeLoop (S fuel) day i segs =
    if bool_decide (Z.of_nat i < SLOTS_PER_DAY) then
      let j := scanWhile (Z.to_nat SLOTS_PER_DAY)
                         (λ j, bool_decide (day !! j = day !! i)) (S i) in
      mergeLoop fuel day j (segs ++ [mkSegment (day !! i) i (j - i)])
    else segs.
Proof. done. Qed.

Lemma mergeLoop_app (fuel : nat) (day : DaySlots) (i : nat) (segs : list Segment) :
  mergeLoop fuel day i segs = segs ++ mergeLoop fuel day i [].
Proof.
  revert i segs. induction fuel as [|fuel IH]; intros i segs.
  - by rewrite /mergeLoop app_nil_r.
  - rewrite !mergeLoop_S. case_bool_decide; [|by rewrite app_nil_r].
    cbv zeta. rewrite IH. rewrite (IH _ ([] ++ _)). by rewrite -app_assoc.
Qed.

(** More fuel than [96 - i] changes nothing: the loop has ended. *)
Lemma mergeLoop_fuel (fuel fuel' : nat) (day : DaySlots) (i : nat)
    (segs : list Segment) :
  (96 - i ≤ fuel)%nat → (96 - i ≤ fuel')%nat →
  mergeLoop fuel day i segs = mergeLoop fuel' day i segs.
Proof.
  revert fuel' i segs.
  induction fuel as [|fuel IH]; intros [|fuel'] i segs H H'; try done.
  - rewrite mergeLoop_S. unfold SLOTS_PER_DAY.
    by rewrite -> bool_decide_false by lia.
  - rewrite mergeLoop_S. unfold SLOTS_PER_DAY.
    by rewrite -> bool_decide_false by lia.
  - rewrite !mergeLoop_S. case_bool_decide as Hi; [|done]. cbv zeta.
    destruct (scanWhile_spec (Z.to_nat SLOTS_PER_DAY)
                (λ j, bool_decide (day !! j = day !! i)) (S i)) as (A & _);
      [unfold SLOTS_PER_DAY; lia|].
    apply IH; lia.
Qed.

Lemma mergeLoop_runs (fuel : nat) (day : DaySlots) (i : nat) :
  (96 - i ≤ fuel)%nat → (i ≤ 96)%nat →
  maximalRuns day i (mergeLoop fuel day i []).
Proof.
  revert i. induction fuel as [|fuel IH]; intros i Hf Hi.
  - simpl. rewrite /mergeLoop /=. lia.
  - rewrite mergeLoop_S. unfold SLOTS_PER_DAY. case_bool_decide as Hlt.
    + cbv zeta.
      destruct (scanWhile_spec (Z.to_nat 96)
                  (λ j, bool_decide (day !! j = day !! i)) (S i))
        as (A & B & C & D); [lia|].
      set (j := scanWhile (Z.to_nat 96) _ (S i)) in *.
      specialize (B ltac:(lia)).
      rewrite mergeLoop_app. simpl.
      replace (i + (j - i))%nat with j by lia.
      split_and!; [done|lia|lia| | |apply IH; lia].
      * intros k Hk. destruct (decide (k = i)) as [->|Hne]; [done|].
        specialize (C k ltac:(lia)). by apply bool_decide_eq_true in C.
      * intros Hj. specialize (D Hj). by apply bool_decide_eq_false in D.
    + simpl. lia.
Qed.

Lemma expandSegments_cons (sg : Segment) (rest : list Segment) :
  expandSegments (sg :: rest) = replicate (len sg) (cat sg) ++ expandSegments rest.
Proof. done. Qed.

Lemma maximalRuns_expand (day : DaySlots) (i : nat) (segs : list Segment) :
  maximalRuns day i segs →
  expandSegments segs = (λ j, day !! j) <$> seq i (96 - i).
Proof.
  revert i. induction segs as [|sg rest IH]; intros i H; simpl in H.
  - subst i. done.
  - destruct H as (Hs & Hl & Hle & Hc & _ & Hrest).
    rewrite expandSegments_cons (IH _ Hrest).
    replace (96 - i)%nat with (len sg + (96 - (i + len sg)))%nat by lia.
    rewrite seq_app fmap_app. f_equal.
    apply list_eq. intros k.
    destruct (decide (k < len sg)%nat) as [Hk|Hk].
    + rewrite -> lookup_replicate_2 by done.
      rewrite list_lookup_fmap. rewrite -> lookup_seq_lt by done. simpl.
      f_equal. symmetry. apply Hc. lia.
    + rewrite -> lookup_ge_None_2 by (rewrite length_replicate; lia).
      by rewrite -> lookup_ge_None_2 by (rewrite length_fmap length_seq; lia).
Qed.

Lemma maximalRuns_unique (day : DaySlots) (i : nat) (segs segs' : list Segment) :
  maximalRuns day i segs → maximalRuns day i segs' → segs = segs'.
Proof.
  revert i segs'. induction segs as [|sg rest IH]; intros i [|sg' rest'] H H';
    simpl in H, H'.
  - done.
  - lia.
  - lia.
  - destruct H as (Hs & Hl & Hle & Hc & Hn & Hrest).
    destruct H' as (Hs' & Hl' & Hle' & Hc' & Hn' & Hrest').
    assert (Hcat : cat sg = cat sg').
    { rewrite -(Hc i) // -?(Hc' i) //; lia. }
    assert (Hlen : len sg = len sg').
    { destruct (Nat.lt_trichotomy (len sg) (len sg')) as [Hlt|[Heq|Hgt]]; [|done|].
      - exfalso. apply Hn; [lia|]. rewrite Hcat. apply Hc'. lia.
      - exfalso. apply Hn'; [lia|]. rewrite -Hcat. apply Hc. lia. }
    assert (sg = sg') as ->.
    { destruct sg, sg'. simpl in *. congruence. }
    f_equal. eapply IH; [exact Hrest|exact Hrest'].
Qed.

Lemma maximalRuns_length (day : DaySlots) (i : nat) (segs : list Segment) :
  maximalRuns day i segs → (i + length segs ≤ 96)%nat ∧ ((i < 96)%nat → segs ≠ []).
Proof.
  revert i. induction segs as [|sg rest IH]; intros i H; simpl in H.
  - subst. simpl. split; [lia|lia].
  - destruct H as (Hs & Hl & Hle & Hc & Hn & Hrest).
    destruct (IH _ Hrest) as [IH1 _]. simpl. split; [lia|done].
Qed.

(** X4. [_mergeDay] is the run-length encoding of the 96 slots of a day:
    its segments are maximal runs of equal cells laid end to end from
    slot 0 to slot 96, no other list of segments is, painting the
    segments gives the day back, and there are between 1 and 96 of them.
    Cells past the end of a short array read as [undefined] and make a
    run of their own. *)
Theorem mergeDay_run_length (day : DaySlots) :
  maximalRuns day 0 (_mergeDay day) ∧
  (∀ segs, maximalRuns day 0 segs → segs = _mergeDay day) ∧
  expandSegments (_mergeDay day) = (λ i, day !! i) <$> seq 0 96 ∧
  (length day = 96%nat → expandSegments (_mergeDay day) = Some <$> day) ∧
  (1 ≤ length (_mergeDay day) ≤ 96)%nat ∧
  (∀ fuel, (96 ≤ fuel)%nat → mergeLoop fuel day 0 [] = _mergeDay day).
Proof.
  assert (Hruns : maximalRuns day 0 (_mergeDay day)).
  { apply mergeLoop_runs; unfold SLOTS_PER_DAY; lia. }
  assert (Hexp : expandSegments (_mergeDay day) = (λ i, day !! i) <$> seq 0 96).
  { by rewrite (maximalRuns_expand _ _ _ Hruns). }
  split_and!.
  - done.
  - intros segs Hs. by eapply maximalRuns_unique.
  - done.
  - intros Hlen. rewrite Hexp. apply list_eq. intros i.
    rewrite !list_lookup_fmap.
    destruct (decide (i < 96)%nat) as [Hi|Hi].
    + rewrite -> lookup_seq_lt by done. simpl.
      destruct (day !! i) eqn:E; [done|]. apply lookup_ge_None in E. lia.
    + rewrite -> (lookup_ge_None_2 (seq 0 96)) by (rewrite length_seq; lia).
      by rewrite -> lookup_ge_None_2 by lia.
  - destruct (maximalRuns_length _ _ _ Hruns) as [H1 H2].
    specialize (H2 ltac:(lia)). destruct (_mergeDay day); [done|simpl; lia].
  - destruct (maximalRuns_length _ _ _ Hruns) as [H1 H2]. lia.
  - intros fuel Hf. unfold _mergeDay. apply mergeLoop_fuel; unfold SLOTS_PER_DAY; lia.
Qed.

Lemma mergeDay_run_length_witness :
  let day := replicate 36 None ++ replicate 4 (Some "work") ++ replicate 56 None in
  expandSegments (_mergeDay day) = Some <$> day.
Proof.
  intros day.
  destruct (mergeDay_run_length day) as (_ & _ & _ & H & _).
  apply H. reflexivity.
Defined.

(** ** What the grid holds *)

Lemma cell_in_grid (slots : WeekSlots) (d s : nat) (c : option string) :
  gridShape slots → cell slots d s = Some c → (d < 7)%nat ∧ (s < 96)%nat.
Proof.
  intros [Hlen Hrows] Hc. unfold cell in Hc.
  destruct (slots !! d) as [row|] eqn:Hrow; [|done]. simpl in Hc.
  pose proof (lookup_lt_Some _ _ _ Hrow) as Hd.
  pose proof (lookup_lt_Some _ _ _ Hc) as Hs.
  rewrite -> Forall_lookup in Hrows. rewrite (Hrows _ _ Hrow) in Hs.
  unfold SLOTS_PER_DAY in Hs. lia.
Qed.

Lemma firstClaimant_Some (st : WeekCore) (ks : list string) (d s : nat) (k : string) :
  firstClaimant st ks d s = Some k →
  k ∈ ks ∧ (d, Z.of_nat s) ∈ weekVisits (_effectiveExactForTask st k).
Proof.
  unfold firstClaimant. intros H.
  apply head_Some_elem_of in H. by apply list_elem_of_filter in H as [? ?].
Qed.

Lemma firstClaimant_None (st : WeekCore) (ks : list string) (d s : nat) (k : string) :
  firstClaimant st ks d s = None → k ∈ ks →
  (d, Z.of_nat s) ∉ weekVisits (_effectiveExactForTask st k).
Proof.
  unfold firstClaimant. intros H Hk Hv.
  apply head_None in H.
  assert (k ∈ filter (λ k, (d, Z.of_nat s) ∈ weekVisits (_effectiveExactForTask st k)) ks)
    as Hin by (by apply list_elem_of_filter).
  rewrite H in Hin. by apply elem_of_nil in Hin.
Qed.

Lemma orderedTasks_elem (st : WeekCore) (k : string) :
  k ∈ orderedTasks st ↔ k ∈ key <$> TASKS st.
Proof. unfold orderedTasks. by rewrite sortByKey_perm. Qed.

Lemma rebuild_cell_key (st : WeekCore) (d s : nat) (k : string) :
  cell (_rebuildSlotsForVisibleWeek st) d s = Some (Some k) →
  k ∈ key <$> TASKS st ∧ (d, Z.of_nat s) ∈ weekVisits (_effectiveExactForTask st k).
Proof.
  intros Hc.
  assert (Hshape : gridShape (_rebuildSlotsForVisibleWeek st)).
  { unfold _rebuildSlotsForVisibleWeek. apply applyTasks_gridShape, blank_gridShape. }
  destruct (cell_in_grid _ _ _ _ Hshape Hc) as [Hd Hs].
  unfold _rebuildSlotsForVisibleWeek in Hc.
  rewrite applyTasks_cell in Hc. rewrite -> blank_cell in Hc by done.
  apply (inj Some) in Hc. apply firstClaimant_Some in Hc as [Hk Hv].
  split; [by apply orderedTasks_elem|done].
Qed.

Lemma rebuild_cell_free (st : WeekCore) (d s : nat) (k : string) :
  cell (_rebuildSlotsForVisibleWeek st) d s = Some None →
  k ∈ key <$> TASKS st →
  (d, Z.of_nat s) ∉ weekVisits (_effectiveExactForTask st k).
Proof.
  intros Hc Hk.
  assert (Hshape : gridShape (_rebuildSlotsForVisibleWeek st)).
  { unfold _rebuildSlotsForVisibleWeek. apply applyTasks_gridShape, blank_gridShape. }
  destruct (cell_in_grid _ _ _ _ Hshape Hc) as [Hd Hs].
  unfold _rebuildSlotsForVisibleWeek in Hc.
  rewrite applyTasks_cell in Hc. rewrite -> blank_cell in Hc by done.
  apply (inj Some) in Hc. eapply firstClaimant_None; [exact Hc|].
  by apply orderedTasks_elem.
Qed.

(** X5. The rendered grid shows catalog tasks only: a cell that holds a
    key holds the key of a catalog task whose effective ranges reach that
    cell, and an empty cell is one that no catalog task's effective
    ranges reach.  So after [replaceCatalog] the tasks that are no longer
    in the catalog are gone from the grid, while their ranges, exceptions
    and stamps stay in the store.  Putting the old catalog back brings
    back the catalog, and with it the grid that is rebuilt from the
    store, and leaves the render cache alone; the colors and labels are
    then the ones made from the old catalog, whatever [setColor] and
    [setLabel] had set. *)
Theorem rendered_grid_shows_catalog_only (e : Engine) (tasks : list Task) :
  let st := core e in
  let e' := Public.replaceCatalog tasks e in
  let st' := core e' in
  let back := Public.replaceCatalog (TASKS st) e' in
  (∀ d s k, cell (_rebuildSlotsForVisibleWeek st') d s = Some (Some k) →
     k ∈ key <$> tasks ∧
     (d, Z.of_nat s) ∈ weekVisits (_effectiveExactForTask st k)) ∧
  (∀ d s k, cell (_rebuildSlotsForVisibleWeek st') d s = Some None →
     k ∈ key <$> tasks →
     (d, Z.of_nat s) ∉ weekVisits (_effectiveExactForTask st k)) ∧
  (TASKS st' = tasks ∧
   EXACT st' = EXACT st ∧ EXCEPTIONS st' = EXCEPTIONS st ∧ ORDER st' = ORDER st ∧
   _saveSeq st' = _saveSeq st ∧ visibleWeekFirst st' = visibleWeekFirst st) ∧
  (core back = st ∧
   _rebuildSlotsForVisibleWeek (core back) = _rebuildSlotsForVisibleWeek st ∧
   _geom back = _geom e ∧ _allSlots back = _allSlots e ∧
   COLORS back = catalogMap color (TASKS st) ∧
   LABELS back = catalogMap label (TASKS st)).
Proof.
  intros st e' st' back.
  assert (Heff : ∀ k, _effectiveExactForTask st' k = _effectiveExactForTask st k)
    by done.
  split; [|split; [|split]].
  - intros d s k Hc. apply rebuild_cell_key in Hc. by rewrite Heff in Hc.
  - intros d s k Hc Hk. rewrite -Heff. by apply rebuild_cell_free.
  - done.
  - assert (Hcore : ∀ e0 : Engine,
              core (Public.replaceCatalog (TASKS (core e0))
                      (Public.replaceCatalog tasks e0)) = core e0)
      by (by intros [[] ? ? ? ?]).
    assert (Hback : core back = st) by apply Hcore.
    split; [exact Hback|]. split; [by rewrite Hback|]. done.
Qed.

Lemma rendered_grid_shows_catalog_only_witness :
  let e := mkEngine sampleEngine (catalogMap color sampleTasks)
             (catalogMap label sampleTasks) None _blankWeekSlots in
  let st' := core (Public.replaceCatalog [mkTask "chores" "Chores" "#3B41C5" true] e) in
  cell (_rebuildSlotsForVisibleWeek sampleEngine) 6 40 = Some (Some "work") ∧
  cell (_rebuildSlotsForVisibleWeek st') 6 40 = Some None ∧
  (6%nat, 40) ∉ weekVisits (_effectiveExactForTask sampleEngine "chores").
Proof.
  intros e st'.
  assert (H1 : cell (_rebuildSlotsForVisibleWeek sampleEngine) 6 40 = Some (Some "work"))
    by (by vm_compute).
  assert (H2 : cell (_rebuildSlotsForVisibleWeek st') 6 40 = Some None)
    by (by vm_compute).
  split; [exact H1|]. split; [exact H2|].
  destruct (rendered_grid_shows_catalog_only e
              [mkTask "chores" "Chores" "#3B41C5" true]) as (_ & H & _).
  apply (H 6%nat 40%nat "chores" H2). apply list_elem_of_here.
Defined.

(** ** Durations *)

Lemma foldl_count {A} (P : A → Prop) `{∀ x, Decision (P x)} (l : list A) (c : Z) :
  foldl (λ c x, if bool_decide (P x) then c + 1 else c) c l
  = c + Z.of_nat (length (filter P l)).
Proof.
  revert c. induction l as [|x l IH]; intros c; simpl; [lia|].
  rewrite IH. rewrite filter_cons. case_bool_decide.
  - rewrite decide_True //. simpl. lia.
  - rewrite decide_False //.
Qed.

Lemma length_filter_pair {A B} (P : A * B → Prop) `{∀ x, Decision (P x)}
    (a : A) (l : list B) :
  length (filter P ((λ b, (a, b)) <$> l)) = length (filter (λ b, P (a, b)) l).
Proof.
  induction l as [|b l IH]; [done|].
  rewrite fmap_cons !filter_cons.
  destruct (decide (P (a, b))); simpl; by rewrite IH.
Qed.

Lemma countMinutes_cells (slots : WeekSlots) (k : string) :
  _countMinutesForVisibleWeek slots k
  = 15 * countCells (λ c, c = Some (Some k)) slots.
Proof.
  unfold _countMinutesForVisibleWeek, countCells.
  change (Z.to_nat SLOTS_PER_DAY) with 96%nat.
  generalize (seq 0 96). intros ss.
  assert (G : ∀ ds c,
    foldl (λ count d,
             foldl (λ count s,
                      if bool_decide (cell slots d s = Some (Some k))
                      then count + 1 else count) count ss) c ds
    = c + Z.of_nat (length (filter (λ p : nat * nat, cell slots p.1 p.2 = Some (Some k))
                                   (d ← ds; (λ s, (d, s)) <$> ss)))).
  { induction ds as [|d ds IH]; intros c; [simpl; lia|].
    rewrite bind_cons filter_app length_app. cbn [foldl].
    rewrite IH. rewrite (foldl_count (λ s, cell slots d s = Some (Some k))).
    rewrite (length_filter_pair (λ p : nat * nat, cell slots p.1 p.2 = Some (Some k))).
    cbn [fst snd]. lia. }
  rewrite G. lia.
Qed.

Lemma sumZ_fmap_add {A} (f g : A → Z) (l : list A) :
  sumZ ((λ x, f x + g x) <$> l) = sumZ (f <$> l) + sumZ (g <$> l).
Proof. unfold sumZ. induction l as [|x l IH]; [done|]. rewrite !fmap_cons /=. lia. Qed.

Lemma sumZ_fmap_zero {A} (f : A → Z) (l : list A) :
  (∀ x, f x = 0) → sumZ (f <$> l) = 0.
Proof.
  intros Hf. unfold sumZ. induction l as [|x l IH]; [done|].
  rewrite fmap_cons /= IH Hf //.
Qed.

Lemma sumZ_indicator (keys : list string) (c : option (option string)) :
  NoDup keys →
  sumZ ((λ k, if bool_decide (c = Some (Some k)) then 1 else 0) <$> keys)
  = if bool_decide (c ∈ (λ k, Some (Some k)) <$> keys) then 1 else 0.
Proof.
  induction 1 as [|k keys Hk Hnd IH]; [done|].
  rewrite !fmap_cons. simpl. rewrite IH.
  destruct (decide (c = Some (Some k))) as [->|Hne].
  - rewrite bool_decide_true //.
    rewrite (bool_decide_true (_ ∈ _ :: _)); [apply elem_of_cons; by left|].
    rewrite bool_decide_false; [|lia].
    intros Hin. apply list_elem_of_fmap in Hin as (k' & Heq & Hin).
    by simplify_eq.
  - rewrite bool_decide_false //.
    case_bool_decide as Hin.
    + rewrite bool_decide_true; [apply elem_of_cons; by right|done].
    + rewrite bool_decide_false; [|done].
      intros [?|?]%elem_of_cons; done.
Qed.

Lemma count_partition {A} (c : A → option (option string)) (keys : list string)
    (l : list A) :
  NoDup keys →
  sumZ ((λ k, Z.of_nat (length (filter (λ x, c x = Some (Some k)) l))) <$> keys)
  + Z.of_nat (length (filter (λ x, c x ∉ (λ k, Some (Some k)) <$> keys) l))
  = Z.of_nat (length l).
Proof.
  intros Hnd. induction l as [|x l IH].
  - rewrite sumZ_fmap_zero; done.
  - rewrite (filter_cons (λ x, c x ∉ _)).
    assert (sumZ ((λ k, Z.of_nat (length (filter (λ x, c x = Some (Some k)) (x :: l)))) <$> keys)
            = sumZ ((λ k, (if bool_decide (c x = Some (Some k)) then 1 else 0)
                          + Z.of_nat (length (filter (λ x, c x = Some (Some k)) l))) <$> keys))
      as ->.
    { f_equal. apply list_fmap_ext. intros _ k _. rewrite filter_cons.
      case_bool_decide; [rewrite decide_True //|rewrite decide_False //].
      simpl. lia. }
    rewrite sumZ_fmap_add sumZ_indicator //.
    case_bool_decide as Hin.
    + rewrite decide_False; [by intros ?|]. simpl length. lia.
    + rewrite decide_True //. simpl length. lia.
Qed.

Lemma filter_ext_in {A} (P Q : A → Prop) `{∀ x, Decision (P x)}
    `{∀ x, Decision (Q x)} (l : list A) :
  (∀ x, x ∈ l → P x ↔ Q x) → filter P l = filter Q l.
Proof.
  induction l as [|x l IH]; intros Hl; [done|].
  rewrite !filter_cons.
  rewrite IH; [intros y Hy; apply Hl, elem_of_cons; by right|].
  pose proof (Hl x (list_elem_of_here _ _)) as Hx.
  destruct (decide (P x)), (decide (Q x)); tauto.
Qed.

Lemma countCells_bounds (P : option (option string) → Prop) `{∀ c, Decision (P c)}
    (slots : WeekSlots) :
  0 ≤ countCells P slots ≤ 672.
Proof.
  unfold countCells. split; [lia|].
  pose proof (length_filter (λ ds : nat * nat, P (cell slots ds.1 ds.2))
                (d ← seq 0 7; (λ s, (d, s)) <$> seq 0 96)) as Hle.
  change (length (d ← seq 0 7; (λ s, (d, s)) <$> seq 0 96)) with 672%nat in Hle.
  lia.
Qed.

Lemma getDurations_lookup (e : Engine) (k : string) :
  getDurations e !! k =
    if bool_decide (k ∈ key <$> TASKS (core e))
    then Some (_countMinutesForVisibleWeek (_allSlots e) k) else None.
Proof.
  unfold getDurations.
  assert (G : ∀ ts (out : gmap string Z),
    foldl (λ out t, <[key t := _countMinutesForVisibleWeek (_allSlots e) (key t)]> out)
          out ts !! k
    = if bool_decide (k ∈ key <$> ts)
      then Some (_countMinutesForVisibleWeek (_allSlots e) k) else out !! k).
  { induction ts as [|t ts IH]; intros out; cbn [foldl].
    - by rewrite -> bool_decide_false by (rewrite fmap_nil; apply not_elem_of_nil).
    - rewrite IH fmap_cons. case_bool_decide as Hin.
      + by rewrite -> bool_decide_true by (apply elem_of_cons; by right).
      + destruct (decide (key t = k)) as [<-|Hne].
        * rewrite lookup_insert_eq.
          by rewrite -> bool_decide_true by (apply elem_of_cons; by left).
        * rewrite -> lookup_insert_ne by done.
          rewrite -> bool_decide_false; [done|].
          intros [?|?]%elem_of_cons; done. }
  rewrite G. by case_bool_decide.
Qed.

(** X6. [getDurations] reports, for every catalog task and for no other
    key, fifteen minutes per cell of the cached grid that holds the
    task's key: a multiple of 15 between 0 and 10080.  When the catalog
    keys are distinct, the durations and fifteen minutes per cell that
    holds no catalog key add up to the 10080 minutes of the week; and when
    the cached grid is the one rebuilt from the store, those remaining
    cells are exactly the empty ones. *)
Theorem durations_account_for_the_week (e : Engine) :
  gridShape (_allSlots e) →
  NoDup (key <$> TASKS (core e)) →
  let keys := key <$> TASKS (core e) in
  let minutes := _countMinutesForVisibleWeek (_allSlots e) in
  (∀ k, getDurations e !! k = if bool_decide (k ∈ keys) then Some (minutes k) else None) ∧
  (∀ k, (15 | minutes k) ∧ 0 ≤ minutes k ≤ 10080) ∧
  sumZ (minutes <$> keys)
  + 15 * countCells (λ c, c ∉ (λ k, Some (Some k)) <$> keys) (_allSlots e) = 10080 ∧
  (_allSlots e = _rebuildSlotsForVisibleWeek (core e) →
   countCells (λ c, c ∉ (λ k, Some (Some k)) <$> keys) (_allSlots e)
   = countCells (λ c, c = Some None) (_allSlots e)).
Proof.
  intros Hshape Hnd keys minutes. split_and!.
  - intros k. apply getDurations_lookup.
  - intros k. unfold minutes. rewrite countMinutes_cells.
    pose proof (countCells_bounds (λ c, c = Some (Some k)) (_allSlots e)).
    split; [by exists (countCells (λ c, c = Some (Some k)) (_allSlots e)); lia|lia].
  - unfold minutes.
    assert (sumZ (_countMinutesForVisibleWeek (_allSlots e) <$> keys)
            = 15 * sumZ ((λ k, countCells (λ c, c = Some (Some k)) (_allSlots e)) <$> keys))
      as ->.
    { clear. induction keys as [|k keys IH]; [done|].
      rewrite !fmap_cons. simpl. rewrite IH countMinutes_cells. lia. }
    unfold countCells.
    pose proof (count_partition (λ ds : nat * nat, cell (_allSlots e) ds.1 ds.2) keys
                  (d ← seq 0 7; (λ s, (d, s)) <$> seq 0 96) Hnd) as Hp.
    change (length (d ← seq 0 7; (λ s, (d, s)) <$> seq 0 96)) with 672%nat in Hp.
    lia.
  - intros Hfresh. unfold countCells. f_equal. f_equal.
    apply filter_ext_in. intros [d s] Hds. simpl.
    apply list_elem_of_bind in Hds as (d' & Hds & Hd').
    apply list_elem_of_fmap in Hds as (s' & Heq & Hs'). injection Heq as -> ->.
    apply elem_of_seq in Hd', Hs'.
    destruct Hshape as [Hlen Hrows].
    rename d' into d, s' into s.
    destruct (lookup_lt_is_Some_2 (_allSlots e) d ltac:(lia)) as [row Hrow].
    rewrite -> Forall_lookup in Hrows. pose proof (Hrows _ _ Hrow) as Hrl.
    destruct (lookup_lt_is_Some_2 row s ltac:(unfold SLOTS_PER_DAY in Hrl; lia))
      as [c Hc].
    assert (Hcell : cell (_allSlots e) d s = Some c).
    { unfold cell. rewrite Hrow. done. }
    rewrite Hcell. destruct c as [k|].
    + split; [|done]. intros Hnot. exfalso. apply Hnot.
      apply list_elem_of_fmap. exists k. split; [done|].
      rewrite Hfresh in Hcell. by apply rebuild_cell_key in Hcell as [? _].
    + split; [done|]. intros _ Hin.
      apply list_elem_of_fmap in Hin as (k & Heq & _). done.
Qed.

Lemma durations_account_for_the_week_witness :
  let e := mkEngine sampleEngine ∅ ∅ None (_rebuildSlotsForVisibleWeek sampleEngine) in
  getDurations e !! "work" = Some 60 ∧
  sumZ (_countMinutesForVisibleWeek (_allSlots e) <$> (key <$> TASKS (core e)))
  + 15 * countCells (λ c, c ∉ (λ k, Some (Some k)) <$> (key <$> TASKS (core e)))
                    (_allSlots e) = 10080.
Proof.
  intros e.
  assert (Hshape : gridShape (_allSlots e)).
  { apply (bool_decide_unpack _). by vm_compute. }
  assert (Hnd : NoDup (key <$> TASKS (core e))).
  { apply (bool_decide_unpack _). by vm_compute. }
  destruct (durations_account_for_the_week e Hshape Hnd) as (H1 & _ & H3 & _).
  split; [|exact H3].
  rewrite H1. by vm_compute.
Defined.

(** ** Week navigation *)

(** X7. [gotoWeek] always shows a week that starts on a Sunday: the
    Sunday of the current week moved by seven days per unit of the week
    offset.  Steps add up, going there and back is [gotoWeek(0)], the
    current day lies in the visible week exactly when the offset is 0,
    and navigation leaves the catalog, the store, the stamps and the
    counter alone. *)
Theorem gotoWeek_navigation (today d1 d2 : Z) (st : WeekCore) :
  let st1 := gotoWeek today d1 st in
  getDay (visibleWeekFirst st1) = 0 ∧
  weekOffset st1 = weekOffset st + d1 ∧
  visibleWeekFirst st1 = today - getDay today + 7 * weekOffset st1 ∧
  gotoWeek today d2 st1 = gotoWeek today (d1 + d2) st ∧
  gotoWeek today (- d1) st1 = gotoWeek today 0 st ∧
  (visibleWeekFirst st1 ≤ today ≤ visibleWeekFirst st1 + 6 ↔ weekOffset st1 = 0) ∧
  (TASKS st1 = TASKS st ∧ EXACT st1 = EXACT st ∧ EXCEPTIONS st1 = EXCEPTIONS st ∧
   LAST_SCOPE st1 = LAST_SCOPE st ∧ ORDER st1 = ORDER st ∧ _saveSeq st1 = _saveSeq st).
Proof.
  intros st1. pose proof (getDay_bounds today) as Hb.
  split; [apply gotoWeek_sunday|].
  split; [done|]. split; [unfold st1, gotoWeek; simpl; lia|].
  split; [unfold st1, gotoWeek; simpl; f_equal; lia|].
  split; [unfold st1, gotoWeek; simpl; f_equal; lia|].
  split; [unfold st1, gotoWeek; simpl; lia|done].
Qed.

Lemma gotoWeek_navigation_witness :
  let st1 := gotoWeek sampleToday 0 (gotoWeek sampleToday 3 sampleEngine) in
  weekOffset st1 = 3 ∧
  ¬ (visibleWeekFirst st1 ≤ sampleToday ≤ visibleWeekFirst st1 + 6).
Proof.
  intros st1.
  destruct (gotoWeek_navigation sampleToday 0 0 (gotoWeek sampleToday 3 sampleEngine))
    as (_ & H1 & _ & _ & _ & [H _] & _).
  fold st1 in H1, H. split; [exact H1|].
  intros Hin. specialize (H Hin). rewrite H1 in H. discriminate H.
Defined.


(** X8. The day that a today-scope save or load works on.  In a week that
    starts on a Sunday it is a day of the visible week, at the index of
    its weekday: the current day when the visible week holds it, and
    otherwise the Sunday that the visible week starts with. *)
Theorem today_target_in_visible_week (today : Z) (st : WeekCore) :
  getDay (visibleWeekFirst st) = 0 →
  let target := _getTodayTargetInVisibleWeek today st in
  (target.2 < 7)%nat ∧
  target.1 = visibleWeekFirst st + Z.of_nat target.2 ∧
  getDay target.1 = Z.of_nat target.2 ∧
  (visibleWeekFirst st ≤ today ≤ visibleWeekFirst st + 6 → target.1 = today) ∧
  (¬ (visibleWeekFirst st ≤ today ≤ visibleWeekFirst st + 6) →
     target = (visibleWeekFirst st, 0%nat)).
Proof.
  intros Hsun target. pose proof (getDay_bounds today) as Hb.
  pose proof (todayTarget_date today st Hsun) as Hdate. fold target in Hdate.
  unfold _addDays in Hdate.
  split; [apply todayTarget_index|]. split; [done|].
  unfold target, _getTodayTargetInVisibleWeek, _addDays in *.
  destruct (bool_decide (visibleWeekFirst st ≤ today)) eqn:E1;
    destruct (bool_decide (today ≤ visibleWeekFirst st + 6)) eqn:E2; simpl in *;
    try apply bool_decide_eq_true in E1; try apply bool_decide_eq_true in E2;
    try apply bool_decide_eq_false in E1; try apply bool_decide_eq_false in E2;
    (split; [|split; [intros; lia|intros; try done; lia]]);
    try (unfold getDay in *; lia); done.
Qed.

Lemma today_target_in_visible_week_witness :
  getDay (visibleWeekFirst sampleEngine) = 0 ∧
  (_getTodayTargetInVisibleWeek sampleToday sampleEngine).1
  = visibleWeekFirst sampleEngine
    + Z.of_nat (_getTodayTargetInVisibleWeek sampleToday sampleEngine).2.
Proof.
  assert (H : getDay (visibleWeekFirst sampleEngine) = 0) by reflexivity.
  split; [exact H|].
  exact (proj1 (proj2 (today_target_in_visible_week sampleToday sampleEngine H))).
Defined.

(** ** What a save leaves alone *)

Lemma save_frame_lookups (today : Z) (st : WeekCore) (taskKey : string)
    (scope : Scope) (weekRanges : WeekRanges) :
  let st' := saveRanges today st taskKey scope weekRanges in
  visibleWeekFirst st' = visibleWeekFirst st ∧
  ∀ k, k ≠ taskKey →
    EXACT st' !! k = EXACT st !! k ∧
    (∀ wk, lookup2 (byWeek (EXCEPTIONS st')) wk k = lookup2 (byWeek (EXCEPTIONS st)) wk k) ∧
    (∀ mo, lookup2 (byMonth (EXCEPTIONS st')) mo k = lookup2 (byMonth (EXCEPTIONS st)) mo k) ∧
    (∀ dk, lookup2 (byDate (EXCEPTIONS st')) dk k = lookup2 (byDate (EXCEPTIONS st)) dk k).
Proof.
  intros st'. split; [by destruct scope|]. intros k Hk. split_and!.
  - unfold st'. destruct scope; simpl; try done. by rewrite lookup_insert_ne.
  - intros wk. unfold st'. destruct scope; simpl; try done.
    rewrite lookup2_insert2. rewrite bool_decide_false //. by intros [_ ?].
  - intros mo. unfold st'. destruct scope; simpl; try done.
    rewrite lookup2_insert2. rewrite bool_decide_false //. by intros [_ ?].
  - intros dk. unfold st'. destruct scope; try done.
    rewrite saveRanges_today_byDate. cbv zeta.
    rewrite !lookup2_writeOrDeleteDate.
    rewrite !bool_decide_false //; by intros [_ ?].
Qed.

(** X9. A save for one task at one scope writes the last-used scope of
    that task and nothing else outside that task's entry at that scope:
    the catalog and the visible week stay; the recurring template, the
    week, month and date exceptions and the stamps of every other task
    stay; and the dictionaries of the other scopes, and of other weeks
    and months, stay as a whole. *)
Theorem save_touches_one_task_one_scope (today : Z) (st : WeekCore)
    (taskKey : string) (scope : Scope) (weekRanges : WeekRanges) :
  let st' := saveRanges today st taskKey scope weekRanges in
  (TASKS st' = TASKS st ∧ weekOffset st' = weekOffset st ∧
   visibleWeekFirst st' = visibleWeekFirst st) ∧
  LAST_SCOPE st' = <[taskKey := scope]> (LAST_SCOPE st) ∧
  (∀ k, k ≠ taskKey →
     EXACT st' !! k = EXACT st !! k ∧
     (∀ wk, lookup2 (byWeek (EXCEPTIONS st')) wk k = lookup2 (byWeek (EXCEPTIONS st)) wk k) ∧
     (∀ mo, lookup2 (byMonth (EXCEPTIONS st')) mo k = lookup2 (byMonth (EXCEPTIONS st)) mo k) ∧
     (∀ dk, lookup2 (byDate (EXCEPTIONS st')) dk k = lookup2 (byDate (EXCEPTIONS st)) dk k) ∧
     stampAt st' (AtRecurring k) = stampAt st (AtRecurring k) ∧
     (∀ wk, stampAt st' (AtWeek wk k) = stampAt st (AtWeek wk k)) ∧
     (∀ mo, stampAt st' (AtMonth mo k) = stampAt st (AtMonth mo k)) ∧
     _effectiveExactForTask st' k = _effectiveExactForTask st k ∧
     seqForTask st' k = seqForTask st k) ∧
  (scope ≠ ScRecurring → EXACT st' = EXACT st) ∧
  (scope ≠ ScWeek → byWeek (EXCEPTIONS st') = byWeek (EXCEPTIONS st)) ∧
  (scope ≠ ScMonth → byMonth (EXCEPTIONS st') = byMonth (EXCEPTIONS st)) ∧
  (scope ≠ ScToday → byDate (EXCEPTIONS st') = byDate (EXCEPTIONS st)) ∧
  (∀ wk, wk ≠ _fmtWeekKey (visibleWeekFirst st) →
     byWeek (EXCEPTIONS st') !! wk = byWeek (EXCEPTIONS st) !! wk ∧
     ord_week (ORDER st') !! wk = ord_week (ORDER st) !! wk) ∧
  (∀ mo, mo ≠ _fmtMonthKey (visibleWeekFirst st) →
     byMonth (EXCEPTIONS st') !! mo = byMonth (EXCEPTIONS st) !! mo ∧
     ord_month (ORDER st') !! mo = ord_month (ORDER st) !! mo).
Proof.
  intros st'.
  split; [by destruct scope|]. split; [by destruct scope|].
  split.
  { intros k Hk.
    pose proof (saveRanges_stamps today st taskKey scope weekRanges) as Hst.
    cbv zeta in Hst. fold st' in Hst.
    assert (Hkeep : ∀ a, (∀ b, saveAddr st scope taskKey = Some b → a ≠ b) →
                         stampAt st' a = stampAt st a).
    { intros a Hne.
      destruct (saveAddr st scope taskKey) as [b|]; destruct Hst as [Hst _];
        rewrite Hst; [|done].
      rewrite bool_decide_false //. by apply Hne. }
    destruct (save_frame_lookups today st taskKey scope weekRanges) as [_ Hfr].
    destruct (Hfr k Hk) as (F1 & F2 & F3 & F4).
    split_and!; [exact F1|exact F2|exact F3|exact F4|..].
    - apply Hkeep. intros b Hb. destruct scope; simpl in Hb; congruence.
    - intros wk. apply Hkeep. intros b Hb. destruct scope; simpl in Hb; congruence.
    - intros mo. apply Hkeep. intros b Hb. destruct scope; simpl in Hb; congruence.
    - by apply saveRanges_effective_other.
    - by apply saveRanges_seq_other. }
  split; [by destruct scope|]. split; [by destruct scope|].
  split; [by destruct scope|]. split; [by destruct scope|].
  split.
  - intros wk Hwk. unfold st'. destruct scope; simpl; try done.
    split; [by rewrite insert2_other|by rewrite lookup_insert_ne].
  - intros mo Hmo. unfold st'. destruct scope; simpl; try done.
    split; [by rewrite insert2_other|by rewrite lookup_insert_ne].
Qed.

Lemma save_touches_one_task_one_scope_witness :
  let st' := saveRanges sampleToday sampleEngine "commute" ScWeek
               [[]; []; []; []; []; []; [mkRange 600 720]] in
  "work" ≠ "commute" ∧
  _effectiveExactForTask st' "work" = _effectiveExactForTask sampleEngine "work" ∧
  byDate (EXCEPTIONS st') = byDate (EXCEPTIONS sampleEngine).
Proof.
  intros st'.
  assert (Hne : "work" ≠ "commute") by done.
  assert (Hsc : ScWeek ≠ ScToday) by done.
  split; [exact Hne|].
  destruct (save_touches_one_task_one_scope sampleToday sampleEngine "commute" ScWeek
              [[]; []; []; []; []; []; [mkRange 600 720]])
    as (_ & _ & Hk & _ & _ & _ & Hd & _).
  split; [|exact (Hd Hsc)].
  destruct (Hk "work" Hne) as (_ & _ & _ & _ & _ & _ & _ & He & _). exact He.
Defined.

(** ** What clipping grants *)

Lemma sweepRuns_covered (fuel : nat) (ok : nat → bool) (s i : nat) :
  (96 - s ≤ fuel)%nat → (s ≤ i < 96)%nat →
  covered (sweepRuns fuel ok s []) i = ok i.
Proof.
  revert s. induction fuel as [|fuel IH]; intros s Hf Hi; [lia|].
  rewrite -> sweepRuns_step by lia. cbv zeta.
  destruct (scanWhile_spec (Z.to_nat SLOTS_PER_DAY) (λ j, negb (ok j)) s)
    as (A1 & A2 & A3 & A4); [unfold SLOTS_PER_DAY; lia|].
  set (s1 := scanWhile (Z.to_nat SLOTS_PER_DAY) (λ j, negb (ok j)) s) in *.
  specialize (A2 ltac:(lia)).
  case_bool_decide as Hs1.
  - simpl. specialize (A3 i ltac:(lia)). by destruct (ok i).
  - destruct (scanWhile_spec (Z.to_nat SLOTS_PER_DAY) ok (S s1))
      as (B1 & B2 & B3 & B4); [unfold SLOTS_PER_DAY; lia|].
    set (e := scanWhile (Z.to_nat SLOTS_PER_DAY) ok (S s1)) in *.
    specialize (B2 ltac:(lia)). specialize (A4 ltac:(lia)).
    rewrite -> covered_cons_run by lia.
    destruct (decide (i < s1)%nat) as [Hlt|Hge].
    + rewrite -> bool_decide_false by lia. simpl.
      specialize (A3 i ltac:(lia)).
      rewrite (covered_below ok e); [|lia|by destruct (ok i)].
      apply sweepRuns_okRuns. intros He.
      destruct (scanWhile_spec (Z.to_nat SLOTS_PER_DAY) (λ j, negb (ok j)) e)
        as (C1 & _); [unfold SLOTS_PER_DAY; lia|]. done.
    + destruct (decide (i < e)%nat) as [Hlt|Hge'].
      * rewrite -> bool_decide_true by lia. simpl.
        destruct (decide (i = s1)) as [->|Hne]; [by destruct (ok s1)|].
        symmetry. apply B3. lia.
      * rewrite -> bool_decide_false by lia. simpl. apply IH; lia.
Qed.

Lemma occupancy_cell (st : WeekCore) (taskKey : string) (d i : nat) :
  (d < 7)%nat → (i < 96)%nat →
  cell (_buildOccupancyMap st taskKey) d i
  = Some (firstClaimant st (filter (λ k, k ≠ taskKey) (orderedTasks st)) d i).
Proof.
  intros Hd Hi. rewrite buildOccupancyMap_filter applyTasks_cell.
  by rewrite -> blank_cell by done.
Qed.

Lemma occupancy_free_rendered (st : WeekCore) (taskKey : string) (d i : nat) :
  (d < 7)%nat → (i < 96)%nat →
  cell (_buildOccupancyMap st taskKey) d i = Some None →
  cell (_rebuildSlotsForVisibleWeek st) d i = Some None ∨
  cell (_rebuildSlotsForVisibleWeek st) d i = Some (Some taskKey).
Proof.
  intros Hd Hi Hocc. rewrite -> occupancy_cell in Hocc by done.
  apply (inj Some) in Hocc.
  unfold _rebuildSlotsForVisibleWeek. rewrite applyTasks_cell.
  rewrite -> blank_cell by done.
  destruct (firstClaimant st (orderedTasks st) d i) as [k|] eqn:E; [|by left].
  right. apply firstClaimant_Some in E as [Hk Hv].
  destruct (decide (k = taskKey)) as [->|Hne]; [done|].
  exfalso. eapply firstClaimant_None; [exact Hocc| |exact Hv].
  by apply list_elem_of_filter.
Qed.

Lemma grantable_spec (st : WeekCore) (taskKey : string) (normDay : DayRanges)
    (d i : nat) :
  (d < 7)%nat → (i < 96)%nat →
  grantable taskKey (requested normDay)
            (default [] (_buildOccupancyMap st taskKey !! d)) i = true
  ↔ covered normDay i = true ∧ cell (_buildOccupancyMap st taskKey) d i = Some None.
Proof.
  intros Hd Hi. unfold grantable. rewrite -> requested_lookup by done. simpl.
  rewrite andb_true_iff.
  assert (Hrow : default [] (_buildOccupancyMap st taskKey !! d) !! i
                 = cell (_buildOccupancyMap st taskKey) d i).
  { unfold cell. by destruct (_buildOccupancyMap st taskKey !! d). }
  unfold freeFor. rewrite Hrow.
  rewrite -> occupancy_cell by done.
  destruct (firstClaimant st (filter (λ k, k ≠ taskKey) (orderedTasks st)) d i)
    as [k|] eqn:E.
  - apply firstClaimant_Some in E as [Hk _].
    apply list_elem_of_filter in Hk as [Hne _].
    rewrite -> bool_decide_false by done. split; [by intros [_ ?]|by intros [_ ?]].
  - tauto.
Qed.

Lemma clip_sound (today : Z) (st : WeekCore) (scope : Scope) (taskKey : string)
    (weekRanges : WeekRanges) (d : nat) (day : DayRanges) (i : nat) :
  week (_normalizeAndClip today st scope taskKey weekRanges) !! d = Some day →
  (i < 96)%nat → covered day i = true →
  covered (dayOf (Some (splitQuantize weekRanges).1) d) i = true ∧
  cell (_buildOccupancyMap st taskKey) d i = Some None.
Proof.
  intros Hday Hi Hc.
  apply normalizeAndClip_week_lookup in Hday as [Hd ->].
  destruct (clipDay_okRuns taskKey (dayOf (Some (splitQuantize weekRanges).1) d)
              (default [] (_buildOccupancyMap st taskKey !! d))) as [Hruns _].
  pose proof (covered_ok _ _ _ _ Hruns Hc) as Hok.
  exact (proj1 (grantable_spec st taskKey _ d i Hd Hi) Hok).
Qed.

(** X10. What a save is granted.  Every slot of every range that
    normalise-and-clip returns was requested for that day and is empty
    in the occupancy map built without the task, hence empty or the
    task's own in the grid rendered before the save: no slot that the
    grid shows for another task is ever granted.  And when a day comes
    back with fewer than four ranges, every requested slot that is empty
    in that occupancy map is granted. *)
Theorem clip_grants_requested_free_slots (today : Z) (st : WeekCore)
    (scope : Scope) (taskKey : string) (weekRanges : WeekRanges)
    (d : nat) (day : DayRanges) :
  week (_normalizeAndClip today st scope taskKey weekRanges) !! d = Some day →
  let normDay := dayOf (Some (splitQuantize weekRanges).1) d in
  let occ := _buildOccupancyMap st taskKey in
  (∀ i, (i < 96)%nat → covered day i = true →
     covered normDay i = true ∧
     cell occ d i = Some None ∧
     (cell (_rebuildSlotsForVisibleWeek st) d i = Some None ∨
      cell (_rebuildSlotsForVisibleWeek st) d i = Some (Some taskKey))) ∧
  ((length day < 4)%nat →
   ∀ i, (i < 96)%nat → covered normDay i = true → cell occ d i = Some None →
        covered day i = true).
Proof.
  intros Hday normDay occ.
  apply normalizeAndClip_week_lookup in Hday as [Hd ->].
  fold normDay. fold occ.
  destruct (clipDay_okRuns taskKey normDay (default [] (occ !! d))) as [Hruns _].
  split.
  - intros i Hi Hc.
    pose proof (covered_ok _ _ _ _ Hruns Hc) as Hok.
    destruct (proj1 (grantable_spec st taskKey normDay d i Hd Hi) Hok) as [Hreq Hocc].
    split; [done|]. split; [done|]. by apply occupancy_free_rendered.
  - intros Hlen i Hi Hreq Hocc.
    rewrite clipDay_take in Hlen. rewrite clipDay_take.
    rewrite -> take_ge.
    + rewrite -> sweepRuns_covered by (unfold SLOTS_PER_DAY; lia).
      exact (proj2 (grantable_spec st taskKey normDay d i Hd Hi) (conj Hreq Hocc)).
    + rewrite length_take in Hlen. lia.
Qed.

Lemma clip_grants_requested_free_slots_witness :
  let res := _normalizeAndClip sampleToday sampleEngine ScRecurring "commute"
               [[]; []; []; []; []; []; [mkRange 570 690]] in
  week res !! 6%nat = Some [mkRange 570 600; mkRange 660 690] ∧
  covered [mkRange 570 600; mkRange 660 690] 38 = true ∧
  cell (_buildOccupancyMap sampleEngine "commute") 6 38 = Some None.
Proof.
  intros res.
  assert (H : week res !! 6%nat = Some [mkRange 570 600; mkRange 660 690])
    by (by vm_compute).
  assert (Hc : covered [mkRange 570 600; mkRange 660 690] 38 = true) by reflexivity.
  split; [exact H|]. split; [exact Hc|].
  destruct (clip_grants_requested_free_slots sampleToday sampleEngine ScRecurring
              "commute" _ 6 _ H) as [Hs _].
  exact (proj1 (proj2 (Hs 38%nat ltac:(lia) Hc))).
Defined.

(** ** The store of an engine driven by calls *)

Lemma clippedDay_nil : clippedDay [].
Proof. split; [done|simpl; lia]. Qed.

Lemma blank_clippedWeek : clippedWeek _blankWeekRanges.
Proof. split; [done|]. repeat constructor; apply clippedDay_nil. Qed.

Lemma clipDay_clippedDay (taskKey : string) (normDay : DayRanges) (occRow : DaySlots) :
  clippedDay (clipDay taskKey normDay occRow).
Proof.
  destruct (clipDay_okRuns taskKey normDay occRow) as [Hruns Hlen].
  split; [|done]. eapply okRuns_weaken; [| |exact Hruns]; [done|lia].
Qed.

Lemma normalizeAndClip_clippedWeek (today : Z) (st : WeekCore) (scope : Scope)
    (taskKey : string) (weekRanges : WeekRanges) :
  clippedWeek (week (_normalizeAndClip today st scope taskKey weekRanges)).
Proof.
  split.
  - rewrite normalizeAndClip_week. by rewrite length_fmap.
  - apply Forall_lookup. intros d day Hday.
    apply normalizeAndClip_week_lookup in Hday as [_ ->].
    apply clipDay_clippedDay.
Qed.

Lemma dayOf_clippedDay (w : WeekRanges) (d : nat) :
  clippedWeek w → clippedDay (dayOf (Some w) d).
Proof.
  intros [_ Hw]. unfold dayOf. simpl.
  destruct (w !! d) as [day|] eqn:E; simpl; [|apply clippedDay_nil].
  rewrite -> Forall_lookup in Hw. by eapply Hw.
Qed.

Lemma spillNextDay_cases (today : Z) (st : WeekCore) (scope : Scope)
    (taskKey : string) (weekRanges : WeekRanges) :
  let res := _normalizeAndClip today st scope taskKey weekRanges in
  spillNextDay res = [] ∨
  spillNextDay res =
    dayOf (Some (week res)) (((_getTodayTargetInVisibleWeek today st).2 + 1) `mod` 7)%nat.
Proof.
  unfold _normalizeAndClip. destruct (splitQuantize weekRanges) as [norm had].
  cbn [week spillNextDay].
  destruct (bool_decide (scope = ScToday) && had); [by right|by left].
Qed.

Lemma spillNextDay_clippedDay (today : Z) (st : WeekCore) (scope : Scope)
    (taskKey : string) (weekRanges : WeekRanges) :
  clippedDay (spillNextDay (_normalizeAndClip today st scope taskKey weekRanges)).
Proof.
  destruct (spillNextDay_cases today st scope taskKey weekRanges) as [-> | ->].
  - apply clippedDay_nil.
  - apply dayOf_clippedDay, normalizeAndClip_clippedWeek.
Qed.

Lemma delete2_inner {V} (k : Z) (t : string) (m : gmap Z (gmap string V)) :
  (∀ dk inner, m !! dk = Some inner → inner ≠ ∅) →
  ∀ dk inner, delete2 k t m !! dk = Some inner → inner ≠ ∅.
Proof.
  intros Hm dk inner. unfold delete2.
  destruct (m !! k) as [i0|] eqn:E; [|apply Hm].
  destruct (i0 !! t) eqn:E2; [|apply Hm].
  cbv zeta. case_bool_decide as Hsz.
  - intros Hl. apply lookup_delete_Some in Hl as [_ Hl]. by eapply Hm.
  - intros Hl. apply lookup_insert_Some in Hl as [[_ <-]|[_ Hl]]; [|by eapply Hm].
    intros Hemp. apply Hsz. rewrite Hemp. apply map_size_empty.
Qed.

Lemma insert2_inner {V} (k : Z) (t : string) (v : V) (m : gmap Z (gmap string V)) :
  (∀ dk inner, m !! dk = Some inner → inner ≠ ∅) →
  ∀ dk inner, insert2 k t v m !! dk = Some inner → inner ≠ ∅.
Proof.
  intros Hm dk inner. unfold insert2. intros Hl.
  apply lookup_insert_Some in Hl as [[_ <-]|[_ Hl]]; [|by eapply Hm].
  apply insert_non_empty.
Qed.

Lemma writeOrDeleteDate_inner (k : Z) (t : string) (r : DayRanges)
    (bd : gmap Z (gmap string (list Range))) :
  (∀ dk inner, bd !! dk = Some inner → inner ≠ ∅) →
  ∀ dk inner, writeOrDeleteDate k t r bd !! dk = Some inner → inner ≠ ∅.
Proof.
  intros Hm. unfold writeOrDeleteDate. case_bool_decide.
  - by apply insert2_inner.
  - by apply delete2_inner.
Qed.

Lemma writeOrDeleteDate_clipped (k : Z) (t : string) (r : DayRanges)
    (bd : gmap Z (gmap string (list Range))) :
  clippedDay r →
  (∀ dk k' l, lookup2 bd dk k' = Some l → clippedDay l ∧ l ≠ []) →
  ∀ dk k' l, lookup2 (writeOrDeleteDate k t r bd) dk k' = Some l → clippedDay l ∧ l ≠ [].
Proof.
  intros Hr Hbd dk k' l. rewrite lookup2_writeOrDeleteDate.
  case_bool_decide; [|apply Hbd].
  case_bool_decide; [done|]. by intros [= <-].
Qed.

Lemma stamped_is_Some (taskKey k : string) (stamps : gmap string Z) (saveSeq : Z) :
  k = taskKey ∨ is_Some (stamps !! k) →
  is_Some ((stampIfUnset taskKey stamps saveSeq).1 !! k).
Proof.
  intros Hk. destruct (stampIfUnset_spec taskKey k stamps saveSeq) as [-> _].
  case_bool_decide as Heq.
  - destruct (stamps !! taskKey) as [v|]; [|done]. by case_bool_decide.
  - by destruct Hk.
Qed.

Lemma saveRanges_storeClipped (today : Z) (st : WeekCore) (taskKey : string)
    (scope : Scope) (weekRanges : WeekRanges) :
  getDay (visibleWeekFirst st) = 0 → storeClipped st →
  storeClipped (saveRanges today st taskKey scope weekRanges).
Proof.
  intros Hsun (HE & HW & HM & HD & HI).
  pose proof (normalizeAndClip_clippedWeek today st scope taskKey weekRanges) as Hres.
  destruct scope.
  - split_and!; [|exact HW|exact HM|exact HD|exact HI].
    intros k w. simpl. intros Hl.
    apply lookup_insert_Some in Hl as [[_ <-]|[_ Hl]]; [done|by eapply HE].
  - split_and!; [exact HE| |exact HM|exact HD|exact HI].
    intros wk k w. cbn [saveRanges EXCEPTIONS byWeek ORDER ord_week].
    rewrite lookup2_insert2 lookup2_insert_outer.
    case_bool_decide as Heq.
    + destruct Heq as [<- <-]. intros [= <-].
      rewrite -> bool_decide_true by done.
      split; [done|]. split; [done|]. apply stamped_is_Some. by left.
    + intros Hl. destruct (HW _ _ _ Hl) as (H1 & H2 & H3).
      split; [done|]. split; [done|].
      case_bool_decide as Hwk; [|done]. subst wk.
      apply stamped_is_Some. right. by rewrite lookup_default_empty.
  - split_and!; [exact HE|exact HW| |exact HD|exact HI].
    intros mo k w. cbn [saveRanges EXCEPTIONS byMonth ORDER ord_month].
    rewrite lookup2_insert2 lookup2_insert_outer.
    case_bool_decide as Heq.
    + destruct Heq as [<- <-]. intros [= <-].
      rewrite -> bool_decide_true by done.
      split; [done|]. apply stamped_is_Some. by left.
    + intros Hl. destruct (HM _ _ _ Hl) as (H1 & H3).
      split; [done|].
      case_bool_decide as Hmo; [|done]. subst mo.
      apply stamped_is_Some. right. by rewrite lookup_default_empty.
  - split_and!; [exact HE|exact HW|exact HM| |].
    + rewrite saveRanges_today_byDate. cbv zeta.
      apply writeOrDeleteDate_clipped; [apply spillNextDay_clippedDay|].
      apply writeOrDeleteDate_clipped; [by apply dayOf_clippedDay|exact HD].
    + rewrite saveRanges_today_byDate. cbv zeta.
      apply writeOrDeleteDate_inner, writeOrDeleteDate_inner, HI.
Qed.

Lemma construct_storeClipped (today : Z) (tasks : list Task) :
  getDay (visibleWeekFirst (construct today tasks)) = 0 ∧
  storeClipped (construct today tasks).
Proof.
  split; [apply gotoWeek_sunday|].
  split_and!; try done.
  intros k w. simpl. intros Hl.
  apply elem_of_list_to_map_2 in Hl.
  apply list_elem_of_fmap in Hl as (t & [= _ ->] & _). apply blank_clippedWeek.
Qed.

Lemma perform_storeClipped (st : WeekCore) (c : Call) :
  getDay (visibleWeekFirst st) = 0 ∧ storeClipped st →
  getDay (visibleWeekFirst (perform st c)) = 0 ∧ storeClipped (perform st c).
Proof.
  intros [Hsun Hst]. destruct c as [today k scope w|today delta|tasks]; simpl.
  - split; [|by apply saveRanges_storeClipped].
    by destruct (saveRanges_view today st k scope w) as [_ ->].
  - split; [apply gotoWeek_sunday|done].
  - done.
Qed.

Lemma performAll_storeClipped (st : WeekCore) (cs : list Call) :
  getDay (visibleWeekFirst st) = 0 ∧ storeClipped st →
  getDay (visibleWeekFirst (performAll st cs)) = 0 ∧ storeClipped (performAll st cs).
Proof.
  revert st. induction cs as [|c cs IH]; intros st H; [done|].
  simpl. apply IH. by apply perform_storeClipped.
Qed.

(** X11. In an engine driven from its construction by saves, week
    navigation and catalog replacement, the visible week starts on a
    Sunday and the store holds clipped ranges only: every stored week has
    seven days of at most four ranges [[15 s, 15 e)] with [s < e ≤ 96]
    that neither overlap nor touch; week exceptions are filed under
    Sundays and, like month exceptions, are stamped; date exceptions are
    never empty lists, and no date is left with an empty mapping. *)
Theorem engine_run_store_clipped (today0 : Z) (tasks : list Task) (calls : list Call) :
  let st := performAll (construct today0 tasks) calls in
  getDay (visibleWeekFirst st) = 0 ∧ storeClipped st.
Proof. apply performAll_storeClipped, construct_storeClipped. Qed.

(** ** The grid over a store of clipped ranges *)

Lemma okRuns_elem (ok : nat → bool) (lo : nat) (l : DayRanges) (r : Range) :
  okRuns ok lo l → r ∈ l →
  ∃ s e : nat, (s < e)%nat ∧ (e ≤ 96)%nat ∧
               r = mkRange (Z.of_nat s * 15) (Z.of_nat e * 15).
Proof.
  revert lo. induction l as [|r0 l IH]; intros lo Hl Hr; [by apply elem_of_nil in Hr|].
  destruct Hl as (s & e & Hs & He & -> & _ & Hl).
  apply elem_of_cons in Hr as [->|Hr]; [exists s, e; split_and!; [lia|done|done]|].
  by eapply IH.
Qed.

Lemma rangeVisits_run (d : nat) (s e : nat) :
  (s < e)%nat → (e ≤ 96)%nat →
  rangeVisits d (mkRange (Z.of_nat s * 15) (Z.of_nat e * 15))
  = (λ j, (d, j)) <$> loopSlots (Z.of_nat s) (Z.of_nat e).
Proof.
  intros Hs He. unfold rangeVisits. simpl. rewrite !round15_fixed.
  rewrite -> bool_decide_false by lia. rewrite -> bool_decide_true by lia.
  by rewrite -> !minsToSlot_mul by (unfold SLOTS_PER_DAY; lia).
Qed.

Lemma covered_true (l : DayRanges) (i : nat) :
  covered l i = true ↔
  ∃ r, r ∈ l ∧ _minsToSlot (startMin r) ≤ Z.of_nat i < _minsToSlot (endMin r).
Proof.
  unfold covered. rewrite existsb_exists. split.
  - intros (r & Hr & Hc). exists r. split; [by apply list_elem_of_In|].
    by apply bool_decide_eq_true in Hc.
  - intros (r & Hr & Hc). exists r. split; [by apply list_elem_of_In|].
    by apply bool_decide_eq_true.
Qed.

Lemma weekVisits_clipped (exact : WeekRanges) (d i : nat) :
  (∀ d day, exact !! d = Some day → clippedDay day) →
  (d, Z.of_nat i) ∈ weekVisits exact ↔
  (d < 7)%nat ∧ covered (dayOf (Some exact) d) i = true.
Proof.
  intros Hex. unfold weekVisits. rewrite list_elem_of_bind. split.
  - intros (d' & Hin & Hd'). apply list_elem_of_bind in Hin as (R & Hin & HR).
    assert (Hday : clippedDay (dayOf (Some exact) d')).
    { unfold dayOf. simpl. destruct (exact !! d') eqn:E; simpl;
        [by eapply Hex|apply clippedDay_nil]. }
    destruct (okRuns_elem _ _ _ _ (proj1 Hday) HR) as (s & e & Hs & He & ->).
    rewrite -> rangeVisits_run in Hin by done.
    apply list_elem_of_fmap in Hin as (j & [= Hdd Hij] & Hj).
    subst d' j.
    apply elem_of_loopSlots in Hj. apply elem_of_seq in Hd'.
    split; [lia|]. apply covered_true.
    eexists. split; [exact HR|]. simpl.
    rewrite -> !minsToSlot_mul by (unfold SLOTS_PER_DAY; lia). lia.
  - intros [Hd Hc]. apply covered_true in Hc as (R & HR & Hc).
    assert (Hday : clippedDay (dayOf (Some exact) d)).
    { unfold dayOf. simpl. destruct (exact !! d) eqn:E; simpl;
        [by eapply Hex|apply clippedDay_nil]. }
    destruct (okRuns_elem _ _ _ _ (proj1 Hday) HR) as (s & e & Hs & He & ->).
    simpl in Hc. rewrite -> !minsToSlot_mul in Hc by (unfold SLOTS_PER_DAY; lia).
    exists d. split; [|apply elem_of_seq; lia].
    apply list_elem_of_bind. eexists. split; [|exact HR].
    rewrite -> rangeVisits_run by done.
    apply list_elem_of_fmap. exists (Z.of_nat i). split; [done|].
    by apply elem_of_loopSlots.
Qed.

Lemma effective_clipped (st : WeekCore) (k : string) (d : nat) (day : DayRanges) :
  storeClipped st → _effectiveExactForTask st k !! d = Some day → clippedDay day.
Proof.
  intros (HE & HW & HM & HD & _) Hday.
  assert (Hd : (d < 7)%nat).
  { apply lookup_lt_Some in Hday. by rewrite effective_length in Hday. }
  rewrite -> effective_lookup in Hday by done. apply (inj Some) in Hday as <-.
  destruct (lookup2 (byDate (EXCEPTIONS st)) _ k) as [l|] eqn:E.
  - by destruct (HD _ _ _ E).
  - unfold scopedWeek.
    destruct (lookup2 (byWeek (EXCEPTIONS st)) _ k) as [w|] eqn:E1.
    { apply dayOf_clippedDay. by destruct (HW _ _ _ E1). }
    destruct (lookup2 (byMonth (EXCEPTIONS st)) _ k) as [w|] eqn:E2.
    { apply dayOf_clippedDay. by destruct (HM _ _ _ E2). }
    destruct (EXACT st !! k) as [w|] eqn:E3.
    { apply dayOf_clippedDay. by eapply HE. }
    apply clippedDay_nil.
Qed.

(** X12. Over a store of clipped ranges, and so in every engine driven by
    calls, ranges never wrap into the next day: a cell of the rendered
    grid shows the first task, in processing order, whose own effective
    ranges of that day cover the slot, and is empty when there is none. *)
Theorem rendered_cell_over_clipped_store (st : WeekCore) (d i : nat) :
  storeClipped st → (d < 7)%nat → (i < 96)%nat →
  cell (_rebuildSlotsForVisibleWeek st) d i =
    Some (head (filter (λ k, covered (dayOf (Some (_effectiveExactForTask st k)) d) i = true)
                       (orderedTasks st))).
Proof.
  intros Hst Hd Hi. unfold _rebuildSlotsForVisibleWeek.
  rewrite applyTasks_cell. rewrite -> blank_cell by done.
  f_equal. unfold firstClaimant. f_equal.
  apply filter_ext_in. intros k _.
  rewrite -> weekVisits_clipped
    by (intros d' day Hl; exact (effective_clipped st k d' day Hst Hl)).
  tauto.
Qed.

Lemma rendered_cell_over_clipped_store_witness :
  storeClipped sampleEngine ∧
  cell (_rebuildSlotsForVisibleWeek sampleEngine) 6 40 =
    Some (head (filter (λ k, covered (dayOf (Some (_effectiveExactForTask sampleEngine k)) 6)
                                     40 = true)
                       (orderedTasks sampleEngine))).
Proof.
  assert (H : storeClipped sampleEngine).
  { exact (proj2 (performAll_storeClipped (construct sampleToday sampleTasks)
             [CallSave sampleToday "work" ScRecurring
                [[]; []; []; []; []; []; [mkRange 540 600]];
              CallSave sampleToday "work" ScToday
                [[]; []; []; []; []; []; [mkRange 600 660]]]
             (construct_storeClipped sampleToday sampleTasks))). }
  split; [exact H|].
  apply (rendered_cell_over_clipped_store sampleEngine 6 40 H); lia.
Defined.

(** ** The active scope of a task *)

Lemma activeScope_ext (today : Z) (st st' : WeekCore) (k : string) :
  visibleWeekFirst st' = visibleWeekFirst st →
  lookup2 (byDate (EXCEPTIONS st')) today k = lookup2 (byDate (EXCEPTIONS st)) today k →
  lookup2 (byWeek (EXCEPTIONS st')) (_fmtWeekKey (visibleWeekFirst st)) k
    = lookup2 (byWeek (EXCEPTIONS st)) (_fmtWeekKey (visibleWeekFirst st)) k →
  lookup2 (byMonth (EXCEPTIONS st')) (_fmtMonthKey (visibleWeekFirst st)) k
    = lookup2 (byMonth (EXCEPTIONS st)) (_fmtMonthKey (visibleWeekFirst st)) k →
  activeScopeForTask today st' k = activeScopeForTask today st k.
Proof.
  intros Hv Hd Hw Hm. unfold activeScopeForTask, _startOfDay, _fmtDate.
  by rewrite Hv Hd Hw Hm.
Qed.

Lemma saveRanges_today_lookup (today : Z) (st : WeekCore) (taskKey k : string)
    (weekRanges : WeekRanges) (dk : Z) :
  let res := _normalizeAndClip today st ScToday taskKey weekRanges in
  let target := _getTodayTargetInVisibleWeek today st in
  lookup2 (byDate (EXCEPTIONS (saveRanges today st taskKey ScToday weekRanges))) dk k =
    if bool_decide (target.1 + 1 = dk ∧ taskKey = k)
    then (if bool_decide (spillNextDay res = []) then None else Some (spillNextDay res))
    else if bool_decide (target.1 = dk ∧ taskKey = k)
    then (if bool_decide (dayOf (Some (week res)) target.2 = []) then None
          else Some (dayOf (Some (week res)) target.2))
    else lookup2 (byDate (EXCEPTIONS st)) dk k.
Proof.
  intros res target. rewrite saveRanges_today_byDate. cbv zeta.
  by rewrite !lookup2_writeOrDeleteDate.
Qed.

(** X13. [activeScopeForTask] after a save of the task.  A recurring save
    leaves the active scope as it was; after a week save it is [week],
    and after a month save [month] unless the visible week has an
    exception, in both cases unless the current date has an exception,
    which makes it [today].  A today save made while the visible week
    holds the current day makes it [today] exactly when something was
    granted for that day; made while another week is shown it writes to
    that week's Sunday and leaves the active scope as it was.  The active
    scope of other tasks never changes. *)
Theorem active_scope_after_save (today : Z) (st : WeekCore) (taskKey : string)
    (scope : Scope) (weekRanges : WeekRanges) :
  let st' := saveRanges today st taskKey scope weekRanges in
  let res := _normalizeAndClip today st scope taskKey weekRanges in
  let hasDate := bool_decide (is_Some (lookup2 (byDate (EXCEPTIONS st)) today taskKey)) in
  let hasWeek := bool_decide (is_Some (lookup2 (byWeek (EXCEPTIONS st))
                                         (_fmtWeekKey (visibleWeekFirst st)) taskKey)) in
  (scope = ScRecurring →
     activeScopeForTask today st' taskKey = activeScopeForTask today st taskKey) ∧
  (scope = ScWeek →
     activeScopeForTask today st' taskKey = if hasDate then ScToday else ScWeek) ∧
  (scope = ScMonth →
     activeScopeForTask today st' taskKey =
       if hasDate then ScToday else if hasWeek then ScWeek else ScMonth) ∧
  (scope = ScToday → visibleWeekFirst st ≤ today ≤ visibleWeekFirst st + 6 →
     (activeScopeForTask today st' taskKey = ScToday ↔
      dayOf (Some (week res)) (Z.to_nat (getDay today)) ≠ [])) ∧
  (scope = ScToday → ¬ (visibleWeekFirst st ≤ today ≤ visibleWeekFirst st + 6) →
     activeScopeForTask today st' taskKey = activeScopeForTask today st taskKey) ∧
  (∀ k, k ≠ taskKey → activeScopeForTask today st' k = activeScopeForTask today st k).
Proof.
  intros st' res hasDate hasWeek.
  destruct (save_frame_lookups today st taskKey scope weekRanges) as (Hv & Hother).
  fold st' in Hv, Hother.
  split_and!.
  - intros ->. by apply activeScope_ext.
  - intros ->. unfold activeScopeForTask, _startOfDay, _fmtDate.
    rewrite Hv. unfold st'. cbn [saveRanges EXCEPTIONS byDate byWeek].
    fold hasDate. destruct hasDate; [done|].
    rewrite lookup2_insert2. rewrite -> (bool_decide_true (_ ∧ _)) by done.
    by rewrite -> bool_decide_true by (by eexists).
  - intros ->. unfold activeScopeForTask, _startOfDay, _fmtDate.
    rewrite Hv. unfold st'. cbn [saveRanges EXCEPTIONS byDate byWeek byMonth].
    fold hasDate hasWeek. destruct hasDate; [done|]. destruct hasWeek; [done|].
    rewrite lookup2_insert2. rewrite -> (bool_decide_true (_ ∧ _)) by done.
    by rewrite -> bool_decide_true by (by eexists).
  - intros -> Hin. unfold activeScopeForTask, _startOfDay, _fmtDate.
    unfold st'. rewrite saveRanges_today_lookup. cbv zeta.
    assert (Ht : _getTodayTargetInVisibleWeek today st = (today, Z.to_nat (getDay today))).
    { unfold _getTodayTargetInVisibleWeek, _addDays. cbv zeta.
      by rewrite -> !bool_decide_true by lia. }
    rewrite Ht. cbn [fst snd].
    rewrite -> (bool_decide_false (_ + 1 = _ ∧ _)) by (intros [? _]; lia).
    rewrite -> (bool_decide_true (_ = _ ∧ _)) by done. fold res.
    destruct (decide (dayOf (Some (week res)) (Z.to_nat (getDay today)) = []))
      as [Hday|Hday].
    + rewrite -> (bool_decide_true (_ = [])) by done.
      rewrite -> (bool_decide_false (is_Some None)) by (by intros [? ?]).
      split; [|done]. intros Hs. exfalso.
      repeat case_bool_decide; done.
    + rewrite -> (bool_decide_false (_ = [])) by done.
      by rewrite -> (bool_decide_true (is_Some (Some _))) by (by eexists).
  - intros -> Hout. apply activeScope_ext; [done| |done|done].
    unfold st'. rewrite saveRanges_today_lookup. cbv zeta.
    assert (Ht : _getTodayTargetInVisibleWeek today st = (visibleWeekFirst st, 0%nat)).
    { unfold _getTodayTargetInVisibleWeek, _addDays. cbv zeta.
      destruct (bool_decide (visibleWeekFirst st ≤ today)) eqn:E1;
        destruct (bool_decide (today ≤ visibleWeekFirst st + 6)) eqn:E2; try done.
      apply bool_decide_eq_true in E1, E2. lia. }
    rewrite Ht. cbn [fst snd].
    rewrite -> (bool_decide_false (_ + 1 = _ ∧ _)) by (intros [? _]; lia).
    by rewrite -> (bool_decide_false (_ = _ ∧ _)) by (intros [? _]; lia).
  - intros k Hk. destruct (Hother k Hk) as (_ & Hw & Hm & Hd).
    by apply activeScope_ext.
Qed.

Lemma active_scope_after_save_witness :
  activeScopeForTask sampleToday
    (saveRanges sampleToday sampleEngine "work" ScWeek [[mkRange 60 120]]) "work" = ScToday ∧
  activeScopeForTask sampleToday
    (saveRanges sampleToday sampleEngine "commute" ScWeek [[mkRange 60 120]]) "commute"
  = ScWeek.
Proof.
  split.
  - destruct (active_scope_after_save sampleToday sampleEngine "work" ScWeek
                [[mkRange 60 120]]) as (_ & H & _).
    exact (H eq_refl).
  - destruct (active_scope_after_save sampleToday sampleEngine "commute" ScWeek
                [[mkRange 60 120]]) as (_ & H & _).
    exact (H eq_refl).
Defined.

(** ** Loading ranges for an editor *)

Lemma todayTarget_save (today today' : Z) (st : WeekCore) (taskKey : string)
    (scope : Scope) (weekRanges : WeekRanges) :
  _getTodayTargetInVisibleWeek today' (saveRanges today st taskKey scope weekRanges)
  = _getTodayTargetInVisibleWeek today' st.
Proof.
  unfold _getTodayTargetInVisibleWeek.
  by destruct (saveRanges_view today st taskKey scope weekRanges) as [_ ->].
Qed.

Lemma getExactForScope_today (today : Z) (st : WeekCore) (taskKey : string) :
  getExactForScope today st taskKey ScToday =
    <[(_getTodayTargetInVisibleWeek today st).2 :=
        dayOf (Some (_effectiveExactForTask st taskKey))
              (_getTodayTargetInVisibleWeek today st).2]> _blankWeekRanges.
Proof.
  unfold getExactForScope. cbv zeta.
  pose proof (todayTarget_index today st) as Hidx.
  set (index := (_getTodayTargetInVisibleWeek today st).2) in *.
  unfold dayOf at 2. cbn [mbind option_bind].
  rewrite -> effective_lookup by done. cbn [default].
  unfold copyRanges.
  destruct (lookup2 (byDate (EXCEPTIONS st)) _ taskKey) as [set|] eqn:E.
  - by rewrite copyRanges_id.
  - rewrite copyRanges_id. unfold dayOf at 1. cbn [mbind option_bind].
    rewrite -> effective_lookup by done. by rewrite E.
Qed.

Lemma editor_load_after_save (today today' : Z) (st : WeekCore) (taskKey : string)
    (scope : Scope) (weekRanges : WeekRanges) :
  scope ≠ ScToday →
  getExactForScope today' (saveRanges today st taskKey scope weekRanges) taskKey scope
  = week (_normalizeAndClip today st scope taskKey weekRanges).
Proof.
  intros Hsc.
  pose proof (normalizeAndClip_clippedWeek today st scope taskKey weekRanges) as [Hlen _].
  destruct scope; [| | |done].
  - unfold getExactForScope. cbn [saveRanges EXACT].
    rewrite lookup_insert_eq. by apply deepCopyWeek_id.
  - unfold getExactForScope. cbn [saveRanges EXCEPTIONS byWeek visibleWeekFirst].
    rewrite lookup2_insert2. rewrite -> bool_decide_true by done.
    by apply deepCopyWeek_id.
  - unfold getExactForScope. cbn [saveRanges EXCEPTIONS byMonth visibleWeekFirst].
    rewrite lookup2_insert2. rewrite -> bool_decide_true by done.
    by apply deepCopyWeek_id.
Qed.

(** X14. What an editor loads.  [getExactForScope] always gives seven
    days.  At today scope it gives the effective ranges of the target day
    of the visible week and no ranges on the other days.  Right after a
    save of the task at recurring, week or month scope, loading at that
    scope gives the week that the save stored: the clipped week.  Right
    after a today save in a week that starts on a Sunday, the target day
    loads as the clipped day, or, when nothing was granted, as the day of
    the week, month or recurring ranges in force. *)
Theorem editor_loads_what_was_saved (today : Z) (st : WeekCore) (taskKey : string)
    (scope : Scope) (weekRanges : WeekRanges) :
  let st' := saveRanges today st taskKey scope weekRanges in
  let res := _normalizeAndClip today st scope taskKey weekRanges in
  let index := (_getTodayTargetInVisibleWeek today st).2 in
  (∀ sc, length (getExactForScope today st taskKey sc) = 7%nat) ∧
  getExactForScope today st taskKey ScToday =
    <[index := dayOf (Some (_effectiveExactForTask st taskKey)) index]> _blankWeekRanges ∧
  (scope ≠ ScToday → ∀ today', getExactForScope today' st' taskKey scope = week res) ∧
  (scope = ScToday → getDay (visibleWeekFirst st) = 0 →
     getExactForScope today st' taskKey ScToday =
       <[index := if bool_decide (dayOf (Some (week res)) index = [])
                  then dayOf (scopedWeek st taskKey) index
                  else dayOf (Some (week res)) index]> _blankWeekRanges).
Proof.
  intros st' res index.
  pose proof (normalizeAndClip_clippedWeek today st scope taskKey weekRanges) as [Hlen _].
  fold res in Hlen.
  split_and!.
  - intros sc. destruct sc; unfold getExactForScope; cbv zeta;
      repeat case_match; rewrite ?deepCopyWeek_length ?length_insert //.
  - apply getExactForScope_today.
  - intros Hsc today'. by apply editor_load_after_save.
  - intros -> Hsun. rewrite getExactForScope_today.
    unfold st'. rewrite todayTarget_save. fold index.
    pose proof (todayTarget_index today st) as Hidx. fold index in Hidx.
    f_equal. unfold dayOf at 1. cbn [mbind option_bind].
    rewrite -> effective_lookup by done. cbn [default].
    rewrite saveRanges_today_lookup. cbv zeta.
    destruct (saveRanges_view today st taskKey ScToday weekRanges) as [_ ->].
    pose proof (todayTarget_date today st Hsun) as Hdate. fold index in Hdate.
    unfold _fmtDate. rewrite Hdate.
    rewrite -> (bool_decide_false (_ + 1 = _ ∧ _)) by (intros [? _]; lia).
    rewrite -> (bool_decide_true (_ = _ ∧ _)) by done. fold res.
    destruct (decide (dayOf (Some (week res)) index = [])) as [Hday|Hday].
    + rewrite -> !(bool_decide_true (_ = [])) by done.
      by rewrite scopedWeek_save_today.
    + by rewrite -> !(bool_decide_false (_ = [])) by done.
Qed.

Lemma editor_loads_what_was_saved_witness :
  let st := construct sampleToday sampleTasks in
  let weekRanges := [[mkRange 607 600; mkRange 30 50]; [mkRange 1380 60]] in
  ScWeek ≠ ScToday ∧
  getExactForScope sampleToday (saveRanges sampleToday st "work" ScWeek weekRanges)
                   "work" ScWeek
  = week (_normalizeAndClip sampleToday st ScWeek "work" weekRanges).
Proof.
  intros st weekRanges.
  assert (Hsc : ScWeek ≠ ScToday) by done.
  split; [exact Hsc|].
  destruct (editor_loads_what_was_saved sampleToday st "work" ScWeek weekRanges)
    as (_ & _ & H & _).
  exact (H Hsc sampleToday).
Defined.

(** ** Saving what was loaded *)

Lemma insert2_insert2_eq {V} (k : Z) (t : string) (v w : V)
    (m : gmap Z (gmap string V)) :
  insert2 k t v (insert2 k t w m) = insert2 k t v m.
Proof.
  unfold insert2. rewrite lookup_insert_eq. cbn [default].
  by rewrite insert_insert_eq insert_insert_eq.
Qed.

Lemma stampIfUnset_again (taskKey : string) (stamps : gmap string Z) (saveSeq n : Z) :
  saveSeq ≠ 0 →
  stampIfUnset taskKey (stampIfUnset taskKey stamps saveSeq).1 n
  = ((stampIfUnset taskKey stamps saveSeq).1, n).
Proof.
  intros Hs. unfold stampIfUnset at 1.
  destruct (stampIfUnset_spec taskKey taskKey stamps saveSeq) as [-> _].
  rewrite -> bool_decide_true by done.
  destruct (stamps !! taskKey) as [v|]; [|by rewrite -> bool_decide_false by done].
  case_bool_decide; by rewrite -> bool_decide_false by done.
Qed.

(** X15. Loading the ranges of a task right after they were saved at
    recurring, week or month scope, and saving them again at that scope,
    changes nothing at all in the engine: not the stored ranges, not the
    stamps, not the counter.  (The counter of a constructed engine is
    never 0.) *)
Theorem save_of_loaded_ranges_is_idle (today today' : Z) (st : WeekCore)
    (taskKey : string) (scope : Scope) (weekRanges : WeekRanges) :
  scope ≠ ScToday → _saveSeq st ≠ 0 →
  let st' := saveRanges today st taskKey scope weekRanges in
  saveRanges today' st' taskKey scope (getExactForScope today' st' taskKey scope) = st'.
Proof.
  intros Hsc Hseq st'.
  assert (Hload : getExactForScope today' st' taskKey scope
                  = week (_normalizeAndClip today st scope taskKey weekRanges)).
  { by apply editor_load_after_save. }
  rewrite Hload.
  pose proof (week_fixed_point today today' st scope scope taskKey weekRanges) as Hfix.
  cbv zeta in Hfix. fold st' in Hfix.
  set (res := _normalizeAndClip today st scope taskKey weekRanges) in *.
  unfold saveRanges at 1. cbv zeta. rewrite Hfix.
  unfold st'. destruct scope; [| | |done].
  - cbn [saveRanges TASKS EXACT EXCEPTIONS LAST_SCOPE ORDER _saveSeq weekOffset
         visibleWeekFirst ord_recurring ord_week ord_month]. fold res.
    rewrite -> stampIfUnset_again by done. cbn [fst snd].
    by rewrite !insert_insert_eq.
  - cbn [saveRanges TASKS EXACT EXCEPTIONS LAST_SCOPE ORDER _saveSeq weekOffset
         visibleWeekFirst ord_recurring ord_week ord_month byDate byWeek byMonth].
    fold res. rewrite lookup_insert_eq. cbn [default]. unfold id.
    rewrite -> stampIfUnset_again by done. cbn [fst snd].
    by rewrite !insert_insert_eq insert2_insert2_eq.
  - cbn [saveRanges TASKS EXACT EXCEPTIONS LAST_SCOPE ORDER _saveSeq weekOffset
         visibleWeekFirst ord_recurring ord_week ord_month byDate byWeek byMonth].
    fold res. rewrite lookup_insert_eq. cbn [default]. unfold id.
    rewrite -> stampIfUnset_again by done. cbn [fst snd].
    by rewrite !insert_insert_eq insert2_insert2_eq.
Qed.

Lemma save_of_loaded_ranges_is_idle_witness :
  let st := construct sampleToday sampleTasks in
  let st' := saveRanges sampleToday st "work" ScMonth
               [[mkRange 607 600; mkRange 30 50]; [mkRange 1380 60]] in
  ScMonth ≠ ScToday ∧ _saveSeq st ≠ 0 ∧
  saveRanges sampleToday st' "work" ScMonth
             (getExactForScope sampleToday st' "work" ScMonth) = st'.
Proof.
  intros st st'.
  assert (Hsc : ScMonth ≠ ScToday) by done.
  assert (Hseq : _saveSeq st ≠ 0) by done.
  split; [exact Hsc|]. split; [exact Hseq|].
  exact (save_of_loaded_ranges_is_idle sampleToday sampleToday st "work" ScMonth
           [[mkRange 607 600; mkRange 30 50]; [mkRange 1380 60]] Hsc Hseq).
Defined.

(** ** Export and import *)

Lemma effective_import (st st1 : WeekCore) (k : string) :
  visibleWeekFirst st1 = visibleWeekFirst st →
  EXCEPTIONS st1 = EXCEPTIONS st →
  EXACT st1 !! k = (λ w, _deepCopyWeek (Some w)) <$> EXACT st !! k →
  _effectiveExactForTask st1 k = _effectiveExactForTask st k.
Proof.
  intros Hv Hx HE. apply list_eq. intros d.
  destruct (decide (d < 7)%nat) as [Hd|Hd].
  - rewrite -> !effective_lookup by done. unfold scopedWeek.
    rewrite Hv Hx HE. do 2 f_equal.
    repeat case_match; try done; simplify_eq.
    destruct (EXACT st !! k) as [w|]; [|done].
    by apply dayOf_deepCopyWeek.
  - by rewrite -> !lookup_ge_None_2 by (rewrite effective_length; lia).
Qed.

Lemma orderedTasks_ext (st st1 : WeekCore) :
  TASKS st1 = TASKS st → (∀ k, seqForTask st1 k = seqForTask st k) →
  orderedTasks st1 = orderedTasks st.
Proof.
  intros Ht Hs. unfold orderedTasks. rewrite Ht. apply sortByKey_ext.
  apply Forall_forall. intros k _. apply Hs.
Qed.

Lemma rebuild_ext (st st1 : WeekCore) :
  orderedTasks st1 = orderedTasks st →
  (∀ k, _effectiveExactForTask st1 k = _effectiveExactForTask st k) →
  _rebuildSlotsForVisibleWeek st1 = _rebuildSlotsForVisibleWeek st.
Proof.
  intros Hord He. unfold _rebuildSlotsForVisibleWeek.
  rewrite Hord. unfold applyTasks. apply foldl_ext_in. intros occ k _.
  by rewrite He.
Qed.

(** X16. Export and import.  [setState(getState())] of an engine [st] into
    an engine [st0] brings over the exceptions, the stamps and the
    last-used scopes as they are and the recurring template as seven-day
    copies; the catalog, the visible week and the save counter of [st0]
    stay.  Exporting again gives the same export.  When both engines show
    the same week every task has the effective ranges it had in [st], and
    with the same catalog the rendered grid is the same; and importing an
    engine's own export changes nothing when its recurring weeks have
    seven days, as they have in every engine driven by calls. *)
Theorem export_import_round_trip (st st0 : WeekCore) :
  let st1 := importState (getState st) st0 in
  (EXCEPTIONS st1 = EXCEPTIONS st ∧ ORDER st1 = ORDER st ∧
   LAST_SCOPE st1 = LAST_SCOPE st) ∧
  (∀ k, EXACT st1 !! k = (λ w, _deepCopyWeek (Some w)) <$> EXACT st !! k) ∧
  (TASKS st1 = TASKS st0 ∧ _saveSeq st1 = _saveSeq st0 ∧
   weekOffset st1 = weekOffset st0 ∧ visibleWeekFirst st1 = visibleWeekFirst st0) ∧
  getState st1 = getState st ∧
  (visibleWeekFirst st0 = visibleWeekFirst st →
     (∀ k, _effectiveExactForTask st1 k = _effectiveExactForTask st k) ∧
     (TASKS st0 = TASKS st →
        _rebuildSlotsForVisibleWeek st1 = _rebuildSlotsForVisibleWeek st)) ∧
  ((∀ k w, EXACT st !! k = Some w → length w = 7%nat) →
     importState (getState st) st = st).
Proof.
  intros st1.
  assert (HE : ∀ k, EXACT st1 !! k = (λ w, _deepCopyWeek (Some w)) <$> EXACT st !! k).
  { intros k. unfold st1, importState, setState, getState, _deepCopyExactMap.
    cbn [EXACT exEXACT from_option]. rewrite !lookup_fmap.
    destruct (EXACT st !! k) as [w|]; [|done]. cbn [fmap option_fmap option_map].
    f_equal. apply deepCopyWeek_id, deepCopyWeek_length. }
  split; [done|]. split; [exact HE|]. split; [done|].
  split.
  { unfold getState. f_equal; try done.
    apply map_eq. intros k. unfold _deepCopyExactMap.
    rewrite lookup_fmap HE lookup_fmap.
    destruct (EXACT st !! k) as [w|]; [|done]. cbn [fmap option_fmap option_map].
    f_equal. apply deepCopyWeek_id, deepCopyWeek_length. }
  split.
  { intros Hv.
    assert (Heff : ∀ k, _effectiveExactForTask st1 k = _effectiveExactForTask st k).
    { intros k. by apply effective_import. }
    split; [exact Heff|]. intros Ht. apply rebuild_ext; [|exact Heff].
    apply orderedTasks_ext; [exact Ht|].
    intros k. unfold seqForTask, definedSeqs. by rewrite Hv. }
  intros H7. destruct st as [T E X L O n wo vf].
  unfold importState, setState, getState.
  cbn [exEXACT exEXCEPTIONS exORDER exLAST_SCOPE from_option default
       TASKS EXACT EXCEPTIONS LAST_SCOPE ORDER _saveSeq weekOffset visibleWeekFirst].
  cbn [EXACT] in H7. f_equal.
  apply map_eq. intros k. unfold _deepCopyExactMap. rewrite !lookup_fmap.
  destruct (E !! k) as [w|] eqn:Ek; [|done]. cbn [fmap option_fmap option_map].
  f_equal. rewrite -> (deepCopyWeek_id w) by (by eapply H7).
  apply deepCopyWeek_id. by eapply H7.
Qed.

Lemma export_import_round_trip_witness :
  visibleWeekFirst (construct sampleToday sampleTasks) = visibleWeekFirst sampleEngine ∧
  _effectiveExactForTask
    (importState (getState sampleEngine) (construct sampleToday sampleTasks)) "work"
  = _effectiveExactForTask sampleEngine "work".
Proof.
  assert (Hv : visibleWeekFirst (construct sampleToday sampleTasks)
               = visibleWeekFirst sampleEngine) by reflexivity.
  split; [exact Hv|].
  destruct (export_import_round_trip sampleEngine (construct sampleToday sampleTasks))
    as (_ & _ & _ & _ & H & _).
  exact (proj1 (H Hv) "work").
Defined.

(** ** The current-hour hint *)

Lemma spreadOffset_mono (base extra : Z) (a b : nat) :
  0 ≤ base → (a ≤ b)%nat → spreadOffset base extra a ≤ spreadOffset base extra b.
Proof. intros Hb Hab. unfold spreadOffset. nia. Qed.

Lemma geometry_rows (W H : Z) (r : nat) :
  0 < H → (r < 24)%nat →
  let g := _computeGeometry W H in
  ∃ y h, rowY g !! r = Some y ∧ rowY g !! S r = Some (y + h) ∧ rowH g !! r = Some h ∧
         0 ≤ y ∧ 0 ≤ h ∧ y + h ≤ H.
Proof.
  intros HH Hr g. unfold g, _computeGeometry. cbn [rowY rowH].
  set (base := H `div` 24). set (extra := H - base * 24).
  destruct (spreadLoop_spec base extra 24) as (H1 & _ & H2).
  assert (Hbase : 0 ≤ base) by (unfold base; apply Z.div_pos; lia).
  exists (spreadOffset base extra r), (spreadWidth base extra r).
  split; [apply H2; lia|]. split; [rewrite -spreadOffset_S; apply H2; lia|].
  split; [rewrite H1 list_lookup_fmap; by rewrite -> lookup_seq_lt by lia|].
  pose proof (spreadOffset_mono base extra 0 r Hbase ltac:(lia)) as M0.
  pose proof (spreadOffset_mono base extra (S r) 24 Hbase ltac:(lia)) as M1.
  rewrite spreadOffset_S in M1.
  pose proof (spreadOffset_total H 24 ltac:(lia)) as Ht.
  change (Z.of_nat 24) with 24 in Ht. fold base in Ht. fold extra in Ht.
  assert (spreadOffset base extra 0 = 0) as E0 by (unfold spreadOffset; lia).
  split; [lia|]. split; [|lia].
  unfold spreadWidth. case_bool_decide; lia.
Qed.

Lemma geometry_cols (W H : Z) (c : nat) :
  0 < W → (c < 7)%nat →
  let g := _computeGeometry W H in
  ∃ x w, colX g !! c = Some x ∧ colW g !! c = Some w ∧ 0 ≤ x ∧ 0 ≤ w ∧ x + w ≤ W.
Proof.
  intros HW Hc g. unfold g, _computeGeometry. cbn [colX colW].
  set (base := W `div` 7). set (extra := W - base * 7).
  destruct (spreadLoop_spec base extra 7) as (H1 & _ & H2).
  assert (Hbase : 0 ≤ base) by (unfold base; apply Z.div_pos; lia).
  exists (spreadOffset base extra c), (spreadWidth base extra c).
  split; [apply H2; lia|].
  split; [rewrite H1 list_lookup_fmap; by rewrite -> lookup_seq_lt by lia|].
  pose proof (spreadOffset_mono base extra 0 c Hbase ltac:(lia)) as M0.
  pose proof (spreadOffset_mono base extra (S c) 7 Hbase ltac:(lia)) as M1.
  rewrite spreadOffset_S in M1.
  pose proof (spreadOffset_total W 7 ltac:(lia)) as Ht.
  change (Z.of_nat 7) with 7 in Ht. fold base in Ht. fold extra in Ht.
  assert (spreadOffset base extra 0 = 0) as E0 by (unfold spreadOffset; lia).
  split; [lia|]. split; [|lia].
  unfold spreadWidth. case_bool_decide; lia.
Qed.

(** X17. The current-hour hint.  [_nowRectOrNull] gives no rectangle
    exactly when the current day lies outside the visible week.
    Otherwise, on the geometry computed for a grid of positive size, the
    rectangle has four numbers; it starts at the left edge of the column
    of the current weekday and is no wider than that column; it lies
    inside the grid, contains the whole row of the current hour and is at
    most ten pixels taller than that row. *)
Theorem now_hint_rectangle (now : Clock) (st : WeekCore) (W H : Z) :
  0 < W → 0 < H →
  0 ≤ getHours now < 24 → 0 ≤ getMinutes now < 60 → 0 ≤ getSeconds now < 60 →
  let geom := _computeGeometry W H in
  let hour := Z.to_nat (getHours now) in
  let dow := Z.to_nat (getDay (localDay now)) in
  (_nowRectOrNull now st geom = None ↔
   ¬ (visibleWeekFirst st ≤ localDay now ≤ visibleWeekFirst st + 6)) ∧
  ∀ r, _nowRectOrNull now st geom = Some r →
    ∃ l t w h hourTop hourH colWidth,
      Rect.left r = Some l ∧ Rect.top r = Some t ∧
      Rect.width r = Some w ∧ Rect.height r = Some h ∧
      rowY geom !! hour = Some hourTop ∧ rowH geom !! hour = Some hourH ∧
      colX geom !! dow = Some l ∧ colW geom !! dow = Some colWidth ∧
      0 ≤ t ∧ t ≤ hourTop ∧ hourTop + hourH ≤ t + h ∧ t + h ≤ H ∧ h ≤ hourH + 10 ∧
      0 ≤ l ∧ 0 ≤ w ∧ w ≤ colWidth ∧ l + w ≤ W.
Proof.
  intros HW HH Hh Hm Hs geom hour dow.
  pose proof (getDay_bounds (localDay now)) as Hdow.
  assert (Hhour : ((getHours now * 60 + getMinutes now) * 60 + getSeconds now) `div` 3600
                  = getHours now).
  { symmetry. apply (Z.div_unique _ 3600 _ (getMinutes now * 60 + getSeconds now)); lia. }
  destruct (geometry_rows W H hour HH ltac:(lia)) as (y & h & Hy & Hy1 & Hh' & ? & ? & ?).
  destruct (geometry_cols W H dow HW ltac:(lia)) as (x & w & Hx & Hw & ? & ? & ?).
  fold geom in Hy, Hy1, Hh', Hx, Hw.
  assert (Htot : totalH geom = H) by done.
  clearbody geom.
  unfold _nowRectOrNull, _startOfDay, _addDays. cbv zeta. rewrite Hhour.
  split.
  - destruct (bool_decide (localDay now < visibleWeekFirst st)) eqn:E1;
      destruct (bool_decide (localDay now > visibleWeekFirst st + 6)) eqn:E2;
      cbn [orb];
      try apply bool_decide_eq_true in E1; try apply bool_decide_eq_true in E2;
      try apply bool_decide_eq_false in E1; try apply bool_decide_eq_false in E2;
      split; try done; intros; lia.
  - intros r. destruct (_ || _); [done|]. intros Hr. apply (inj Some) in Hr. subst r.
    assert (A0 : at_index (rowY geom) (getHours now) = Some y).
    { unfold at_index. by rewrite -> bool_decide_true by lia. }
    assert (A1 : at_index (rowY geom) (getHours now + 1) = Some (y + h)).
    { unfold at_index. rewrite -> bool_decide_true by lia.
      replace (Z.to_nat (getHours now + 1)) with (S hour) by lia. done. }
    assert (A2 : at_index (colX geom) (getDay (localDay now)) = Some x).
    { unfold at_index. by rewrite -> bool_decide_true by lia. }
    assert (A3 : at_index (colW geom) (getDay (localDay now)) = Some w).
    { unfold at_index. by rewrite -> bool_decide_true by lia. }
    rewrite A0 A1 A2 A3. cbn [mbind option_bind fmap option_fmap option_map
                               Rect.left Rect.top Rect.width Rect.height].
    replace (y + h - y) with h by lia.
    rewrite Htot.
    set (extra := Z.min 10 (h `div` 4)).
    assert (0 ≤ extra ≤ 10) by (unfold extra; pose proof (Z.div_pos h 4); lia).
    pose proof (Z.div_pos extra 2 ltac:(lia) ltac:(lia)).
    assert (extra `div` 2 ≤ extra) by (apply Z.div_le_upper_bound; lia).
    case_bool_decide.
    + eexists x, _, _, _, y, h, w. split_and!; try done; cbn [option_map]; try lia.
    + eexists x, _, _, _, y, h, w. split_and!; try done; lia.
Qed.

Lemma now_hint_rectangle_witness :
  let now := mkClock sampleToday 9 30 0 in
  let r := Rect.mk (Some 600) (Some 178) (Some 99) (Some 25) in
  _nowRectOrNull now sampleEngine (_computeGeometry 700 480) = Some r ∧
  ∃ t h, Rect.top r = Some t ∧ Rect.height r = Some h ∧ 0 ≤ t ∧ t + h ≤ 480.
Proof.
  intros now r.
  assert (Hr : _nowRectOrNull now sampleEngine (_computeGeometry 700 480) = Some r)
    by (by vm_compute).
  split; [exact Hr|].
  destruct (now_hint_rectangle now sampleEngine 700 480) as [_ H];
    [lia|lia|simpl; lia|simpl; lia|simpl; lia|].
  destruct (H r Hr) as (l & t & w & h & hourTop & hourH & colWidth & _ & Ht & _ & Hh
                        & _ & _ & _ & _ & H0 & H1 & H2 & H3 & _).
  exists t, h. split; [exact Ht|]. split; [exact Hh|]. split; [exact H0|]. lia.
Defined.

(** ** Rendering and the render cache *)

Lemma rebuild_gridShape (st : WeekCore) : gridShape (_rebuildSlotsForVisibleWeek st).
Proof. unfold _rebuildSlotsForVisibleWeek. apply applyTasks_gridShape, blank_gridShape. Qed.

Lemma computeGeometry_totals (W H : Z) :
  totalW (_computeGeometry W H) = W ∧ totalH (_computeGeometry W H) = H.
Proof. done. Qed.

Lemma render_idle (now : Clock) (size : option Size) (forceGeom : bool) (e : Engine) :
  readySize size = None →
  _render now size forceGeom e
  = (e, [onRenderTitle; onRenderLabels SHORT_DOW; onRenderHours hourStamps]).
Proof.
  unfold readySize, _render. destruct size as [sz|]; [|done].
  by destruct (bool_decide (width sz = 0) || bool_decide (height sz = 0)).
Qed.

Lemma render_ready (now : Clock) (size : option Size) (sz : Size) (forceGeom : bool)
    (e : Engine) :
  readySize size = Some sz →
  let recompute :=
    forceGeom ||
    match _geom e with
    | Some g => bool_decide (totalW g ≠ width sz) || bool_decide (totalH g ≠ height sz)
    | None => true
    end in
  let geom := if recompute then _computeGeometry (width sz) (height sz)
              else default (_computeGeometry (width sz) (height sz)) (_geom e) in
  let slots := _rebuildSlotsForVisibleWeek (core e) in
  width sz ≠ 0 ∧ height sz ≠ 0 ∧
  _render now size forceGeom e
  = (mkEngine (core e) (COLORS e) (LABELS e) (Some geom) slots,
     [onRenderTitle; onRenderLabels SHORT_DOW; onRenderHours hourStamps]
     ++ (if recompute then [onRenderMask geom] else [])
     ++ [onRenderBlocks slots geom (COLORS e);
         onRenderNowHint (_nowRectOrNull now (core e) geom)]).
Proof.
  unfold readySize, _render. destruct size as [sz'|]; [|done].
  destruct (bool_decide (width sz' = 0)) eqn:E1; [done|].
  destruct (bool_decide (height sz' = 0)) eqn:E2; [done|].
  cbn [orb]. intros [= ->]. cbv zeta.
  apply bool_decide_eq_false in E1, E2. split; [done|]. split; [done|].
  destruct (_geom e) as [g|]; [|by rewrite orb_true_r].
  cbn [default]. rewrite orb_assoc.
  by destruct (forceGeom || bool_decide (totalW g ≠ width sz)
               || bool_decide (totalH g ≠ height sz)).
Qed.

(** X18. What one [_render] does.  When [measureGrid()] gives no size or
    a size with a zero side, only the title, label and hour hooks are
    called and the engine, with its cached geometry and grid, stays as it
    is.  Otherwise the cached grid becomes the grid rebuilt from the
    store, the cached geometry has the measured totals, and the block
    hook gets that grid and geometry, followed by the hint hook; the
    geometry is computed anew, and the mask hook called, exactly when
    forced, when none was cached or when the measured size differs from
    the cached totals.  Rendering once more with the same size, unforced,
    calls no mask hook and leaves the engine as it is. *)
Theorem render_paints_when_ready (now : Clock) (size : option Size)
    (forceGeom : bool) (e : Engine) :
  let texts := [onRenderTitle; onRenderLabels SHORT_DOW; onRenderHours hourStamps] in
  let r := _render now size forceGeom e in
  (readySize size = None → r = (e, texts)) ∧
  (∀ sz, readySize size = Some sz →
     let recompute :=
       forceGeom ||
       match _geom e with
       | Some g => bool_decide (totalW g ≠ width sz) || bool_decide (totalH g ≠ height sz)
       | None => true
       end in
     ∃ geom,
       totalW geom = width sz ∧ totalH geom = height sz ∧
       (recompute = true → geom = _computeGeometry (width sz) (height sz)) ∧
       (recompute = false → _geom e = Some geom) ∧
       r.1 = mkEngine (core e) (COLORS e) (LABELS e) (Some geom)
                      (_rebuildSlotsForVisibleWeek (core e)) ∧
       r.2 = texts ++ (if recompute then [onRenderMask geom] else [])
                   ++ [onRenderBlocks (_rebuildSlotsForVisibleWeek (core e)) geom (COLORS e);
                       onRenderNowHint (_nowRectOrNull now (core e) geom)] ∧
       ∀ now', _render now' size false r.1
               = (r.1, texts ++ [onRenderBlocks (_rebuildSlotsForVisibleWeek (core e))
                                                geom (COLORS e);
                                 onRenderNowHint (_nowRectOrNull now' (core e) geom)])).
Proof.
  intros texts r. split; [by apply render_idle|].
  intros sz Hsz recompute.
  destruct (render_ready now size sz forceGeom e Hsz) as (Hw & Hh & Hr).
  cbv zeta in Hr. fold recompute in Hr. fold r in Hr.
  set (geom := if recompute then _computeGeometry (width sz) (height sz)
               else default (_computeGeometry (width sz) (height sz)) (_geom e)) in *.
  assert (Htot : totalW geom = width sz ∧ totalH geom = height sz).
  { unfold geom, recompute. destruct forceGeom; [done|]. cbn [orb].
    destruct (_geom e) as [g|]; [|done]. cbn [default].
    destruct (bool_decide (totalW g ≠ width sz)) eqn:E1; [done|].
    destruct (bool_decide (totalH g ≠ height sz)) eqn:E2; [done|].
    apply bool_decide_eq_false, dec_stable in E1.
    apply bool_decide_eq_false, dec_stable in E2. done. }
  exists geom. split; [apply Htot|]. split; [apply Htot|].
  split; [intros Hc; unfold geom; by rewrite Hc|].
  split.
  { intros Hc. unfold geom. rewrite Hc. unfold recompute in Hc.
    destruct (_geom e) as [g|]; [done|]. by rewrite orb_true_r in Hc. }
  rewrite Hr. split; [done|]. split; [done|].
  intros now'. cbn [fst].
  destruct (render_ready now' size sz false
              (mkEngine (core e) (COLORS e) (LABELS e) (Some geom)
                        (_rebuildSlotsForVisibleWeek (core e))) Hsz) as (_ & _ & Hr').
  cbv zeta in Hr'. cbn [_geom core COLORS LABELS orb default] in Hr'.
  destruct Htot as [Ht1 Ht2].
  rewrite -> (bool_decide_false (totalW geom ≠ _)) in Hr' by (by intros ?).
  rewrite -> (bool_decide_false (totalH geom ≠ _)) in Hr' by (by intros ?).
  cbn [orb] in Hr'. exact Hr'.
Qed.

Lemma render_paints_when_ready_witness :
  let e := mkEngine sampleEngine ∅ ∅ None _blankWeekSlots in
  let now := mkClock sampleToday 9 30 0 in
  readySize (Some (mkSize 700 0)) = None ∧
  _render now (Some (mkSize 700 0)) true e
  = (e, [onRenderTitle; onRenderLabels SHORT_DOW; onRenderHours hourStamps]).
Proof.
  intros e now.
  assert (H : readySize (Some (mkSize 700 0)) = None) by reflexivity.
  split; [exact H|].
  exact (proj1 (render_paints_when_ready now (Some (mkSize 700 0)) true e) H).
Defined.

(** ** The cache over a sequence of calls *)

Lemma render_coherent (now : Clock) (size : option Size) (forceGeom : bool)
    (e : Engine) :
  cacheCoherent e →
  cacheCoherent (_render now size forceGeom e).1 ∧
  (∀ slots g colors,
     onRenderBlocks slots g colors ∈ (_render now size forceGeom e).2 →
     gridShape slots ∧ g = _computeGeometry (totalW g) (totalH g)) ∧
  (∀ sz, readySize size = Some sz →
     _allSlots (_render now size forceGeom e).1
       = _rebuildSlotsForVisibleWeek (core (_render now size forceGeom e).1) ∧
     ∃ g, _geom (_render now size forceGeom e).1 = Some g ∧
          g = _computeGeometry (width sz) (height sz)).
Proof.
  intros [Hshape Hgeom].
  destruct (readySize size) as [sz|] eqn:Hsz.
  - destruct (render_ready now size sz forceGeom e Hsz) as (Hw & Hh & Hr).
    cbv zeta in Hr. rewrite Hr. cbn [fst snd _allSlots _geom core].
    set (recompute := forceGeom || _) in *.
    set (geom := if recompute then _ else _) in *.
    assert (Hg : geom = _computeGeometry (width sz) (height sz)).
    { unfold geom. destruct recompute eqn:Hrec; [done|].
      unfold recompute in Hrec. destruct forceGeom; [done|]. cbn [orb] in Hrec.
      destruct (_geom e) as [g|]; [|done]. cbn [default].
      destruct Hgeom as (Hg & _).
      apply orb_false_iff in Hrec as [E1 E2].
      apply bool_decide_eq_false, dec_stable in E1.
      apply bool_decide_eq_false, dec_stable in E2.
      rewrite -E1 -E2. exact Hg. }
    split; [|split].
    + split; [apply rebuild_gridShape|]. cbn [_geom]. rewrite Hg.
      split_and!; [reflexivity|exact Hw|exact Hh].
    + intros slots g colors Hin.
      rewrite !elem_of_app in Hin. destruct Hin as [Hin|[Hin|Hin]].
      * repeat (apply elem_of_cons in Hin as [Hin|Hin]; [done|]).
        by apply elem_of_nil in Hin.
      * destruct recompute; [|by apply elem_of_nil in Hin].
        apply list_elem_of_singleton in Hin. done.
      * apply elem_of_cons in Hin as [Hin|Hin].
        { injection Hin as -> -> _. split; [apply rebuild_gridShape|].
          by rewrite Hg. }
        apply list_elem_of_singleton in Hin. done.
    + intros sz' [= <-]. split; [done|]. by exists geom.
  - rewrite -> render_idle by done. cbn [fst snd]. split; [done|]. split; [|done].
    intros slots g colors Hin.
    repeat (apply elem_of_cons in Hin as [Hin|Hin]; [done|]).
    by apply elem_of_nil in Hin.
Qed.

Lemma runOp_coherent (e : Engine) (op : Op) :
  cacheCoherent e →
  cacheCoherent (runOp e op).1 ∧
  (∀ slots g colors, onRenderBlocks slots g colors ∈ (runOp e op).2 →
     gridShape slots ∧ g = _computeGeometry (totalW g) (totalH g)) ∧
  (∀ sz, paintedSize op = Some sz →
     _allSlots (runOp e op).1 = _rebuildSlotsForVisibleWeek (core (runOp e op).1) ∧
     ∃ g, _geom (runOp e op).1 = Some g ∧ g = _computeGeometry (width sz) (height sz)).
Proof.
  intros He.
  destruct op; cbn [runOp paintedSize];
    try (apply render_coherent; exact He);
    (split; [exact He|]; split; [intros ? ? ? Hin; by apply elem_of_nil in Hin|done]).
Qed.

Lemma runOps_snoc (e : Engine) (ops : list Op) (op : Op) :
  runOps e (ops ++ [op])
  = ((runOp (runOps e ops).1 op).1, (runOps e ops).2 ++ (runOp (runOps e ops).1 op).2).
Proof. unfold runOps. by rewrite foldl_app. Qed.

Lemma runOps_coherent (e : Engine) (ops : list Op) :
  cacheCoherent e →
  cacheCoherent (runOps e ops).1 ∧
  (∀ slots g colors, onRenderBlocks slots g colors ∈ (runOps e ops).2 →
     gridShape slots ∧ g = _computeGeometry (totalW g) (totalH g)).
Proof.
  intros He. induction ops as [|op ops IH] using rev_ind.
  - split; [done|]. intros ? ? ? Hin. by apply elem_of_nil in Hin.
  - rewrite runOps_snoc. cbn [fst snd]. destruct IH as [IH1 IH2].
    destruct (runOp_coherent _ op IH1) as (H1 & H2 & _).
    split; [done|]. intros slots g colors Hin.
    apply elem_of_app in Hin as [Hin|Hin]; [by eapply IH2|by eapply H2].
Qed.

Lemma construct_coherent (now : Clock) (size : option Size) (tasks : option (list Task)) :
  cacheCoherent (Public.construct now size tasks).1 ∧
  (∀ slots g colors, onRenderBlocks slots g colors ∈ (Public.construct now size tasks).2 →
     gridShape slots ∧ g = _computeGeometry (totalW g) (totalH g)).
Proof.
  unfold Public.construct.
  set (e0 := mkEngine _ _ _ None _blankWeekSlots).
  assert (He0 : cacheCoherent e0) by (split; [apply blank_gridShape|done]).
  destruct (render_coherent now size false e0 He0) as (H1 & H2 & _). done.
Qed.

(** X19. The render cache over any sequence of calls on an engine, from
    its construction on, whatever [measureGrid()] returns in each call.
    The cached grid always has seven rows of 96 cells; cached geometry
    is always the geometry computed for its own totals, which are not
    zero, and as long as there is none the cached grid is blank; every
    call of the block hook got a grid of that shape and such a geometry.
    After a call that renders while the grid has a size with no zero
    side ([gotoWeek], [saveRanges], [setState], [rebuild]) the cached
    grid is the grid rebuilt from the store and the cached geometry is
    the one for that size; [replaceCatalog], [setColor] and [setLabel]
    leave the cached grid and geometry as they were. *)
Theorem engine_cache_invariants (now : Clock) (size : option Size)
    (tasks : option (list Task)) (ops : list Op) :
  let start := Public.construct now size tasks in
  let final := runOps start.1 ops in
  cacheCoherent final.1 ∧
  (∀ slots g colors, onRenderBlocks slots g colors ∈ start.2 ++ final.2 →
     gridShape slots ∧ g = _computeGeometry (totalW g) (totalH g)) ∧
  (∀ op, let e' := (runOp final.1 op).1 in
     (∀ sz, paintedSize op = Some sz →
        _allSlots e' = _rebuildSlotsForVisibleWeek (core e') ∧
        _geom e' = Some (_computeGeometry (width sz) (height sz))) ∧
     ((∃ ts, op = OpReplaceCatalog ts) ∨ (∃ k v, op = OpSetColor k v) ∨
      (∃ k v, op = OpSetLabel k v) →
        _allSlots e' = _allSlots final.1 ∧ _geom e' = _geom final.1)).
Proof.
  intros start final.
  destruct (construct_coherent now size tasks) as [Hc0 Hh0].
  destruct (runOps_coherent start.1 ops Hc0) as [Hc Hh]. fold final in Hc, Hh.
  split; [exact Hc|]. split.
  { intros slots g colors Hin.
    apply elem_of_app in Hin as [Hin|Hin]; [by eapply Hh0|by eapply Hh]. }
  intros op e'. split.
  - intros sz Hsz. destruct (runOp_coherent final.1 op Hc) as (_ & _ & H3).
    destruct (H3 sz Hsz) as (Hs & g & Hg & ->). by split.
  - intros [[ts ->]|[(k & v & ->)|(k & v & ->)]]; done.
Qed.

Lemma engine_cache_invariants_witness :
  let now := mkClock sampleToday 9 30 0 in
  let e := (runOps (Public.construct now None (Some sampleTasks)).1
              [OpSaveRanges now None "work" ScRecurring [[mkRange 540 600]]]).1 in
  let e' := (runOp e (OpRebuild now (Some (mkSize 700 480)))).1 in
  _geom e = None ∧ _allSlots e = _blankWeekSlots ∧
  _allSlots e' = _rebuildSlotsForVisibleWeek (core e') ∧
  _geom e' = Some (_computeGeometry 700 480).
Proof.
  intros now e e'.
  split; [reflexivity|]. split; [reflexivity|].
  destruct (engine_cache_invariants now None (Some sampleTasks)
              [OpSaveRanges now None "work" ScRecurring [[mkRange 540 600]]])
    as (_ & _ & H).
  destruct (H (OpRebuild now (Some (mkSize 700 480)))) as [H1 _].
  exact (H1 (mkSize 700 480) eq_refl).
Defined.

(** ** Colors and labels *)

Lemma catalogMap_snoc (f : Task → string) (ts : list Task) (t : Task) :
  catalogMap f (ts ++ [t]) = <[key t := f t]> (catalogMap f ts).
Proof. unfold catalogMap. by rewrite rev_unit fmap_cons list_to_map_cons. Qed.

Lemma catalogMap_lookup (f : Task → string) (tasks : list Task) (k : string) :
  catalogMap f tasks !! k = f <$> last (filter (λ t, key t = k) tasks).
Proof.
  induction tasks as [|t ts IH] using rev_ind; [done|].
  rewrite catalogMap_snoc filter_app filter_cons filter_nil.
  destruct (decide (key t = k)) as [<-|Hne].
  - by rewrite lookup_insert_eq last_snoc.
  - rewrite -> lookup_insert_ne by done. by rewrite app_nil_r.
Qed.

(** X20. Colors and labels.  [replaceCatalog] makes the color and label
    dictionaries anew from the catalog: a key has the color and label of
    the last catalog task with that key and a key outside the catalog has
    none, so what [setColor] and [setLabel] had set is dropped; the store
    and the render cache are not touched.  [setColor] sets the color of
    one key, whether in the catalog or not, and nothing else. *)
Theorem catalog_gives_colors_and_labels (tasks : list Task) (e : Engine)
    (k hex : string) :
  let e' := Public.replaceCatalog tasks e in
  COLORS e' !! k = color <$> last (filter (λ t, key t = k) tasks) ∧
  LABELS e' !! k = label <$> last (filter (λ t, key t = k) tasks) ∧
  (k ∉ key <$> tasks → COLORS e' !! k = None ∧ LABELS e' !! k = None) ∧
  Public.replaceCatalog tasks (setLabel k hex (setColor k hex e)) = e' ∧
  (EXACT (core e') = EXACT (core e) ∧ EXCEPTIONS (core e') = EXCEPTIONS (core e) ∧
   ORDER (core e') = ORDER (core e) ∧ _geom e' = _geom e ∧ _allSlots e' = _allSlots e) ∧
  (COLORS (setColor k hex e) !! k = Some hex ∧
   (∀ k', k' ≠ k → COLORS (setColor k hex e) !! k' = COLORS e !! k') ∧
   LABELS (setColor k hex e) = LABELS e ∧ core (setColor k hex e) = core e ∧
   _geom (setColor k hex e) = _geom e ∧ _allSlots (setColor k hex e) = _allSlots e).
Proof.
  intros e'.
  assert (Hnone : k ∉ key <$> tasks → filter (λ t, key t = k) tasks = []).
  { intros Hk. induction tasks as [|t ts IH]; [done|].
    rewrite fmap_cons in Hk. apply not_elem_of_cons in Hk as [Hne Hk].
    rewrite filter_cons. rewrite -> decide_False by done. by apply IH. }
  split; [apply catalogMap_lookup|]. split; [apply catalogMap_lookup|].
  split.
  { intros Hk. unfold e', Public.replaceCatalog. cbn [COLORS LABELS].
    by rewrite !catalogMap_lookup Hnone. }
  split; [done|]. split; [done|].
  split; [apply lookup_insert_eq|]. split; [|done].
  intros k' Hk'. cbn [setColor COLORS]. by rewrite lookup_insert_ne.
Qed.

Lemma catalog_gives_colors_and_labels_witness :
  let e := setColor "nap" "#123456" (mkEngine sampleEngine ∅ ∅ None _blankWeekSlots) in
  COLORS e !! "nap" = Some "#123456" ∧
  COLORS (Public.replaceCatalog sampleTasks e) !! "nap" = None ∧
  COLORS (Public.replaceCatalog sampleTasks e) !! "work" = Some "#D33C36".
Proof.
  intros e.
  destruct (catalog_gives_colors_and_labels sampleTasks e "nap" "#123456")
    as (_ & _ & H & _).
  destruct (catalog_gives_colors_and_labels sampleTasks e "work" "#D33C36")
    as (Hw & _).
  split; [reflexivity|]. split.
  - apply H. apply (bool_decide_unpack _). by vm_compute.
  - rewrite Hw. reflexivity.
Defined.

(** ** What is granted is what the grid shows *)

Lemma head_filter_only {A} (P : A → Prop) `{∀ x, Decision (P x)} (l : list A) (k : A) :
  k ∈ l → P k → (∀ x, x ∈ l → P x → x = k) → head (filter P l) = Some k.
Proof.
  intros Hk HP Hall.
  assert (Hin : k ∈ filter P l) by (by apply list_elem_of_filter).
  destruct (filter P l) as [|x rest] eqn:E; [by apply elem_of_nil in Hin|].
  simpl. f_equal.
  assert (Hx : x ∈ filter P l) by (rewrite E; apply list_elem_of_here).
  apply list_elem_of_filter in Hx as [HPx Hxl]. by apply Hall.
Qed.

Lemma weekVisits_day (exact : WeekRanges) (d : nat) (R : Range) (v : nat * Z) :
  (d < 7)%nat → R ∈ dayOf (Some exact) d → v ∈ rangeVisits d R → v ∈ weekVisits exact.
Proof.
  intros Hd HR Hv. unfold weekVisits.
  apply list_elem_of_bind. exists d. split; [|apply elem_of_seq; lia].
  apply list_elem_of_bind. by exists R.
Qed.

(** X21. What a save is granted is what the grid shows.  After a save for
    a catalog task, on every day on which the ranges in force for the
    task are the ones this save stored (for a week save: every day of the
    visible week for which the task has no date exception), each granted
    slot of that day is a cell of the rendered grid that holds the task's
    key. *)
Theorem granted_slots_are_shown (today : Z) (st : WeekCore) (taskKey : string)
    (scope : Scope) (weekRanges : WeekRanges) (d i : nat) :
  taskKey ∈ key <$> TASKS st → (d < 7)%nat → (i < 96)%nat →
  let res := _normalizeAndClip today st scope taskKey weekRanges in
  let st' := saveRanges today st taskKey scope weekRanges in
  covered (dayOf (Some (week res)) d) i = true →
  (_effectiveExactForTask st' taskKey !! d = week res !! d →
     cell (_rebuildSlotsForVisibleWeek st') d i = Some (Some taskKey)) ∧
  (scope = ScWeek →
   lookup2 (byDate (EXCEPTIONS st))
           (_fmtDate (_addDays (visibleWeekFirst st) (Z.of_nat d))) taskKey = None →
     cell (_rebuildSlotsForVisibleWeek st') d i = Some (Some taskKey)).
Proof.
  intros Hk Hd Hi res st' Hcov.
  pose proof (normalizeAndClip_clippedWeek today st scope taskKey weekRanges) as [Hlen Hdays].
  fold res in Hlen, Hdays.
  destruct (lookup_lt_is_Some_2 (week res) d ltac:(lia)) as [day Hday].
  assert (Hdo : dayOf (Some (week res)) d = day).
  { unfold dayOf. cbn [mbind option_bind]. by rewrite Hday. }
  rewrite Hdo in Hcov.
  assert (Hmain : _effectiveExactForTask st' taskKey !! d = week res !! d →
                  cell (_rebuildSlotsForVisibleWeek st') d i = Some (Some taskKey)).
  { intros Heff. rewrite Hday in Heff.
    destruct (clip_sound today st scope taskKey weekRanges d day i Hday Hi Hcov)
      as (_ & Hocc).
    rewrite -> occupancy_cell in Hocc by done. apply (inj Some) in Hocc.
    unfold _rebuildSlotsForVisibleWeek. rewrite applyTasks_cell.
    rewrite -> blank_cell by done. f_equal. unfold firstClaimant.
    apply head_filter_only.
    - apply orderedTasks_elem. unfold st'.
      by destruct (saveRanges_view today st taskKey scope weekRanges) as [-> _].
    - rewrite -> Forall_lookup in Hdays. pose proof (Hdays _ _ Hday) as [Hruns _].
      apply covered_true in Hcov as (R & HR & Hc).
      destruct (okRuns_elem _ _ _ _ Hruns HR) as (s & e & Hs & He & ->).
      simpl in Hc. rewrite -> !minsToSlot_mul in Hc by (unfold SLOTS_PER_DAY; lia).
      eapply (weekVisits_day _ d); [done| |].
      + unfold dayOf. cbn [mbind option_bind]. rewrite Heff. exact HR.
      + rewrite -> rangeVisits_run by done.
        apply list_elem_of_fmap. exists (Z.of_nat i). split; [done|].
        by apply elem_of_loopSlots.
    - intros k' Hk' Hv. destruct (decide (k' = taskKey)) as [|Hne]; [done|].
      exfalso. unfold st' in Hv.
      rewrite -> saveRanges_effective_other in Hv by done.
      eapply firstClaimant_None; [exact Hocc| |exact Hv].
      apply list_elem_of_filter. split; [done|].
      apply orderedTasks_elem. apply orderedTasks_elem in Hk'. unfold st' in Hk'.
      by destruct (saveRanges_view today st taskKey scope weekRanges) as [<- _]. }
  split; [exact Hmain|].
  intros -> Hnone. apply Hmain.
  rewrite -> effective_lookup by done.
  unfold st'. cbn [saveRanges EXCEPTIONS byDate visibleWeekFirst]. rewrite Hnone.
  unfold scopedWeek. cbn [saveRanges EXCEPTIONS byWeek visibleWeekFirst].
  rewrite lookup2_insert2. rewrite -> bool_decide_true by done.
  fold res. by rewrite Hdo Hday.
Qed.

Lemma granted_slots_are_shown_witness :
  let st' := saveRanges sampleToday sampleEngine "commute" ScWeek
               [[]; []; []; []; []; []; [mkRange 570 690]] in
  cell (_rebuildSlotsForVisibleWeek st') 6 38 = Some (Some "commute").
Proof.
  intros st'.
  assert (Hk : "commute" ∈ key <$> TASKS sampleEngine).
  { apply (bool_decide_unpack _). by vm_compute. }
  assert (Hc : covered (dayOf (Some (week (_normalizeAndClip sampleToday sampleEngine
                  ScWeek "commute" [[]; []; []; []; []; []; [mkRange 570 690]]))) 6) 38
               = true) by (by vm_compute).
  destruct (granted_slots_are_shown sampleToday sampleEngine "commute" ScWeek
              [[]; []; []; []; []; []; [mkRange 570 690]] 6 38 Hk
              ltac:(lia) ltac:(lia) Hc) as [_ H].
  apply H; [done|]. by vm_compute.
Defined.

(** ** The slots that a submitted week requests *)

Lemma covered_app (l1 l2 : DayRanges) (i : nat) :
  covered (l1 ++ l2) i = covered l1 i || covered l2 i.
Proof. unfold covered. apply existsb_app. Qed.

Lemma dayOf_pushDay (d d' : nat) (r : Range) (w : WeekRanges) :
  (d < length w)%nat →
  dayOf (Some (pushDay d r w)) d' =
    if bool_decide (d' = d) then dayOf (Some w) d' ++ [r] else dayOf (Some w) d'.
Proof.
  intros Hd. unfold dayOf, pushDay. cbn [mbind option_bind].
  case_bool_decide as Heq.
  - subst d'. rewrite list_lookup_alter_eq.
    destruct (lookup_lt_is_Some_2 w d Hd) as [day ->]. done.
  - by rewrite -> list_lookup_alter_ne by done.
Qed.

Lemma length_pushDay (d : nat) (r : Range) (w : WeekRanges) :
  length (pushDay d r w) = length w.
Proof. unfold pushDay. apply length_alter. Qed.

Lemma covered_pushDay (d d' : nat) (r : Range) (w : WeekRanges) (i : nat) :
  (d < length w)%nat →
  covered (dayOf (Some (pushDay d r w)) d') i =
    covered (dayOf (Some w) d') i
    || bool_decide (d' = d ∧ _minsToSlot (startMin r) ≤ Z.of_nat i < _minsToSlot (endMin r)).
Proof.
  intros Hd. rewrite -> dayOf_pushDay by done.
  destruct (decide (d' = d)) as [->|Hne].
  - rewrite -> bool_decide_true by done. rewrite covered_app. f_equal.
    unfold covered. simpl. rewrite orb_false_r. apply bool_decide_ext. tauto.
  - rewrite -> bool_decide_false by done.
    rewrite -> (bool_decide_false (_ ∧ _)) by tauto. by rewrite orb_false_r.
Qed.

Lemma minsToSlot_high (m : Z) : 1440 ≤ m → _minsToSlot m = 96.
Proof.
  intros Hm. unfold _minsToSlot, SLOTS_PER_DAY.
  pose proof (math_round_div15_mono 1440 m Hm) as H.
  change (math_round_div15 1440) with 96 in H. lia.
Qed.

Lemma minsToSlot_low (m : Z) : m ≤ 0 → _minsToSlot m = 0.
Proof.
  intros Hm. unfold _minsToSlot, SLOTS_PER_DAY.
  pose proof (math_round_div15_mono m 0 Hm) as H.
  change (math_round_div15 0) with 0 in H. lia.
Qed.

Lemma elem_of_pairs (d d' : nat) (j : Z) (l : list Z) :
  (d', j) ∈ (λ s, (d, s)) <$> l ↔ d' = d ∧ j ∈ l.
Proof.
  rewrite list_elem_of_fmap. split.
  - intros (s & [= -> ->] & Hs). done.
  - intros [-> Hj]. by exists j.
Qed.

Lemma normRange_covered (d d' : nat) (acc : WeekRanges * bool) (r : Range) (i : nat) :
  length acc.1 = 7%nat → (d < 7)%nat →
  length (normRange d acc r).1 = 7%nat ∧
  covered (dayOf (Some (normRange d acc r).1) d') i =
    covered (dayOf (Some acc.1) d') i
    || bool_decide ((d', Z.of_nat i) ∈ requestedBy d r) ∧
  (normRange d acc r).2 =
    acc.2 || bool_decide (toInt32 (endMin r) < toInt32 (startMin r)).
Proof.
  intros Hlen Hd. unfold normRange, requestedBy. cbv zeta.
  set (s := toInt32 (startMin r)). set (e := toInt32 (endMin r)).
  assert (Hmod : ((d + 1) `mod` 7 < 7)%nat) by (apply Nat.mod_upper_bound; lia).
  destruct (decide (e > s)) as [Hes|Hes].
  - rewrite -> !(bool_decide_true (e > s)) by done.
    rewrite -> (bool_decide_false (e < s)) by lia. rewrite orb_false_r.
    pose proof (round15_mono s e ltac:(lia)) as Hmono.
    destruct (decide (_round15 e > _round15 s)) as [Hr|Hr].
    + rewrite -> bool_decide_true by done. cbn [fst snd].
      rewrite length_pushDay. split; [done|]. split; [|done].
      rewrite -> covered_pushDay by lia. f_equal. apply bool_decide_ext.
      rewrite elem_of_pairs elem_of_loopSlots. cbn [startMin endMin]. tauto.
    + rewrite -> bool_decide_false by done. split; [done|]. split; [|done].
      rewrite -> (bool_decide_false (_ ∈ _)); [by rewrite orb_false_r|].
      rewrite elem_of_pairs elem_of_loopSlots.
      assert (_round15 e = _round15 s) as -> by lia. lia.
  - rewrite -> !(bool_decide_false (e > s)) by done.
    destruct (decide (e < s)) as [Hlt|Hge].
    + rewrite -> !(bool_decide_true (e < s)) by done. rewrite orb_true_r.
      cbn [fst snd].
      assert (Hl1 : length (if bool_decide (_round15 (24 * 60) > _round15 s)
                            then pushDay d (mkRange (_round15 s) (_round15 (24 * 60))) acc.1
                            else acc.1) = 7%nat).
      { case_bool_decide; by rewrite ?length_pushDay. }
      split; [repeat case_bool_decide; by rewrite ?length_pushDay|]. split; [|done].
      assert (Hfirst : ∀ d'',
        covered (dayOf (Some (if bool_decide (_round15 (24 * 60) > _round15 s)
                              then pushDay d (mkRange (_round15 s) (_round15 (24 * 60))) acc.1
                              else acc.1)) d'') i
        = covered (dayOf (Some acc.1) d'') i
          || bool_decide (d'' = d ∧ _minsToSlot (_round15 s) ≤ Z.of_nat i
                                    < _minsToSlot (24 * 60))).
      { intros d''. change (_round15 (24 * 60)) with 1440.
        change (_minsToSlot (24 * 60)) with 96.
        destruct (decide (1440 > _round15 s)) as [Hp|Hp].
        - rewrite -> (bool_decide_true (1440 > _)) by done.
          rewrite -> covered_pushDay by lia. cbn [startMin endMin].
          by change (_minsToSlot 1440) with 96.
        - rewrite -> (bool_decide_false (1440 > _)) by done.
          rewrite -> (bool_decide_false (_ ∧ _)); [by rewrite orb_false_r|].
          rewrite -> minsToSlot_high by lia. lia. }
      assert (Hsecond :
        covered (dayOf (Some (if bool_decide (_round15 e > _round15 0)
                              then pushDay ((d + 1) `mod` 7) (mkRange (_round15 0) (_round15 e))
                                     (if bool_decide (_round15 (24 * 60) > _round15 s)
                                      then pushDay d (mkRange (_round15 s) (_round15 (24 * 60))) acc.1
                                      else acc.1)
                              else (if bool_decide (_round15 (24 * 60) > _round15 s)
                                    then pushDay d (mkRange (_round15 s) (_round15 (24 * 60))) acc.1
                                    else acc.1))) d') i
        = (covered (dayOf (Some acc.1) d') i
           || bool_decide (d' = d ∧ _minsToSlot (_round15 s) ≤ Z.of_nat i
                                    < _minsToSlot (24 * 60)))
          || bool_decide (d' = ((d + 1) `mod` 7)%nat
                          ∧ _minsToSlot 0 ≤ Z.of_nat i < _minsToSlot (_round15 e))).
      { change (_round15 0) with 0. change (_minsToSlot 0) with 0.
        destruct (decide (_round15 e > 0)) as [Hp|Hp].
        - rewrite -> (bool_decide_true (_round15 e > 0)) by done.
          rewrite -> covered_pushDay by lia. cbn [startMin endMin].
          rewrite Hfirst. by change (_minsToSlot 0) with 0.
        - rewrite -> (bool_decide_false (_round15 e > 0)) by done.
          rewrite Hfirst.
          rewrite -> (bool_decide_false (_ = ((d + 1) `mod` 7)%nat ∧ _));
            [by rewrite orb_false_r|].
          rewrite -> minsToSlot_low by lia. lia. }
      rewrite Hsecond. rewrite -orb_assoc. f_equal.
      rewrite -bool_decide_or. apply bool_decide_ext.
      rewrite elem_of_app !elem_of_pairs !elem_of_loopSlots. tauto.
    + rewrite -> !(bool_decide_false (e < s)) by done. rewrite orb_false_r.
      split; [done|]. split; [|done].
      rewrite -> (bool_decide_false (_ ∈ _)); [by rewrite orb_false_r|].
      apply not_elem_of_nil.
Qed.

Lemma foldl_normRange_covered (d d' : nat) (l : DayRanges) (acc : WeekRanges * bool)
    (i : nat) :
  length acc.1 = 7%nat → (d < 7)%nat →
  length (foldl (normRange d) acc l).1 = 7%nat ∧
  covered (dayOf (Some (foldl (normRange d) acc l).1) d') i =
    covered (dayOf (Some acc.1) d') i
    || existsb (λ r, bool_decide ((d', Z.of_nat i) ∈ requestedBy d r)) l ∧
  (foldl (normRange d) acc l).2 =
    acc.2 || existsb (λ r, bool_decide (toInt32 (endMin r) < toInt32 (startMin r))) l.
Proof.
  intros Hlen Hd. revert acc Hlen.
  induction l as [|r l IH]; intros acc Hlen.
  - cbn [foldl existsb]. by rewrite !orb_false_r.
  - cbn [foldl existsb].
    destruct (normRange_covered d d' acc r i Hlen Hd) as (H1 & H2 & H3).
    destruct (IH _ H1) as (I1 & I2 & I3).
    split; [done|]. rewrite I2 I3 H2 H3. by rewrite !orb_assoc.
Qed.

Lemma foldl_days_covered (w : WeekRanges) (ds : list nat) (d' : nat)
    (acc : WeekRanges * bool) (i : nat) :
  length acc.1 = 7%nat → Forall (λ d, (d < 7)%nat) ds →
  let res := foldl (λ acc d, foldl (normRange d) acc (dayOf (Some w) d)) acc ds in
  length res.1 = 7%nat ∧
  covered (dayOf (Some res.1) d') i =
    covered (dayOf (Some acc.1) d') i
    || existsb (λ d, existsb (λ r, bool_decide ((d', Z.of_nat i) ∈ requestedBy d r))
                             (dayOf (Some w) d)) ds ∧
  res.2 =
    acc.2 || existsb (λ d, existsb (λ r, bool_decide (toInt32 (endMin r)
                                                      < toInt32 (startMin r)))
                                   (dayOf (Some w) d)) ds.
Proof.
  intros Hlen Hds. revert acc Hlen.
  induction Hds as [|d ds Hd Hds IH]; intros acc Hlen.
  - cbn [foldl existsb]. by rewrite !orb_false_r.
  - cbn [foldl existsb].
    destruct (foldl_normRange_covered d d' (dayOf (Some w) d) acc i Hlen Hd)
      as (H1 & H2 & H3).
    destruct (IH _ H1) as (I1 & I2 & I3). cbv zeta in I2, I3.
    split; [done|]. rewrite I2 I3 H2 H3. by rewrite !orb_assoc.
Qed.

Lemma existsb_days (P : nat → Range → Prop) `{∀ d r, Decision (P d r)}
    (w : WeekRanges) :
  existsb (λ d, existsb (λ r, bool_decide (P d r)) (dayOf (Some w) d)) (seq 0 7) = true
  ↔ ∃ d r, (d < 7)%nat ∧ r ∈ dayOf (Some w) d ∧ P d r.
Proof.
  rewrite existsb_exists. split.
  - intros (d & Hd & Hr). apply existsb_exists in Hr as (r & Hr & HP).
    apply list_elem_of_In, elem_of_seq in Hd. apply list_elem_of_In in Hr.
    apply bool_decide_eq_true in HP. exists d, r. split; [lia|done].
  - intros (d & r & Hd & Hr & HP). exists d.
    split; [apply list_elem_of_In, elem_of_seq; lia|].
    apply existsb_exists. exists r.
    split; [by apply list_elem_of_In|by apply bool_decide_eq_true].
Qed.

Lemma splitQuantize_covered (w : WeekRanges) (d' i : nat) :
  length (splitQuantize w).1 = 7%nat ∧
  (covered (dayOf (Some (splitQuantize w).1) d') i = true ↔
   ∃ d r, (d < 7)%nat ∧ r ∈ dayOf (Some w) d ∧ (d', Z.of_nat i) ∈ requestedBy d r) ∧
  ((splitQuantize w).2 = true ↔
   ∃ d r, (d < 7)%nat ∧ r ∈ dayOf (Some w) d ∧
          toInt32 (endMin r) < toInt32 (startMin r)).
Proof.
  destruct (foldl_days_covered w (seq 0 7) d' (_blankWeekRanges, false) i)
    as (H1 & H2 & H3); [done|apply Forall_forall; intros d Hd; apply elem_of_seq in Hd; lia|].
  cbv zeta in H1, H2, H3. fold (splitQuantize w) in H1, H2, H3.
  split; [exact H1|]. split.
  - rewrite H2. cbn [fst].
    assert (covered (dayOf (Some _blankWeekRanges) d') i = false) as ->.
    { unfold dayOf, _blankWeekRanges. cbn [mbind option_bind].
      destruct (decide (d' < 7)%nat).
      - by rewrite -> lookup_replicate_2 by done.
      - by rewrite -> lookup_ge_None_2 by (rewrite length_replicate; lia). }
    cbn [orb].
    apply (existsb_days (λ d r, (d', Z.of_nat i) ∈ requestedBy d r)).
  - rewrite H3. cbn [snd orb].
    apply (existsb_days (λ d r, toInt32 (endMin r) < toInt32 (startMin r))).
Qed.

Lemma length_requested (day : DayRanges) : length (requested day) = 96%nat.
Proof.
  unfold requested.
  assert (G : ∀ (l : list Z) (req : list bool),
            length (foldl (λ req s, <[Z.to_nat s := true]> req) req l) = length req).
  { induction l as [|s l IH]; intros req; [done|]. cbn [foldl].
    by rewrite IH length_insert. }
  assert (G2 : ∀ (rs : DayRanges) (req : list bool),
            length (foldl (λ req r,
                      foldl (λ req s, <[Z.to_nat s := true]> req) req
                            (loopSlots (_minsToSlot (startMin r)) (_minsToSlot (endMin r))))
                    req rs) = length req).
  { induction rs as [|r rs IH]; intros req; [done|]. cbn [foldl].
    by rewrite IH G. }
  rewrite G2. by rewrite length_replicate.
Qed.

(** X22. Which slots a submitted week requests.  After step 1 of
    normalise-and-clip, slot [i] of day [d'] is marked as requested
    exactly when some submitted range of one of the seven days asks for
    it: a range of day [d'] between its rounded endpoints, or from its
    rounded start to midnight when it ends before it starts, or such an
    overnight range of the day before (of Saturday, for Sunday) from
    midnight to its rounded end.  The overnight flag is set exactly when
    some submitted range ends before it starts.  Days beyond the seventh
    are not read. *)
Theorem requested_slots_of_week (weekRanges : WeekRanges) (d' i : nat) :
  (d' < 7)%nat → (i < 96)%nat →
  let norm := (splitQuantize weekRanges).1 in
  (requested (dayOf (Some norm) d') !! i = Some true ↔
   ∃ d r, (d < 7)%nat ∧ r ∈ dayOf (Some weekRanges) d ∧
          (d', Z.of_nat i) ∈ requestedBy d r) ∧
  ((splitQuantize weekRanges).2 = true ↔
   ∃ d r, (d < 7)%nat ∧ r ∈ dayOf (Some weekRanges) d ∧
          toInt32 (endMin r) < toInt32 (startMin r)) ∧
  length norm = 7%nat ∧ length (requested (dayOf (Some norm) d')) = 96%nat.
Proof.
  intros Hd Hi norm.
  destruct (splitQuantize_covered weekRanges d' i) as (H1 & H2 & H3).
  split; [|split; [exact H3|split; [exact H1|apply length_requested]]].
  rewrite -> requested_lookup by done. rewrite -H2. unfold norm.
  split; [by intros [= ->]|by intros ->].
Qed.

Lemma requested_slots_of_week_witness :
  requested (dayOf (Some (splitQuantize [[]; []; []; []; []; []; [mkRange 1380 60]]).1) 0)
    !! 3%nat = Some true.
Proof.
  destruct (requested_slots_of_week [[]; []; []; []; []; []; [mkRange 1380 60]] 0 3)
    as ([_ H] & _); [lia|lia|].
  apply H. exists 6%nat, (mkRange 1380 60).
  split; [lia|]. split; [apply list_elem_of_here|].
  apply (bool_decide_unpack _). by vm_compute.
Defined.

Lemma requested_ext (day day' : DayRanges) :
  (∀ i, (i < 96)%nat → covered day i = covered day' i) → requested day = requested day'.
Proof.
  intros H. apply list_eq. intros i.
  destruct (decide (i < 96)%nat) as [Hi|Hi].
  - rewrite -> !requested_lookup by done. by rewrite H.
  - by rewrite -> !lookup_ge_None_2 by (rewrite length_requested; lia).
Qed.

Lemma clipDay_requested (taskKey : string) (day day' : DayRanges) (occRow : DaySlots) :
  requested day = requested day' → clipDay taskKey day occRow = clipDay taskKey day' occRow.
Proof. intros H. unfold clipDay. by rewrite H. Qed.

(** X23. The result of a save depends only on which ranges each of the
    seven days holds: listing a day's ranges in another order, or listing
    one twice, changes neither what normalise-and-clip returns nor the
    engine after the save. *)
Theorem clip_ignores_order_and_repeats (today : Z) (st : WeekCore) (scope : Scope)
    (taskKey : string) (weekRanges weekRanges' : WeekRanges) :
  (∀ d r, (d < 7)%nat →
          r ∈ dayOf (Some weekRanges) d ↔ r ∈ dayOf (Some weekRanges') d) →
  _normalizeAndClip today st scope taskKey weekRanges
  = _normalizeAndClip today st scope taskKey weekRanges' ∧
  saveRanges today st taskKey scope weekRanges
  = saveRanges today st taskKey scope weekRanges'.
Proof.
  intros Hsame.
  assert (Hreq : ∀ d', requested (dayOf (Some (splitQuantize weekRanges).1) d')
                       = requested (dayOf (Some (splitQuantize weekRanges').1) d')).
  { intros d'. apply requested_ext. intros i Hi.
    destruct (splitQuantize_covered weekRanges d' i) as (_ & H1 & _).
    destruct (splitQuantize_covered weekRanges' d' i) as (_ & H1' & _).
    apply eq_true_iff_eq. rewrite H1 H1'.
    split; intros (d & r & Hd & Hr & Hv); exists d, r;
      (split; [done|]); (split; [by apply Hsame|done]). }
  assert (Hflag : (splitQuantize weekRanges).2 = (splitQuantize weekRanges').2).
  { destruct (splitQuantize_covered weekRanges 0 0) as (_ & _ & H3).
    destruct (splitQuantize_covered weekRanges' 0 0) as (_ & _ & H3').
    apply eq_true_iff_eq. rewrite H3 H3'.
    split; intros (d & r & Hd & Hr & Hv); exists d, r;
      (split; [done|]); (split; [by apply Hsame|done]). }
  assert (Heq : _normalizeAndClip today st scope taskKey weekRanges
                = _normalizeAndClip today st scope taskKey weekRanges').
  { unfold _normalizeAndClip.
    destruct (splitQuantize weekRanges) as [norm had].
    destruct (splitQuantize weekRanges') as [norm' had'].
    cbn [fst snd] in Hreq, Hflag. subst had'.
    assert (Hclip : (λ d, clipDay taskKey (dayOf (Some norm) d)
                            (default [] (_buildOccupancyMap st taskKey !! d))) <$> seq 0 7
                    = (λ d, clipDay taskKey (dayOf (Some norm') d)
                              (default [] (_buildOccupancyMap st taskKey !! d))) <$> seq 0 7).
    { apply list_fmap_ext. intros _ d _. apply clipDay_requested, Hreq. }
    by rewrite Hclip. }
  split; [exact Heq|]. unfold saveRanges. by rewrite Heq.
Qed.

Lemma clip_ignores_order_and_repeats_witness :
  _normalizeAndClip sampleToday sampleEngine ScWeek "commute"
    [[mkRange 60 120; mkRange 600 660]]
  = _normalizeAndClip sampleToday sampleEngine ScWeek "commute"
    [[mkRange 600 660; mkRange 60 120; mkRange 600 660]].
Proof.
  apply (clip_ignores_order_and_repeats sampleToday sampleEngine ScWeek "commute"
           [[mkRange 60 120; mkRange 600 660]]
           [[mkRange 600 660; mkRange 60 120; mkRange 600 660]]).
  intros d r Hd. destruct d as [|d].
  - unfold dayOf. cbn [mbind option_bind lookup list_lookup default].
    rewrite !elem_of_cons. tauto.
  - done.
Defined.

(** ** Saving nothing *)

Lemma clipDay_nil (taskKey : string) (occRow : DaySlots) : clipDay taskKey [] occRow = [].
Proof.
  rewrite clipDay_take.
  rewrite -> (sweepRuns_of_runs (λ _, true) _ [] 0 0); [done|done|done| |].
  - intros i Hi. unfold grantable. by rewrite -> requested_lookup by lia.
  - unfold SLOTS_PER_DAY. lia.
Qed.

Lemma normalizeAndClip_nothing (today : Z) (st : WeekCore) (scope : Scope)
    (taskKey : string) (weekRanges : WeekRanges) :
  (∀ d, (d < 7)%nat → dayOf (Some weekRanges) d = []) →
  _normalizeAndClip today st scope taskKey weekRanges = mkClipped _blankWeekRanges [].
Proof.
  intros Hw.
  assert (Hsq : splitQuantize weekRanges = (_blankWeekRanges, false)).
  { unfold splitQuantize.
    rewrite (foldl_ext_in _ (λ acc _, acc)).
    - intros acc d Hd. apply elem_of_seq in Hd. by rewrite -> Hw by lia.
    - done. }
  unfold _normalizeAndClip. rewrite Hsq. rewrite andb_false_r.
  assert (Hweek : (λ d, clipDay taskKey (dayOf (Some _blankWeekRanges) d)
                          (default [] (_buildOccupancyMap st taskKey !! d))) <$> seq 0 7
                  = _blankWeekRanges).
  { change _blankWeekRanges with ((λ _ : nat, @nil Range) <$> seq 0 7) at 2.
    apply list_fmap_ext. intros j d Hd. apply list_elem_of_lookup_2, elem_of_seq in Hd.
    assert (dayOf (Some _blankWeekRanges) d = []) as ->; [|apply clipDay_nil].
    unfold dayOf, _blankWeekRanges. cbn [mbind option_bind].
    by rewrite -> lookup_replicate_2 by lia. }
  by rewrite Hweek.
Qed.

(** X24. Saving nothing.  For a submitted week without ranges in its
    seven days (the empty array among them), normalise-and-clip returns
    seven empty days and no spill-over.  A recurring, week or month save
    then stores that blank week: at week scope the task keeps a week
    exception, so on every day of the visible week without a date
    exception it has no effective ranges, whatever its month and
    recurring ranges are.  A today save instead removes the task's date
    exceptions of the target date and of the date after it. *)
Theorem saving_nothing (today : Z) (st : WeekCore) (taskKey : string)
    (weekRanges : WeekRanges) :
  (∀ d, (d < 7)%nat → dayOf (Some weekRanges) d = []) →
  (∀ scope, _normalizeAndClip today st scope taskKey weekRanges
            = mkClipped _blankWeekRanges []) ∧
  EXACT (saveRanges today st taskKey ScRecurring weekRanges) !! taskKey
    = Some _blankWeekRanges ∧
  lookup2 (byMonth (EXCEPTIONS (saveRanges today st taskKey ScMonth weekRanges)))
          (_fmtMonthKey (visibleWeekFirst st)) taskKey = Some _blankWeekRanges ∧
  (let st' := saveRanges today st taskKey ScWeek weekRanges in
   lookup2 (byWeek (EXCEPTIONS st')) (_fmtWeekKey (visibleWeekFirst st)) taskKey
     = Some _blankWeekRanges ∧
   ∀ d, (d < 7)%nat →
     lookup2 (byDate (EXCEPTIONS st))
             (_fmtDate (_addDays (visibleWeekFirst st) (Z.of_nat d))) taskKey = None →
     _effectiveExactForTask st' taskKey !! d = Some []) ∧
  (let st' := saveRanges today st taskKey ScToday weekRanges in
   let date := (_getTodayTargetInVisibleWeek today st).1 in
   lookup2 (byDate (EXCEPTIONS st')) (_fmtDate date) taskKey = None ∧
   lookup2 (byDate (EXCEPTIONS st')) (_fmtDate (_addDays date 1)) taskKey = None).
Proof.
  intros Hw.
  assert (Hres : ∀ scope, _normalizeAndClip today st scope taskKey weekRanges
                          = mkClipped _blankWeekRanges []).
  { intros scope. by apply normalizeAndClip_nothing. }
  split; [exact Hres|]. split.
  { cbn [saveRanges EXACT]. by rewrite Hres lookup_insert_eq. }
  split.
  { cbn [saveRanges EXCEPTIONS byMonth]. rewrite Hres lookup2_insert2.
    by rewrite -> bool_decide_true by done. }
  split.
  { cbv zeta.
    assert (Hwk : lookup2 (byWeek (EXCEPTIONS (saveRanges today st taskKey ScWeek weekRanges)))
                    (_fmtWeekKey (visibleWeekFirst st)) taskKey = Some _blankWeekRanges).
    { cbn [saveRanges EXCEPTIONS byWeek]. rewrite Hres lookup2_insert2.
      by rewrite -> bool_decide_true by done. }
    split; [exact Hwk|]. intros d Hd Hnone.
    rewrite -> effective_lookup by done. unfold scopedWeek.
    destruct (saveRanges_view today st taskKey ScWeek weekRanges) as [_ ->].
    rewrite Hwk. cbn [saveRanges EXCEPTIONS byDate]. rewrite Hnone. f_equal.
    unfold dayOf, _blankWeekRanges. cbn [mbind option_bind].
    by rewrite -> lookup_replicate_2 by done. }
  cbv zeta. rewrite !saveRanges_today_lookup. cbv zeta. rewrite Hres.
  cbn [week spillNextDay]. unfold _fmtDate, _addDays.
  assert (Hday : dayOf (Some _blankWeekRanges) (_getTodayTargetInVisibleWeek today st).2
                 = []).
  { unfold dayOf, _blankWeekRanges. cbn [mbind option_bind].
    by rewrite -> lookup_replicate_2 by apply todayTarget_index. }
  rewrite Hday. split.
  - rewrite -> (bool_decide_false (_ + 1 = _ ∧ _)) by (intros [? _]; lia).
    by rewrite -> (bool_decide_true (_ = _ ∧ _)) by done.
  - by rewrite -> (bool_decide_true (_ + 1 = _ ∧ _)) by done.
Qed.

Lemma saving_nothing_witness :
  let st' := saveRanges sampleToday sampleEngine "work" ScWeek [] in
  _effectiveExactForTask sampleEngine "work" !! 5%nat = Some [] ∧
  EXACT sampleEngine !! "work" = Some [[]; []; []; []; []; []; [mkRange 540 600]] ∧
  lookup2 (byWeek (EXCEPTIONS st')) 20331 "work" = Some _blankWeekRanges.
Proof.
  intros st'.
  split; [by vm_compute|]. split; [by vm_compute|].
  destruct (saving_nothing sampleToday sampleEngine "work" []) as (_ & _ & _ & [H _] & _).
  - intros d _. unfold dayOf. cbn [mbind option_bind]. by rewrite lookup_nil.
  - exact H.
Defined.

(** ** Where the spill-over of a today save goes *)

(** X25. The spill-over of a today save made while the visible week,
    starting on a Sunday, holds the current day.  When a submitted range
    ends before it starts, what is stored under the next calendar date
    is the clipped day of the weekday after the current one in the
    visible week (nothing is stored, and an entry there is deleted, when
    that day is empty).  From Sunday to Friday that weekday is the next
    calendar date; on a Saturday it is the Sunday that the visible week
    starts with, seven days before the date it is stored under. *)
Theorem today_spill_destination (today : Z) (st : WeekCore) (taskKey : string)
    (weekRanges : WeekRanges) :
  getDay (visibleWeekFirst st) = 0 →
  visibleWeekFirst st ≤ today ≤ visibleWeekFirst st + 6 →
  (splitQuantize weekRanges).2 = true →
  let res := _normalizeAndClip today st ScToday taskKey weekRanges in
  let st' := saveRanges today st taskKey ScToday weekRanges in
  let next := (Z.to_nat (getDay today + 1) `mod` 7)%nat in
  spillNextDay res = dayOf (Some (week res)) next ∧
  lookup2 (byDate (EXCEPTIONS st')) (today + 1) taskKey =
    (if bool_decide (dayOf (Some (week res)) next = []) then None
     else Some (dayOf (Some (week res)) next)) ∧
  (getDay today < 6 → today + 1 = visibleWeekFirst st + Z.of_nat next) ∧
  (getDay today = 6 → next = 0%nat ∧ today + 1 = visibleWeekFirst st + 7).
Proof.
  intros Hsun Hin Hover res st' next.
  pose proof (getDay_bounds today) as Hb.
  assert (Ht : _getTodayTargetInVisibleWeek today st = (today, Z.to_nat (getDay today))).
  { unfold _getTodayTargetInVisibleWeek, _addDays. cbv zeta.
    by rewrite -> !bool_decide_true by lia. }
  assert (Hspill : spillNextDay res = dayOf (Some (week res)) next).
  { unfold res, _normalizeAndClip.
    destruct (splitQuantize weekRanges) as [norm had]. cbn [snd] in Hover. subst had.
    rewrite -> bool_decide_true by done. cbn [andb week spillNextDay].
    rewrite Ht. cbn [snd]. unfold next.
    by replace (Z.to_nat (getDay today) + 1)%nat with (Z.to_nat (getDay today + 1)) by lia. }
  split; [exact Hspill|]. split.
  { unfold st'. rewrite saveRanges_today_lookup. cbv zeta. rewrite Ht. cbn [fst snd].
    rewrite -> (bool_decide_true (_ + 1 = _ ∧ _)) by done. fold res. by rewrite Hspill. }
  assert (Hday : today = visibleWeekFirst st + getDay today).
  { pose proof (todayTarget_date today st Hsun) as Hd. rewrite Ht in Hd.
    unfold _addDays in Hd. cbn [fst snd] in Hd. lia. }
  split.
  - intros Hlt. unfold next. rewrite -> Nat.mod_small by lia. lia.
  - intros H6. unfold next. rewrite H6. split; [done|lia].
Qed.

Lemma today_spill_destination_witness :
  let st := construct sampleToday sampleTasks in
  let weekRanges := [[]; []; []; []; []; []; [mkRange 1380 60]] in
  lookup2 (byDate (EXCEPTIONS (saveRanges sampleToday st "work" ScToday weekRanges)))
          (sampleToday + 1) "work"
  = Some (dayOf (Some (week (_normalizeAndClip sampleToday st ScToday "work" weekRanges))) 0).
Proof.
  intros st weekRanges.
  destruct (today_spill_destination sampleToday st "work" weekRanges) as (_ & H & _).
  - reflexivity.
  - unfold st. by vm_compute.
  - reflexivity.
  - rewrite H. by vm_compute.
Defined.

(** ** A new engine *)

Lemma blank_weekVisits (d : nat) (j : Z) : (d, j) ∉ weekVisits _blankWeekRanges.
Proof.
  unfold weekVisits. intros Hin.
  apply list_elem_of_bind in Hin as (d' & Hin & Hd').
  apply list_elem_of_bind in Hin as (R & _ & HR).
  apply elem_of_seq in Hd'. unfold dayOf, _blankWeekRanges in HR.
  cbn [mbind option_bind] in HR.
  rewrite -> lookup_replicate_2 in HR by lia. by apply elem_of_nil in HR.
Qed.

Lemma construct_effective (today : Z) (tasks : list Task) (k : string) :
  _effectiveExactForTask (construct today tasks) k = _blankWeekRanges.
Proof.
  apply list_eq. intros d. destruct (decide (d < 7)%nat) as [Hd|Hd].
  - rewrite -> effective_lookup by done. unfold scopedWeek.
    cbn [construct gotoWeek EXCEPTIONS byDate byWeek byMonth EXACT].
    unfold lookup2. rewrite !lookup_empty. cbn [mbind option_bind].
    unfold _blankWeekRanges at 2. rewrite -> lookup_replicate_2 by done. f_equal.
    destruct (list_to_map _ !! k) as [w|] eqn:E; [|done].
    apply elem_of_list_to_map_2 in E.
    apply list_elem_of_fmap in E as (t & [= _ ->] & _).
    unfold dayOf, _blankWeekRanges. cbn [mbind option_bind].
    by rewrite -> lookup_replicate_2 by done.
  - rewrite -> lookup_ge_None_2 by (rewrite effective_length; lia).
    by rewrite -> lookup_ge_None_2 by (unfold _blankWeekRanges; rewrite length_replicate; lia).
Qed.

Lemma elem_of_rev_iff {A} (x : A) (l : list A) : x ∈ rev l ↔ x ∈ l.
Proof. rewrite !list_elem_of_In. symmetry. apply List.in_rev. Qed.

(** X26. A new engine, whatever its catalog and the current day: every
    catalog task has a blank recurring week, there are no exceptions and
    no stamps, the counter is 1, the week offset is 0 and the visible
    week holds the current day; every task has blank effective ranges,
    its active scope is [recurring], and the rendered grid is empty. *)
Theorem new_engine_is_blank (today : Z) (tasks : list Task) :
  let st := construct today tasks in
  (∀ k, EXACT st !! k = if bool_decide (k ∈ key <$> tasks)
                        then Some _blankWeekRanges else None) ∧
  (EXCEPTIONS st = mkExceptions ∅ ∅ ∅ ∧ ORDER st = mkOrder ∅ ∅ ∅ ∧
   LAST_SCOPE st = ∅ ∧ _saveSeq st = 1 ∧ weekOffset st = 0 ∧ TASKS st = tasks) ∧
  (getDay (visibleWeekFirst st) = 0 ∧
   visibleWeekFirst st ≤ today ≤ visibleWeekFirst st + 6) ∧
  (∀ k, _effectiveExactForTask st k = _blankWeekRanges ∧
        activeScopeForTask today st k = ScRecurring ∧
        seqForTask st k = 1000000000) ∧
  orderedTasks st = key <$> tasks ∧
  _rebuildSlotsForVisibleWeek st = _blankWeekSlots.
Proof.
  intros st. pose proof (getDay_bounds today) as Hb.
  split.
  { intros k. cbn [st construct gotoWeek EXACT].
    case_bool_decide as Hk.
    - apply list_elem_of_fmap in Hk as (t & -> & Ht).
      destruct (list_to_map ((λ t, (key t, _blankWeekRanges)) <$> rev tasks) !! key t)
        as [w|] eqn:E.
      + apply elem_of_list_to_map_2 in E.
        by apply list_elem_of_fmap in E as (t' & [= _ ->] & _).
      + apply not_elem_of_list_to_map_2 in E. exfalso. apply E.
        rewrite -list_fmap_compose. apply list_elem_of_fmap. exists t.
        split; [done|]. exact (proj2 (elem_of_rev_iff _ _) Ht).
    - apply not_elem_of_list_to_map_1. intros Hin. apply Hk.
      rewrite -list_fmap_compose in Hin.
      apply list_elem_of_fmap in Hin as (t & -> & Ht).
      apply list_elem_of_fmap. exists t. split; [done|]. exact (proj1 (elem_of_rev_iff _ _) Ht). }
  split; [done|].
  split.
  { split; [apply gotoWeek_sunday|].
    assert (visibleWeekFirst st = today - getDay today) as ->; [|lia].
    unfold st, construct, gotoWeek. cbn [visibleWeekFirst weekOffset]. lia. }
  assert (Hseq : ∀ k, seqForTask st k = 1000000000) by done.
  split.
  { intros k. split; [apply construct_effective|]. split; [|apply Hseq].
    unfold activeScopeForTask. cbn [st construct gotoWeek EXCEPTIONS byDate byWeek byMonth].
    unfold lookup2. rewrite !lookup_empty. cbn [mbind option_bind].
    by rewrite -> !bool_decide_false by (by intros [? ?]). }
  assert (Hord : orderedTasks st = key <$> tasks).
  { unfold orderedTasks. apply sortByKey_id.
    apply (same_key_sorted _ 1000000000). apply Forall_forall. intros k _. apply Hseq. }
  split; [exact Hord|].
  unfold _rebuildSlotsForVisibleWeek. rewrite Hord. unfold applyTasks.
  generalize (key <$> tasks). intros ks.
  induction ks as [|k ks IH]; [done|]. cbn [foldl].
  unfold st. rewrite construct_effective.
  rewrite applyRanges_as_visits.
  assert (weekVisits _blankWeekRanges = []) as ->; [|done].
  destruct (weekVisits _blankWeekRanges) as [|[d j] l] eqn:E; [done|].
  exfalso. apply (blank_weekVisits d j). rewrite E. apply list_elem_of_here.
Qed.

(** ** The occupancy map and the grid *)

Lemma head_filter_filter {A} (P Q : A → Prop) `{∀ x, Decision (P x)}
    `{∀ x, Decision (Q x)} (l : list A) (k : A) :
  head (filter P l) = Some k → Q k → head (filter P (filter Q l)) = Some k.
Proof.
  intros Hh HQ. induction l as [|x l IH]; [done|].
  rewrite filter_cons in Hh. rewrite (filter_cons Q).
  destruct (decide (P x)) as [HP|HP].
  - simpl in Hh. injection Hh as ->.
    rewrite -> decide_True by done. rewrite filter_cons.
    by rewrite -> decide_True by done.
  - destruct (decide (Q x)); [|by apply IH].
    rewrite filter_cons. rewrite -> decide_False by done. by apply IH.
Qed.

Lemma head_filter_filter_None {A} (P Q : A → Prop) `{∀ x, Decision (P x)}
    `{∀ x, Decision (Q x)} (l : list A) :
  head (filter P l) = None → head (filter P (filter Q l)) = None.
Proof.
  intros Hh. apply head_None in Hh. apply head_None.
  induction l as [|x l IH]; [done|].
  rewrite filter_cons in Hh. rewrite (filter_cons Q).
  destruct (decide (P x)) as [HP|HP]; [done|].
  destruct (decide (Q x)); [|by apply IH].
  rewrite filter_cons. rewrite -> decide_False by done. by apply IH.
Qed.

Lemma filter_id {A} (P : A → Prop) `{∀ x, Decision (P x)} (l : list A) :
  (∀ x, x ∈ l → P x) → filter P l = l.
Proof.
  induction l as [|x l IH]; intros Hl; [done|].
  rewrite filter_cons. rewrite -> decide_True by (apply Hl, list_elem_of_here).
  f_equal. apply IH. intros y Hy. apply Hl. apply elem_of_cons. by right.
Qed.

(** X27. The occupancy map that a save of a task is clipped against is
    the rendered grid without that task: it has seven rows of 96 cells,
    never holds the task's key, holds every other key and every empty
    cell of the rendered grid in the same cell, and where it holds a key
    the rendered grid holds that key or the task's own.  For a key that
    is not in the catalog it is the rendered grid. *)
Theorem occupancy_is_grid_without_task (st : WeekCore) (taskKey : string) :
  let occ := _buildOccupancyMap st taskKey in
  let grid := _rebuildSlotsForVisibleWeek st in
  gridShape occ ∧
  (∀ d i, cell occ d i ≠ Some (Some taskKey)) ∧
  (∀ d i c, cell grid d i = Some c → c ≠ Some taskKey → cell occ d i = Some c) ∧
  (∀ d i k, cell occ d i = Some (Some k) →
     cell grid d i = Some (Some k) ∨ cell grid d i = Some (Some taskKey)) ∧
  (taskKey ∉ key <$> TASKS st → occ = grid).
Proof.
  intros occ grid.
  assert (Hshape : gridShape occ).
  { unfold occ. rewrite buildOccupancyMap_filter.
    apply applyTasks_gridShape, blank_gridShape. }
  assert (Hgshape : gridShape grid) by apply rebuild_gridShape.
  assert (Hocc : ∀ d i, (d < 7)%nat → (i < 96)%nat →
            cell occ d i = Some (firstClaimant st (filter (λ k, k ≠ taskKey)
                                                          (orderedTasks st)) d i)).
  { intros d i Hd Hi. by apply occupancy_cell. }
  assert (Hgrid : ∀ d i, (d < 7)%nat → (i < 96)%nat →
            cell grid d i = Some (firstClaimant st (orderedTasks st) d i)).
  { intros d i Hd Hi. unfold grid, _rebuildSlotsForVisibleWeek.
    rewrite applyTasks_cell. by rewrite -> blank_cell by done. }
  assert (Hnot : ∀ d i, cell occ d i ≠ Some (Some taskKey)).
  { intros d i Hc. destruct (cell_in_grid _ _ _ _ Hshape Hc) as [Hd Hi].
    rewrite -> Hocc in Hc by done. apply (inj Some) in Hc.
    apply firstClaimant_Some in Hc as [Hk _].
    by apply list_elem_of_filter in Hk as [? _]. }
  assert (Hkeep : ∀ d i c, cell grid d i = Some c → c ≠ Some taskKey →
                           cell occ d i = Some c).
  { intros d i c Hc Hne. destruct (cell_in_grid _ _ _ _ Hgshape Hc) as [Hd Hi].
    rewrite -> Hgrid in Hc by done. apply (inj Some) in Hc.
    rewrite -> Hocc by done. f_equal. unfold firstClaimant in *.
    destruct c as [k|].
    - apply head_filter_filter; [done|]. by intros ->.
    - by apply head_filter_filter_None. }
  split; [exact Hshape|]. split; [exact Hnot|]. split; [exact Hkeep|]. split.
  - intros d i k Hc. destruct (cell_in_grid _ _ _ _ Hshape Hc) as [Hd Hi].
    destruct (lookup_lt_is_Some_2 grid d) as [row Hrow]; [destruct Hgshape; lia|].
    destruct (cell grid d i) as [c|] eqn:E.
    + destruct (decide (c = Some taskKey)) as [->|Hne]; [by right|].
      left. rewrite (Hkeep d i c E Hne) in Hc. done.
    + rewrite -> Hgrid in E by done. done.
  - intros Hk. unfold occ, grid. rewrite buildOccupancyMap_filter.
    unfold _rebuildSlotsForVisibleWeek. f_equal.
    apply filter_id. intros k Hin ->. apply Hk. by apply orderedTasks_elem.
Qed.

Lemma occupancy_is_grid_without_task_witness :
  cell (_rebuildSlotsForVisibleWeek sampleEngine) 6 40 = Some (Some "work") ∧
  cell (_buildOccupancyMap sampleEngine "commute") 6 40 = Some (Some "work") ∧
  _buildOccupancyMap sampleEngine "nap" = _rebuildSlotsForVisibleWeek sampleEngine.
Proof.
  assert (H : cell (_rebuildSlotsForVisibleWeek sampleEngine) 6 40 = Some (Some "work"))
    by (by vm_compute).
  split; [exact H|].
  destruct (occupancy_is_grid_without_task sampleEngine "commute") as (_ & _ & Hk & _).
  destruct (occupancy_is_grid_without_task sampleEngine "nap") as (_ & _ & _ & _ & Hn).
  split; [apply (Hk 6%nat 40%nat _ H); by intros [= ?]|].
  apply Hn. apply (bool_decide_unpack _). by vm_compute.
Defined.


(** ** The save counter and import *)

(** X28. [setState] never changes the save counter, and [getState] does
    not export it.  So after an import the stamps are the imported ones,
    and the first save of a task at recurring scope that finds no stamp
    there gives it the counter of the importing engine, whatever stamps
    were imported, and adds one to that counter. *)
Theorem import_keeps_save_counter (s : Exported) (st : WeekCore) (today : Z)
    (taskKey : string) (weekRanges : WeekRanges) :
  let st1 := importState s st in
  let st2 := saveRanges today st1 taskKey ScRecurring weekRanges in
  _saveSeq st1 = _saveSeq st ∧ ORDER st1 = exORDER s ∧
  (ord_recurring (exORDER s) !! taskKey = None →
     stampAt st2 (AtRecurring taskKey) = Some (_saveSeq st) ∧
     _saveSeq st2 = _saveSeq st + 1) ∧
  (∀ v, ord_recurring (exORDER s) !! taskKey = Some v → v ≠ 0 →
     stampAt st2 (AtRecurring taskKey) = Some v ∧ _saveSeq st2 = _saveSeq st) ∧
  (∀ k, k ≠ taskKey →
     stampAt st2 (AtRecurring k) = ord_recurring (exORDER s) !! k).
Proof.
  intros st1 st2. split; [done|]. split; [done|].
  pose proof (stampIfUnset_spec taskKey taskKey (ord_recurring (exORDER s)) (_saveSeq st))
    as [H1 H2].
  rewrite -> bool_decide_true in H1 by done.
  split; [|split].
  - intros Hnone. rewrite Hnone in H1, H2. done.
  - intros v Hv Hv0. rewrite Hv in H1, H2.
    rewrite -> bool_decide_false in H1, H2 by done. done.
  - intros k Hk.
    pose proof (stampIfUnset_spec taskKey k (ord_recurring (exORDER s)) (_saveSeq st))
      as [H3 _].
    rewrite -> bool_decide_false in H3 by done. done.
Qed.

Lemma import_keeps_save_counter_witness :
  let st1 := importState (getState sampleEngine) (construct sampleToday sampleTasks) in
  let st2 := saveRanges sampleToday st1 "commute" ScRecurring [] in
  stampAt st1 (AtRecurring "work") = Some 1 ∧
  stampAt st2 (AtRecurring "commute") = Some 1.
Proof.
  intros st1 st2. split; [reflexivity|].
  destruct (import_keeps_save_counter (getState sampleEngine)
              (construct sampleToday sampleTasks) sampleToday "commute" [])
    as (_ & _ & H & _).
  exact (proj1 (H eq_refl)).
Defined.

(** ** Saves at a scope that is not in force *)

Lemma seqForTask_min (st : WeekCore) (k : string) (m : Z) :
  m ∈ definedSeqs st k → (∀ v, v ∈ definedSeqs st k → m ≤ v) → seqForTask st k = m.
Proof.
  intros Hm Hle. unfold seqForTask.
  destruct (head_sortByKey_min (definedSeqs st k)) as (m0 & -> & Hm0 & Hall).
  { intros E. rewrite E in Hm. by apply elem_of_nil in Hm. }
  simpl. rewrite -> Forall_forall in Hall.
  pose proof (Hle m0 Hm0) as H1. pose proof (Hall m Hm) as H2. simpl in H2. lia.
Qed.

Lemma seqForTask_is_min (st : WeekCore) (k : string) :
  definedSeqs st k ≠ [] →
  seqForTask st k ∈ definedSeqs st k ∧
  ∀ v, v ∈ definedSeqs st k → seqForTask st k ≤ v.
Proof.
  intros Hne. unfold seqForTask.
  destruct (head_sortByKey_min (definedSeqs st k) Hne) as (m0 & -> & Hm0 & Hall).
  simpl. rewrite -> Forall_forall in Hall. by split.
Qed.

Lemma definedSeqs_stamps (st : WeekCore) (k : string) (v : Z) :
  v ∈ definedSeqs st k ↔
    stampAt st (AtWeek (_fmtWeekKey (visibleWeekFirst st)) k) = Some v ∨
    stampAt st (AtMonth (_fmtMonthKey (visibleWeekFirst st)) k) = Some v ∨
    stampAt st (AtRecurring k) = Some v.
Proof. apply elem_of_definedSeqs. Qed.

Lemma save_new_stamp_keeps_seq (today : Z) (st : WeekCore) (taskKey : string)
    (scope : Scope) (weekRanges : WeekRanges) (a b : StampAddr) (vb : Z) :
  stampsFromCounter st →
  saveAddr st scope taskKey = Some a →
  stampAt st b = Some vb → vb ∈ definedSeqs st taskKey →
  (∀ v, stampAt st a = Some v → v ∈ definedSeqs st taskKey) →
  (∀ v, v ∈ definedSeqs (saveRanges today st taskKey scope weekRanges) taskKey →
        v ∈ definedSeqs st taskKey ∨ stampAt st a = None ∧ v = _saveSeq st) →
  (∀ v, v ∈ definedSeqs st taskKey →
        v ∈ definedSeqs (saveRanges today st taskKey scope weekRanges) taskKey) →
  seqForTask (saveRanges today st taskKey scope weekRanges) taskKey
  = seqForTask st taskKey.
Proof.
  intros [Hpos Hinv] Ha Hb Hvb Hold Hnew Hkeep.
  assert (Hne : definedSeqs st taskKey ≠ []).
  { intros E. rewrite E in Hvb. by apply elem_of_nil in Hvb. }
  destruct (seqForTask_is_min st taskKey Hne) as [Hm Hle].
  apply seqForTask_min; [by apply Hkeep|].
  intros v Hv. destruct (Hnew v Hv) as [Hin|[_ ->]]; [by apply Hle|].
  pose proof (Hle vb Hvb). pose proof (Hinv b vb Hb). lia.
Qed.

Lemma hidden_save_seq (today : Z) (st : WeekCore) (taskKey : string)
    (scope : Scope) (weekRanges : WeekRanges) (b : StampAddr) (vb : Z) :
  stampsFromCounter st →
  scope = ScRecurring ∨ scope = ScMonth →
  stampAt st b = Some vb → vb ∈ definedSeqs st taskKey →
  seqForTask (saveRanges today st taskKey scope weekRanges) taskKey
  = seqForTask st taskKey.
Proof.
  intros Hst Hsc Hb Hvb.
  pose proof (saveRanges_stamps today st taskKey scope weekRanges) as Hs.
  cbv zeta in Hs.
  destruct (saveRanges_view today st taskKey scope weekRanges) as [_ Hv].
  set (st' := saveRanges today st taskKey scope weekRanges) in *.
  set (a := match scope with
            | ScMonth => AtMonth (_fmtMonthKey (visibleWeekFirst st)) taskKey
            | _ => AtRecurring taskKey end).
  assert (Ha : saveAddr st scope taskKey = Some a) by (by destruct Hsc as [-> | ->]).
  rewrite Ha in Hs. destruct Hs as [Hat _].
  assert (Hafter : ∀ v, stampAfter (stampAt st a) (_saveSeq st) = Some v →
                        stampAt st a = Some v ∨ stampAt st a = None ∧ v = _saveSeq st).
  { intros v. destruct Hst as [_ Hinv].
    destruct (stampAt st a) as [v0|] eqn:E; simpl.
    - pose proof (Hinv a v0 E). rewrite -> bool_decide_false by lia. by left.
    - intros [= <-]. by right. }
  assert (Hkeepa : ∀ v, stampAt st a = Some v →
                        stampAfter (stampAt st a) (_saveSeq st) = Some v).
  { intros v E. rewrite E. simpl. destruct Hst as [_ Hinv].
    pose proof (Hinv a v E). by rewrite -> bool_decide_false by lia. }
  assert (Hain : ∀ v, stampAt st a = Some v → v ∈ definedSeqs st taskKey).
  { intros v E. apply definedSeqs_stamps. unfold a in E.
    destruct Hsc as [-> | ->]; tauto. }
  assert (Hpres : ∀ b0 v, stampAt st b0 = Some v → stampAt st' b0 = Some v).
  { intros b0 v E. rewrite Hat. case_bool_decide as Eb; [|done].
    subst b0. by apply Hkeepa. }
  assert (Hrev : ∀ b0 v, stampAt st' b0 = Some v →
                         stampAt st b0 = Some v ∨ stampAt st a = None ∧ v = _saveSeq st).
  { intros b0 v. rewrite Hat. case_bool_decide as Eb; [|by left].
    subst b0. apply Hafter. }
  apply (save_new_stamp_keeps_seq today st taskKey scope weekRanges a b vb);
    try done.
  - intros v Hin. apply definedSeqs_stamps in Hin. fold st' in Hin. rewrite Hv in Hin.
    destruct Hin as [Hin|[Hin|Hin]]; apply Hrev in Hin as [Hin|Hin];
      try (by right); left; apply definedSeqs_stamps; tauto.
  - intros v Hin. apply definedSeqs_stamps. fold st'. rewrite Hv.
    apply definedSeqs_stamps in Hin.
    destruct Hin as [Hin|[Hin|Hin]]; apply Hpres in Hin; tauto.
Qed.

(** X29. A save at a scope that is not in force.  In an engine whose
    stamps were handed out by its counter, as in every engine driven by
    calls, take a task that has, for the visible week, a stamped week
    exception, and save it at recurring or month scope; or take a task
    with a stamped month exception for the visible month and save it at
    recurring scope.  The save stores its ranges, but the task's
    effective ranges, the processing order and the rendered grid of the
    visible week stay exactly as they were. *)
Theorem save_at_hidden_scope_keeps_grid (today : Z) (st : WeekCore)
    (taskKey : string) (scope : Scope) (weekRanges : WeekRanges) :
  stampsFromCounter st →
  let wk := _fmtWeekKey (visibleWeekFirst st) in
  let mo := _fmtMonthKey (visibleWeekFirst st) in
  ((scope = ScRecurring ∨ scope = ScMonth) ∧
   is_Some (lookup2 (byWeek (EXCEPTIONS st)) wk taskKey) ∧
   is_Some (stampAt st (AtWeek wk taskKey))) ∨
  (scope = ScRecurring ∧
   is_Some (lookup2 (byMonth (EXCEPTIONS st)) mo taskKey) ∧
   is_Some (stampAt st (AtMonth mo taskKey))) →
  let st' := saveRanges today st taskKey scope weekRanges in
  (∀ k, _effectiveExactForTask st' k = _effectiveExactForTask st k) ∧
  orderedTasks st' = orderedTasks st ∧
  _rebuildSlotsForVisibleWeek st' = _rebuildSlotsForVisibleWeek st.
Proof.
  intros Hst wk mo Hcase st'.
  destruct (saveRanges_view today st taskKey scope weekRanges) as [Ht Hv].
  fold st' in Ht, Hv.
  assert (Hsc : scope = ScRecurring ∨ scope = ScMonth).
  { destruct Hcase as [[? _]|[? _]]; [done|by left]. }
  assert (Heff : ∀ k, _effectiveExactForTask st' k = _effectiveExactForTask st k).
  { intros k. destruct (decide (k = taskKey)) as [->|Hne];
      [|by apply saveRanges_effective_other].
    apply list_eq. intros d. destruct (decide (d < 7)%nat) as [Hd|Hd].
    - rewrite -> !effective_lookup by done. rewrite Hv. unfold scopedWeek. rewrite Hv.
      assert (Hbd : byDate (EXCEPTIONS st') = byDate (EXCEPTIONS st)).
      { unfold st'. by destruct Hsc as [-> | ->]. }
      assert (Hbw : byWeek (EXCEPTIONS st') = byWeek (EXCEPTIONS st)).
      { unfold st'. by destruct Hsc as [-> | ->]. }
      rewrite Hbd Hbw. fold wk mo.
      destruct Hcase as [(_ & [w Hw] & _)|(-> & [w Hw] & _)].
      + by rewrite Hw.
      + assert (Hbm : byMonth (EXCEPTIONS st') = byMonth (EXCEPTIONS st)) by done.
        rewrite Hbm Hw. by destruct (lookup2 (byWeek (EXCEPTIONS st)) wk taskKey).
    - by rewrite -> !lookup_ge_None_2 by (rewrite effective_length; lia). }
  assert (Hseq : ∀ k, seqForTask st' k = seqForTask st k).
  { intros k. destruct (decide (k = taskKey)) as [->|Hne];
      [|by apply saveRanges_seq_other].
    destruct Hcase as [(_ & _ & [v Hstamp])|(_ & _ & [v Hstamp])].
    - apply (hidden_save_seq today st taskKey scope weekRanges _ v Hst Hsc Hstamp).
      apply definedSeqs_stamps. by left.
    - apply (hidden_save_seq today st taskKey scope weekRanges _ v Hst Hsc Hstamp).
      apply definedSeqs_stamps. right. by left. }
  assert (Hord : orderedTasks st' = orderedTasks st) by (by apply orderedTasks_ext).
  split; [exact Heff|]. split; [exact Hord|]. by apply rebuild_ext.
Qed.

Lemma save_at_hidden_scope_keeps_grid_witness :
  let st := saveRanges sampleToday sampleEngine "work" ScWeek
              [[]; []; []; []; []; [mkRange 600 660]] in
  let st' := saveRanges sampleToday st "work" ScRecurring
               [[]; []; [mkRange 0 600]] in
  EXACT st' !! "work" ≠ EXACT st !! "work" ∧
  _rebuildSlotsForVisibleWeek st' = _rebuildSlotsForVisibleWeek st.
Proof.
  intros st st'.
  split; [by vm_compute|].
  assert (Hst : stampsFromCounter st).
  { exact (proj1 (performAll_stamps (construct sampleToday sampleTasks)
             [CallSave sampleToday "work" ScRecurring
                [[]; []; []; []; []; []; [mkRange 540 600]];
              CallSave sampleToday "work" ScToday
                [[]; []; []; []; []; []; [mkRange 600 660]];
              CallSave sampleToday "work" ScWeek
                [[]; []; []; []; []; [mkRange 600 660]]]
             (construct_stamps sampleToday sampleTasks))). }
  destruct (save_at_hidden_scope_keeps_grid sampleToday st "work" ScRecurring
              [[]; []; [mkRange 0 600]] Hst) as (_ & _ & H); [|exact H].
  left. split; [by left|]. split; by eexists.
Defined.
